(** * Load-test driver for the product service: model and verification

    Shallow embedding of [load-tests/python-load-test.py].

    Numbers: Python [int] is [Z]; Python [float] (clock readings, response
    times, random draws, statistics) is modelled by exact rationals [Q], and
    equalities between such values are stated up to [Qeq].  Rounding of IEEE
    doubles is outside the model.

    Effects: a coroutine is a finite tree of effects ([Prog]); the clock, the
    random generator and the server are the environment, which answers each
    effect.  The tasks of one [asyncio.gather] are interleaved effect by
    effect under every schedule; asyncio switches tasks only where a task
    suspends, so its schedules are among those considered here.

    Library code that the script calls ([statistics.mean],
    [statistics.quantiles], [min], [max], [sorted], [asyncio.Semaphore],
    [asyncio.gather]) is modelled after CPython's implementation of these
    functions. *)

From Stdlib Require Import ZArith QArith List String Bool Lia Arith.
From Stdlib Require Import Permutation Sorted DecimalString Lqa.
Import ListNotations.

Local Open Scope Z_scope.

(** ** Exceptions and results of fallible code *)

(** The exception classes that occur in the script or in the library calls it
    makes.  [is_Exception] tells whether the class derives from [Exception]
    (what [except Exception] catches); [CancelledError], [KeyboardInterrupt]
    and [SystemExit] derive from [BaseException] only. *)
Inductive PyExc : Type :=
| ClientConnectorError   (* connection refused, DNS failure *)
| ServerDisconnectedError
| ClientPayloadError     (* protocol error *)
| AsyncioTimeoutError    (* ClientTimeout(total=30) elapsed *)
| OSError
| ValueError
| ZeroDivisionError
| StatisticsError
| CancelledError
| KeyboardInterrupt
| SystemExit.

Definition is_Exception (e : PyExc) : bool :=
  match e with
  | CancelledError | KeyboardInterrupt | SystemExit => false
  | _ => true
  end.

(** Transport-level failures of the client call. *)
Definition transport_failure (e : PyExc) : bool :=
  match e with
  | ClientConnectorError | ServerDisconnectedError | ClientPayloadError
  | AsyncioTimeoutError | OSError => true
  | _ => false
  end.

Inductive Result (A : Type) : Type :=
| Ok (a : A)
| Raised (e : PyExc).
Arguments Ok {A} a.
Arguments Raised {A} e.

Definition rbind {A B} (r : Result A) (f : A -> Result B) : Result B :=
  match r with
  | Ok a => f a
  | Raised e => Raised e
  end.

Declare Scope result_scope.
Delimit Scope result_scope with result.
Notation "x <- c ;;; k" := (rbind c (fun x => k))
  (at level 61, c at next level, right associativity) : result_scope.

(** ** Data model *)

(** [@dataclass class TestResult] *)
Record TestResult : Type := mkTestResult {
  endpoint : string;
  status_code : Z;
  response_time_ms : Q;
  success : bool
}.

(** ** Statistics (CPython's [statistics] module and builtins) *)

Module Stats.

Fixpoint insert (x : Q) (l : list Q) : list Q :=
  match l with
  | [] => [x]
  | y :: l' => if Qle_bool x y then x :: l else y :: insert x l'
  end.

(** [sorted(data)]: ascending order; on numbers the result does not depend
    on the sorting algorithm. *)
Fixpoint sorted (l : list Q) : list Q :=
  match l with
  | [] => []
  | x :: l' => insert x (sorted l')
  end.

Definition Qsum (l : list Q) : Q := fold_right Qplus 0%Q l.

Definition len {A} (l : list A) : Z := Z.of_nat (List.length l).

(** [data[i]] for an index that the caller keeps in range. *)
Definition item (l : list Q) (i : Z) : Q := nth (Z.to_nat i) l 0%Q.

(** [statistics.mean(data)] *)
Definition mean (data : list Q) : Result Q :=
  match data with
  | [] => Raised StatisticsError
  | _ => Ok (Qsum data / inject_Z (len data))%Q
  end.

(** One cut point of [statistics.quantiles(data, n=n)], default
    [method='exclusive'], for [i] in [range(1, n)]:
<<
    m = ld + 1
    j = i * m // n
    j = 1 if j < 1 else ld-1 if j > ld-1 else j
    delta = i*m - j*n
    interpolated = (data[j - 1] * (n - delta) + data[j] * delta) / n
>> *)
Definition cut_index (ld n i : Z) : Z :=
  let m := ld + 1 in
  let j := i * m / n in
  if j <? 1 then 1 else if j >? ld - 1 then ld - 1 else j.

Definition cut_point (data : list Q) (ld n i : Z) : Q :=
  let m := ld + 1 in
  let j := cut_index ld n i in
  let delta := i * m - j * n in
  ((item data (j - 1) * inject_Z (n - delta) + item data j * inject_Z delta)
     / inject_Z n)%Q.

(** [statistics.quantiles(data, n=n)] *)
Definition quantiles (data : list Q) (n : Z) : Result (list Q) :=
  if n <? 1 then Raised StatisticsError
  else
    let data := sorted data in
    let ld := len data in
    if ld <? 2 then Raised StatisticsError
    else Ok (map (fun i => cut_point data ld n (Z.of_nat i))
                 (seq 1 (Z.to_nat n - 1))).

(** [min(xs)] and [max(xs)] *)
Definition Qmin_list (xs : list Q) : Result Q :=
  match xs with
  | [] => Raised ValueError
  | x :: xs' => Ok (fold_left (fun a b => if Qlt_le_dec b a then b else a) xs' x)
  end.

Definition Qmax_list (xs : list Q) : Result Q :=
  match xs with
  | [] => Raised ValueError
  | x :: xs' => Ok (fold_left (fun a b => if Qlt_le_dec a b then b else a) xs' x)
  end.

(** [xs[i]] on a list that may be too short: [IndexError] does not occur in
    the script because the list returned by [quantiles(_, n)] has [n-1]
    elements; the subscript is modelled as a lookup that raises otherwise. *)
Definition subscript (xs : list Q) (i : nat) : Result Q :=
  match nth_error xs i with
  | Some x => Ok x
  | None => Raised ValueError
  end.

End Stats.

(** ** Programs with effects

    Coroutines are embedded as finite trees of effects: [Vis ev k] performs
    the effect [ev] and continues with [k] applied to its answer; [Raise e]
    is a pending Python exception. *)

Inductive Prog (E : Type -> Type) (A : Type) : Type :=
| Ret (a : A)
| Raise (e : PyExc)
| Vis {X : Type} (ev : E X) (k : X -> Prog E A).
Arguments Ret {E A} a.
Arguments Raise {E A} e.
Arguments Vis {E A X} ev k.

Section Combinators.
Context {E : Type -> Type}.

Fixpoint bind {A B} (p : Prog E A) (f : A -> Prog E B) : Prog E B :=
  match p with
  | Ret a => f a
  | Raise e => Raise e
  | Vis ev k => Vis ev (fun x => bind (k x) f)
  end.

Definition trigger {X} (ev : E X) : Prog E X := Vis ev Ret.

(** [try: p  except Exception as e: h e] *)
Fixpoint try_except {A} (p : Prog E A) (h : PyExc -> Prog E A) : Prog E A :=
  match p with
  | Ret a => Ret a
  | Raise e => if is_Exception e then h e else Raise e
  | Vis ev k => Vis ev (fun x => try_except (k x) h)
  end.

(** [try: p  finally: q] *)
Fixpoint try_finally {A} (p : Prog E A) (q : Prog E unit) : Prog E A :=
  match p with
  | Ret a => bind q (fun _ => Ret a)
  | Raise e => bind q (fun _ => Raise e)
  | Vis ev k => Vis ev (fun x => try_finally (k x) q)
  end.

(** [async with cm: p] once [__aenter__] has returned; [aexit] is the
    [__aexit__] call, which answers with the exception it raises, if any. *)
Fixpoint with_exit {A} (p : Prog E A) (aexit : Prog E (option PyExc)) : Prog E A :=
  match p with
  | Ret a => bind aexit (fun r => match r with
                                  | Some e' => Raise e'
                                  | None => Ret a
                                  end)
  | Raise e => bind aexit (fun r => match r with
                                    | Some e' => Raise e'
                                    | None => Raise e
                                    end)
  | Vis ev k => Vis ev (fun x => with_exit (k x) aexit)
  end.
End Combinators.

Declare Scope prog_scope.
Delimit Scope prog_scope with prog.
Notation "x <- c ;; k" := (bind c (fun x => k))
  (at level 61, c at next level, right associativity) : prog_scope.
Notation "c ;; k" := (bind c (fun _ => k))
  (at level 61, right associativity) : prog_scope.
Local Open Scope prog_scope.

(** ** The runner object and the requests it sends *)

(** [aiohttp.ClientSession]: an object identity and its configured timeout.
    Whether it is closed is mutable state of the object, kept in the heap of
    the [World] below. *)
Record ClientSession : Type := mkSession {
  session_id : nat;
  timeout_total : Z
}.

Record ProductData : Type := mkProductData {
  pd_name : string;
  pd_description : string;
  pd_price : Z;
  pd_stockQuantity : Z;
  pd_category : string;
  pd_sku : string
}.

Record Request : Type := mkRequest {
  rq_method : string;
  rq_url : string;
  rq_headers : list (string * string);
  rq_json : option ProductData
}.

(** [str(n)] for an integer and [int(x)] for a float (truncation). *)
Definition str (n : Z) : string := NilZero.string_of_int (Z.to_int n).
Definition int (x : Q) : Z := Z.quot (Qnum x) (Z.pos (Qden x)).

(** Effects of a coroutine of the script. *)
Inductive TaskE : Type -> Type :=
| TimeTime : TaskE Q                                (* time.time() *)
| RandomRandom : TaskE Q                            (* random.random() *)
| RandomRandint (a b : Z) : TaskE Z                 (* random.randint(a, b) *)
| RandomChoice (xs : list string) : TaskE string    (* random.choice(xs) *)
| SemAcquire : TaskE unit                           (* semaphore.__aenter__ *)
| SemRelease : TaskE unit                           (* semaphore.__aexit__ *)
| GetSession : TaskE ClientSession                  (* self._get_session() *)
| HttpSend (s : ClientSession) (r : Request) : TaskE unit
                                                    (* session.get / session.post: request dispatched *)
| HttpAwait : TaskE (PyExc + Z)                     (* ... __aenter__ resumes: raised, or response.status *)
| HttpRelease : TaskE (option PyExc)                (* response __aexit__ *)
| ResultsAppend (r : TestResult) : TaskE unit.      (* self.results.append(r) *)

Definition Task := Prog TaskE.

Definition time_time : Task Q := trigger TimeTime.
Definition random_random : Task Q := trigger RandomRandom.
Definition random_randint (a b : Z) : Task Z := trigger (RandomRandint a b).
Definition random_choice (xs : list string) : Task string := trigger (RandomChoice xs).

(** [async with session.<method>(url, ...) as response: body response.status] *)
Definition async_with_request {A} (s : ClientSession) (r : Request)
    (body : Z -> Task A) : Task A :=
  trigger (HttpSend s r) ;;
  reply <- trigger HttpAwait ;;
  match reply with
  | inl e => Raise e
  | inr status => with_exit (body status) (trigger HttpRelease)
  end.

(** [async with semaphore: body] *)
Definition async_with_semaphore {A} (body : Task A) : Task A :=
  trigger SemAcquire ;;
  try_finally body (trigger SemRelease).

Section LoadTestRunner.
(** [self.base_url], [self.tenants] *)
Variable base_url : string.
Variable tenants : list string.

(** [LoadTestRunner.get_all_products] *)
Definition get_all_products (session : ClientSession) (tenant : string) : Task TestResult :=
  start_time <- time_time ;;
  let headers := [("Accept", "application/json"); ("X-Tenant-Slug", tenant)]%string in
  try_except
    (async_with_request session
       (mkRequest "GET" (base_url ++ "/api/products") headers None)
       (fun status =>
          now <- time_time ;;
          let response_time := ((now - start_time) * 1000)%Q in
          Ret (mkTestResult "GET /api/products" status response_time (status =? 200))))
    (fun e =>
       now <- time_time ;;
       let response_time := ((now - start_time) * 1000)%Q in
       Ret (mkTestResult "GET /api/products" 0 response_time false)).

(** [LoadTestRunner.get_product_by_id] *)
Definition get_product_by_id (session : ClientSession) (tenant product_id : string)
  : Task TestResult :=
  start_time <- time_time ;;
  let headers := [("Accept", "application/json"); ("X-Tenant-Slug", tenant)]%string in
  try_except
    (async_with_request session
       (mkRequest "GET" (base_url ++ "/api/products/" ++ product_id) headers None)
       (fun status =>
          now <- time_time ;;
          let response_time := ((now - start_time) * 1000)%Q in
          Ret (mkTestResult "GET /api/products/{id}" status response_time (status =? 200))))
    (fun e =>
       now <- time_time ;;
       let response_time := ((now - start_time) * 1000)%Q in
       Ret (mkTestResult "GET /api/products/{id}" 0 response_time false)).

(** [LoadTestRunner.create_product] *)
Definition create_product (session : ClientSession) (tenant : string) : Task TestResult :=
  start_time <- time_time ;;
  n <- random_randint 1 100000 ;;
  price <- random_randint 10000 100000 ;;
  stock <- random_randint 10 100 ;;
  t <- time_time ;;
  k <- random_randint 1 1000 ;;
  let product_data :=
    mkProductData ("Load Test Product " ++ str n)
                  "Product generated during load testing"
                  price stock "Electronics"
                  ("SKU-" ++ str (int (t * 1000)) ++ "-" ++ str k) in
  let headers := [("Content-Type", "application/json");
                  ("Accept", "application/json");
                  ("X-Tenant-Slug", tenant)]%string in
  try_except
    (async_with_request session
       (mkRequest "POST" (base_url ++ "/api/products") headers (Some product_data))
       (fun status =>
          now <- time_time ;;
          let response_time := ((now - start_time) * 1000)%Q in
          Ret (mkTestResult "POST /api/products" status response_time (status =? 201))))
    (fun e =>
       now <- time_time ;;
       let response_time := ((now - start_time) * 1000)%Q in
       Ret (mkTestResult "POST /api/products" 0 response_time false)).

(** The closure [bounded_request] of [run_scenario]. *)
Definition bounded_request : Task unit :=
  async_with_semaphore
    (tenant <- random_choice tenants ;;
     operation <- random_random ;;
     result <-
       (if Qlt_le_dec operation (5 # 10) then
          session <- trigger GetSession ;;
          get_all_products session tenant
        else if Qlt_le_dec operation (8 # 10) then
          product_id <- random_randint 1 1000 ;;
          session <- trigger GetSession ;;
          get_product_by_id session tenant (str product_id)
        else
          session <- trigger GetSession ;;
          create_product session tenant) ;;
     trigger (ResultsAppend result)).

End LoadTestRunner.

(** ** State of the event loop *)

(** The [LoadTestRunner] instance.  [_session] is [None] while the attribute
    has not been set ([hasattr(self, '_session')] is false). *)
Record Runner : Type := mkRunner {
  base_url : string;
  tenants : list string;
  results : list TestResult;
  _session : option ClientSession
}.

(** [LoadTestRunner.__init__] with the default [base_url]. *)
Definition LoadTestRunner : Runner :=
  mkRunner "http://localhost:5000" ["company-a"; "company-b"; "company-c"]%string [] None.

(** The runner, the [closed] flag of every [ClientSession] created so far
    (indexed by [session_id]) and the value of the scenario's semaphore. *)
Record World : Type := mkWorld {
  self : Runner;
  heap : list bool;
  sem_value : Z
}.

Definition set_results (rs : list TestResult) (w : World) : World :=
  mkWorld (mkRunner (base_url (self w)) (tenants (self w)) rs (_session (self w)))
          (heap w) (sem_value w).

Definition set_sem (v : Z) (w : World) : World :=
  mkWorld (self w) (heap w) v.

(** [session.closed] *)
Definition closed (w : World) (s : ClientSession) : bool :=
  nth (session_id s) (heap w) true.

(** [LoadTestRunner._get_session]: the coroutine has no suspension point, so
    it runs atomically; the second component tells whether a session was
    created. *)
Definition _get_session (w : World) : ClientSession * bool * World :=
  let create :=
    let s := mkSession (List.length (heap w)) 30 in
    (s, true,
     mkWorld (mkRunner (base_url (self w)) (tenants (self w)) (results (self w)) (Some s))
             (heap w ++ [false]) (sem_value w)) in
  match _session (self w) with
  | None => create
  | Some s => if closed w s then create else (s, false, w)
  end.

(** What the environment answers to an effect: the clock, the random
    generator and the network. *)
Record Answer : Type := mkAnswer {
  ans_time : Q;
  ans_random : Q;
  ans_int : Z;
  ans_choice : nat;
  ans_reply : PyExc + Z;
  ans_release : option PyExc
}.

(** The effects as they are observed. *)
Inductive Action : Type :=
| AcTime (t : Q)
| AcRandom (u : Q)
| AcRandint (a b x : Z)
| AcChoice (x : string)
| AcAcquire
| AcRelease
| AcGetSession (s : ClientSession) (created : bool)
| AcSend (s : ClientSession) (r : Request)
| AcReply (r : PyExc + Z)
| AcResponseRelease (r : option PyExc)
| AcAppend (r : TestResult).

(** One effect of a coroutine.  [None]: the effect cannot happen now (the
    semaphore has no free slot) or the answer is not one the environment can
    give ([random()] outside [[0,1)], [randint] outside its bounds, [choice]
    outside the list; [self.tenants] is never empty). *)
Definition handle {X} (ev : TaskE X) (a : Answer) (w : World) : option (X * Action * World) :=
  match ev in TaskE X return option (X * Action * World) with
  | TimeTime => Some (ans_time a, AcTime (ans_time a), w)
  | RandomRandom =>
      let u := ans_random a in
      if Qle_bool 0 u && negb (Qle_bool 1 u) then Some (u, AcRandom u, w) else None
  | RandomRandint lo hi =>
      let x := ans_int a in
      if (lo <=? x) && (x <=? hi) then Some (x, AcRandint lo hi x, w) else None
  | RandomChoice xs =>
      match nth_error xs (ans_choice a) with
      | Some x => Some (x, AcChoice x, w)
      | None => None
      end
  | SemAcquire =>
      if 0 <? sem_value w then Some (tt, AcAcquire, set_sem (sem_value w - 1) w) else None
  | SemRelease => Some (tt, AcRelease, set_sem (sem_value w + 1) w)
  | GetSession =>
      let '(s, created, w') := _get_session w in Some (s, AcGetSession s created, w')
  | HttpSend s r => Some (tt, AcSend s r, w)
  | HttpAwait => Some (ans_reply a, AcReply (ans_reply a), w)
  | HttpRelease => Some (ans_release a, AcResponseRelease (ans_release a), w)
  | ResultsAppend r => Some (tt, AcAppend r, set_results (results (self w) ++ [r]) w)
  end.

(** *** One coroutine run on its own *)

(** Runs a coroutine to its end, one answer per effect; the actions are
    accumulated newest first and the unused answers are returned. *)
Fixpoint run_task {A} (p : Task A) (answers : list Answer) (w : World) (tr : list Action)
  : option (Result A * World * list Action * list Answer) :=
  match p with
  | Ret a => Some (Ok a, w, tr, answers)
  | Raise e => Some (Raised e, w, tr, answers)
  | Vis ev k =>
      match answers with
      | [] => None
      | a :: answers' =>
          match handle ev a w with
          | Some (x, ac, w') => run_task (k x) answers' w' (ac :: tr)
          | None => None
          end
      end
  end.

(** *** The tasks of one [asyncio.gather] *)

Fixpoint update {A} (i : nat) (x : A) (l : list A) : list A :=
  match l, i with
  | [], _ => []
  | _ :: l', O => x :: l'
  | y :: l', S i' => y :: update i' x l'
  end.

(** The coroutines given to [gather], the shared state, and what happened so
    far: [(i, ac)] says that task [i] did [ac]; newest first. *)
Record Pool : Type := mkPool {
  tasks : list (Task unit);
  world : World;
  trace : list (nat * Action)
}.

(** Task [i] performs its next effect. *)
Definition step (i : nat) (a : Answer) (p : Pool) : option Pool :=
  match nth_error (tasks p) i with
  | Some (Vis ev k) =>
      match handle ev a (world p) with
      | Some (x, ac, w') => Some (mkPool (update i (k x) (tasks p)) w' ((i, ac) :: trace p))
      | None => None
      end
  | _ => None
  end.

(** A schedule: which task moves and what the environment answers. *)
Definition Schedule := list (nat * Answer).

Fixpoint steps (sched : Schedule) (p : Pool) : option Pool :=
  match sched with
  | [] => Some p
  | (i, a) :: sched' =>
      match step i a p with
      | Some p' => steps sched' p'
      | None => None
      end
  end.

Definition finished (t : Task unit) : bool :=
  match t with Ret _ => true | _ => false end.

Definition crashed (t : Task unit) : option PyExc :=
  match t with Raise e => Some e | _ => None end.

(** ** The statistics reporter *)

(** The numbers that [_print_results] prints, before formatting. *)
Record Report : Type := mkReport {
  rp_total_requests : Z;
  rp_successful : Z;
  rp_failed : Z;
  rp_success_rate : Q;
  rp_total_time : Q;
  rp_req_per_sec : Q;
  rp_avg_response : Q;
  rp_p50_response : Q;
  rp_p95_response : Q;
  rp_min_response : Q;
  rp_max_response : Q;
  rp_endpoints : list (string * Z * Z * Q)
}.

(** True division [a / b]. *)
Definition py_div (a b : Q) : Result Q :=
  if Qeq_bool b 0 then Raised ZeroDivisionError else Ok (a / b)%Q.

Fixpoint insert_str (x : string) (l : list string) : list string :=
  match l with
  | [] => [x]
  | y :: l' => if String.leb x y then x :: l else y :: insert_str x l'
  end.

(** [sorted(set(xs))] on strings *)
Definition sorted_set (xs : list string) : list string :=
  fold_right insert_str [] (nodup string_dec xs).

Local Open Scope result_scope.

(** Lines 205-210: the latency statistics of the successful outcomes. *)
Definition avg_response (response_times : list Q) : Result Q :=
  match response_times with [] => Ok 0%Q | _ => Stats.mean response_times end.

Definition p50_response (response_times : list Q) : Result Q :=
  if 2 <=? Stats.len response_times
  then qs <- Stats.quantiles response_times 2 ;;; Stats.subscript qs 0
  else Ok 0%Q.

Definition p95_response (response_times : list Q) : Result Q :=
  if 20 <=? Stats.len response_times
  then qs <- Stats.quantiles response_times 20 ;;; Stats.subscript qs 18
  else Ok 0%Q.

Definition min_response (response_times : list Q) : Result Q :=
  match response_times with [] => Ok 0%Q | _ => Stats.Qmin_list response_times end.

Definition max_response (response_times : list Q) : Result Q :=
  match response_times with [] => Ok 0%Q | _ => Stats.Qmax_list response_times end.

Definition latency_statistics (response_times : list Q) : Result (Q * Q * Q * Q * Q) :=
  avg <- avg_response response_times ;;;
  p50 <- p50_response response_times ;;;
  p95 <- p95_response response_times ;;;
  mn <- min_response response_times ;;;
  mx <- max_response response_times ;;;
  Ok (avg, p50, p95, mn, mx).

Fixpoint endpoint_lines (all : list TestResult) (endpoints : list string)
  : Result (list (string * Z * Z * Q)) :=
  match endpoints with
  | [] => Ok []
  | ep :: rest =>
      let endpoint_results := filter (fun r => String.eqb (endpoint r) ep) all in
      let endpoint_success := filter success endpoint_results in
      q <- py_div (inject_Z (Stats.len endpoint_success))
                  (inject_Z (Stats.len endpoint_results)) ;;;
      let endpoint_rate := (q * 100)%Q in
      lines <- endpoint_lines all rest ;;;
      Ok ((ep, Stats.len endpoint_success, Stats.len endpoint_results, endpoint_rate) :: lines)
  end.

(** [LoadTestRunner._print_results], as a function of [self.results]. *)
Definition _print_results (self_results : list TestResult) (scenario_name : string)
    (num_requests : Z) (total_time : Q) : Result Report :=
  let successful_results := filter success self_results in
  let failed_results := filter (fun r => negb (success r)) self_results in
  q <- py_div (inject_Z (Stats.len successful_results)) (inject_Z num_requests) ;;;
  let success_rate := (q * 100)%Q in
  req_per_sec <- py_div (inject_Z num_requests) total_time ;;;
  let response_times := map response_time_ms successful_results in
  stats <- latency_statistics response_times ;;;
  let '(avg, p50, p95, mn, mx) := stats in
  let endpoints := sorted_set (map endpoint self_results) in
  lines <- endpoint_lines self_results endpoints ;;;
  Ok (mkReport num_requests (Stats.len successful_results) (Stats.len failed_results)
               success_rate total_time req_per_sec
               avg p50 p95 mn mx lines).

Local Close Scope result_scope.

(** The response times that the latency statistics are computed from. *)
Definition successful_times (rs : list TestResult) : list Q :=
  map response_time_ms (filter success rs).

(** The median in the words of the specification: the sorted successful
    response times are split in two groups and the lower of the two middle
    values is taken when their number is even; 0 below two samples. *)
Definition spec_median_low (response_times : list Q) : Q :=
  if Stats.len response_times <? 2 then 0%Q
  else Stats.item (Stats.sorted response_times) ((Stats.len response_times - 1) / 2).

(** ** The scenario runner and the sequencer *)

(** What is written to the console. *)
Inductive Output : Type :=
| OutBanner (started_at : string)
| OutScenarioHeader (scenario_name : string) (num_requests concurrency : Z)
| OutResults (scenario_name : string) (r : Report)
| OutAllCompleted (finished_at : string).

(** Effects of [run_scenario], [close_session] and [main]. *)
Inductive DriverE : Type -> Type :=
| DPrint (o : Output) : DriverE unit
| DTime : DriverE Q                                   (* time.time() *)
| DNow : DriverE string                               (* datetime.now().strftime(...) *)
| DNewRunner : DriverE unit                           (* runner = LoadTestRunner() *)
| DSelf : DriverE Runner                              (* reads of self.* *)
| DResultsClear : DriverE unit                        (* self.results.clear() *)
| DSemaphore (value : Z) : DriverE unit               (* asyncio.Semaphore(value), value >= 0 *)
| DGather (ts : list (Task unit)) : DriverE (option PyExc)
                                                      (* await asyncio.gather(ts) *)
| DSessionClose (s : ClientSession) : DriverE unit.   (* await s.close() *)

Definition Driver := Prog DriverE.

(** [asyncio.Semaphore(value)] *)
Definition asyncio_Semaphore (value : Z) : Driver unit :=
  if value <? 0 then Raise ValueError else trigger (DSemaphore value).

(** [await asyncio.gather( *tasks )]: the first exception raised by a task is
    propagated to the awaiter. *)
Definition asyncio_gather (ts : list (Task unit)) : Driver unit :=
  r <- trigger (DGather ts) ;;
  match r with
  | Some e => Raise e
  | None => Ret tt
  end.

Definition lift_result {A} (r : Result A) : Driver A :=
  match r with
  | Ok a => Ret a
  | Raised e => Raise e
  end.

(** [range(n)] *)
Definition range (n : Z) : list nat := seq 0 (Z.to_nat n).

(** [tasks] of [run_scenario]: one [bounded_request()] per element of
    [range(num_requests)]. *)
Definition scenario_tasks (me : Runner) (num_requests : Z) : list (Task unit) :=
  map (fun _ => bounded_request (base_url me) (tenants me)) (range num_requests).

(** [LoadTestRunner.run_scenario] *)
Definition run_scenario (scenario_name : string) (num_requests concurrency : Z)
  : Driver unit :=
  trigger (DPrint (OutScenarioHeader scenario_name num_requests concurrency)) ;;
  trigger DResultsClear ;;
  start_time <- trigger DTime ;;
  asyncio_Semaphore concurrency ;;
  me <- trigger DSelf ;;
  let tasks := scenario_tasks me num_requests in
  asyncio_gather tasks ;;
  now <- trigger DTime ;;
  let total_time := (now - start_time)%Q in
  me <- trigger DSelf ;;
  report <- lift_result (_print_results (results me) scenario_name num_requests total_time) ;;
  trigger (DPrint (OutResults scenario_name report)).

(** [LoadTestRunner.close_session] *)
Definition close_session : Driver unit :=
  me <- trigger DSelf ;;
  match _session me with
  | Some s => trigger (DSessionClose s)
  | None => Ret tt
  end.

(** The scenarios of [main], in order. *)
Definition scenarios : list (string * Z * Z) :=
  [("Low Concurrency Test", 100, 10);
   ("Medium Concurrency Test", 500, 50);
   ("High Concurrency Test", 1000, 100);
   ("Stress Test", 2000, 200)]%string.

(** [main] *)
Definition main : Driver unit :=
  started <- trigger DNow ;;
  trigger (DPrint (OutBanner started)) ;;
  trigger DNewRunner ;;
  try_finally
    (run_scenario "Low Concurrency Test" 100 10 ;;
     run_scenario "Medium Concurrency Test" 500 50 ;;
     run_scenario "High Concurrency Test" 1000 100 ;;
     run_scenario "Stress Test" 2000 200 ;;
     finished_at <- trigger DNow ;;
     trigger (DPrint (OutAllCompleted finished_at)))
    close_session.

(** *** Running the driver *)

Inductive DAction : Type :=
| DaPrint (o : Output)
| DaTime (t : Q)
| DaNow (s : string)
| DaNewRunner
| DaSelf
| DaResultsClear
| DaSemaphore (value : Z)
| DaGather (tr : list (nat * Action)) (outcome : option PyExc)
| DaSessionClose (s : ClientSession).

(** What the environment decides for one effect of the driver: the clock,
    the date, and for a [gather] the schedule of its tasks. *)
Record DAnswer : Type := mkDAnswer {
  da_time : Q;
  da_now : string;
  da_sched : Schedule
}.

(** [gather]: the tasks run as scheduled until all have returned, or until
    one raises; the awaiter is then resumed with that exception (the tasks
    that are still pending are not followed further). *)
Fixpoint gather_run (sched : Schedule) (p : Pool) : option (option PyExc * Pool) :=
  match sched with
  | [] => if forallb finished (tasks p) then Some (None, p) else None
  | (i, a) :: sched' =>
      match step i a p with
      | None => None
      | Some p' =>
          match nth_error (tasks p') i with
          | Some (Raise e) =>
              match sched' with
              | [] => Some (Some e, p')
              | _ => None
              end
          | _ => gather_run sched' p'
          end
      end
  end.

(** [s.close()] sets the [closed] flag of the session object. *)
Definition close_in_heap (s : ClientSession) (w : World) : World :=
  mkWorld (self w) (update (session_id s) true (heap w)) (sem_value w).

Definition dhandle {X} (ev : DriverE X) (a : DAnswer) (w : World)
  : option (X * DAction * World) :=
  match ev in DriverE X return option (X * DAction * World) with
  | DPrint o => Some (tt, DaPrint o, w)
  | DTime => Some (da_time a, DaTime (da_time a), w)
  | DNow => Some (da_now a, DaNow (da_now a), w)
  | DNewRunner => Some (tt, DaNewRunner, mkWorld LoadTestRunner (heap w) (sem_value w))
  | DSelf => Some (self w, DaSelf, w)
  | DResultsClear => Some (tt, DaResultsClear, set_results [] w)
  | DSemaphore v => Some (tt, DaSemaphore v, set_sem v w)
  | DGather ts =>
      match gather_run (da_sched a) (mkPool ts w []) with
      | Some (outcome, p) => Some (outcome, DaGather (trace p) outcome, world p)
      | None => None
      end
  | DSessionClose s => Some (tt, DaSessionClose s, close_in_heap s w)
  end.

(** Runs a driver coroutine; actions newest first, unused answers returned. *)
Fixpoint drun {A} (p : Driver A) (oracle : list DAnswer) (w : World) (tr : list DAction)
  : option (Result A * World * list DAction * list DAnswer) :=
  match p with
  | Ret a => Some (Ok a, w, tr, oracle)
  | Raise e => Some (Raised e, w, tr, oracle)
  | Vis ev k =>
      match oracle with
      | [] => None
      | a :: oracle' =>
          match dhandle ev a w with
          | Some (x, ac, w') => drun (k x) oracle' w' (ac :: tr)
          | None => None
          end
      end
  end.

(** ** Vocabulary of the statements *)

(** The three endpoint operations and the call that [bounded_request] makes
    for each. *)
Inductive Operation : Type :=
| OpList
| OpGetByID (product_id : string)
| OpCreate.

Definition invoke (base : string) (op : Operation) (session : ClientSession)
    (tenant : string) : Task TestResult :=
  match op with
  | OpList => get_all_products base session tenant
  | OpGetByID product_id => get_product_by_id base session tenant product_id
  | OpCreate => create_product base session tenant
  end.

(** The status code that counts as success: 200 for the reads, 201 for the
    creation. *)
Definition expected_status (op : Operation) : Z :=
  match op with
  | OpList | OpGetByID _ => 200
  | OpCreate => 201
  end.

Definition endpoint_label (op : Operation) : string :=
  match op with
  | OpList => "GET /api/products"
  | OpGetByID _ => "GET /api/products/{id}"
  | OpCreate => "POST /api/products"
  end.

(** How an effect, its answer and the observed action are related. *)
Definition observes {X} (ev : TaskE X) : X -> Action -> Prop :=
  match ev in TaskE X return X -> Action -> Prop with
  | TimeTime => fun x ac => ac = AcTime x
  | RandomRandom => fun x ac => ac = AcRandom x /\ (0 <= x)%Q /\ (x < 1)%Q
  | RandomRandint a b => fun x ac => ac = AcRandint a b x /\ a <= x <= b
  | RandomChoice xs => fun x ac => ac = AcChoice x /\ In x xs
  | SemAcquire => fun _ ac => ac = AcAcquire
  | SemRelease => fun _ ac => ac = AcRelease
  | GetSession => fun s ac => exists created, ac = AcGetSession s created
  | HttpSend s r => fun _ ac => ac = AcSend s r
  | HttpAwait => fun x ac => ac = AcReply x
  | HttpRelease => fun x ac => ac = AcResponseRelease x
  | ResultsAppend r => fun _ ac => ac = AcAppend r
  end.

(** [along I F p tr]: from the history [tr] (newest first), whatever the
    environment answers, [I] holds of the history at every point of [p] and
    [F] holds of the final history and result. *)
Fixpoint along {A} (I : list Action -> Prop) (F : list Action -> Result A -> Prop)
    (p : Task A) (tr : list Action) : Prop :=
  I tr /\
  match p with
  | Ret a => F tr (Ok a)
  | Raise e => F tr (Raised e)
  | Vis ev k => forall x ac, observes ev x ac -> along I F (k x) (ac :: tr)
  end.

(** The exception that the client call raised, if any: on sending or
    awaiting the response, or on releasing it. *)
Definition client_failure (ac : Action) : option PyExc :=
  match ac with
  | AcReply (inl e) => Some e
  | AcResponseRelease (Some e) => Some e
  | _ => None
  end.

(** The first clock reading of a history. *)
Fixpoint first_reading (tr : list Action) : option Q :=
  match tr with
  | [] => None
  | ac :: tr' =>
      match first_reading tr' with
      | Some t => Some t
      | None => match ac with AcTime t => Some t | _ => None end
      end
  end.

(** The cumulative-weight bands of the operation draw. *)
Inductive Band : Type := BandList | BandGetByID | BandCreate.

Definition in_band (u : Q) (b : Band) : Prop :=
  match b with
  | BandList => (0 <= u /\ u < 1 # 2)%Q
  | BandGetByID => (1 # 2 <= u /\ u < 4 # 5)%Q
  | BandCreate => (4 # 5 <= u /\ u < 1)%Q
  end.

Definition band_label (b : Band) : string :=
  match b with
  | BandList => "GET /api/products"
  | BandGetByID => "GET /api/products/{id}"
  | BandCreate => "POST /api/products"
  end.

(** The request of each operation, as section 6 of the specification lists
    them. *)
Definition request_in_band (base : string) (r : Request) (b : Band) : Prop :=
  match b with
  | BandList =>
      rq_method r = "GET"%string /\ rq_url r = (base ++ "/api/products")%string /\
      rq_json r = None
  | BandGetByID =>
      rq_method r = "GET"%string /\ rq_json r = None /\
      exists n, 1 <= n <= 1000 /\
                rq_url r = (base ++ "/api/products/" ++ str n)%string
  | BandCreate =>
      rq_method r = "POST"%string /\ rq_url r = (base ++ "/api/products")%string /\
      rq_json r <> None
  end.

(** The [random.random()] draws, the requests sent and the outcomes appended
    in a history, newest first. *)
Fixpoint draws (tr : list Action) : list Q :=
  match tr with
  | [] => []
  | AcRandom u :: tr' => u :: draws tr'
  | _ :: tr' => draws tr'
  end.

Fixpoint sends (tr : list Action) : list Request :=
  match tr with
  | [] => []
  | AcSend _ r :: tr' => r :: sends tr'
  | _ :: tr' => sends tr'
  end.

Fixpoint appended (tr : list Action) : list TestResult :=
  match tr with
  | [] => []
  | AcAppend r :: tr' => r :: appended tr'
  | _ :: tr' => appended tr'
  end.

(** *** Counting in histories *)

(** Sum of the weights of the actions of a history. *)
Definition tally (f : Action -> Z) (tr : list Action) : Z :=
  fold_right (fun ac s => f ac + s) 0 tr.

(** A slot is taken by [AcAcquire] and given back by [AcRelease]. *)
Definition slot_weight (ac : Action) : Z :=
  match ac with
  | AcAcquire => 1
  | AcRelease => -1
  | _ => 0
  end.

(** A request is in flight from [AcSend] to [AcReply]. *)
Definition flight_weight (ac : Action) : Z :=
  match ac with
  | AcSend _ _ => 1
  | AcReply _ => -1
  | _ => 0
  end.

Definition append_weight (ac : Action) : Z :=
  match ac with
  | AcAppend _ => 1
  | _ => 0
  end.

(** The actions of a pool, and those of its task [i]. *)
Definition actions (trace : list (nat * Action)) : list Action := map snd trace.

Definition local (i : nat) (trace : list (nat * Action)) : list Action :=
  map snd (filter (fun e => Nat.eqb (fst e) i) trace).

(** Capacity slots taken and not yet given back. *)
Definition slots_held (trace : list (nat * Action)) : Z :=
  tally slot_weight (actions trace).

(** Requests dispatched and not yet completed. *)
Definition in_flight (trace : list (nat * Action)) : Z :=
  tally flight_weight (actions trace).

(** Outcomes appended by task [i]. *)
Definition appends_by (i : nat) (trace : list (nat * Action)) : Z :=
  tally append_weight (local i trace).

(** The pool that [run_scenario] hands to [gather]: its tasks, and a world
    whose semaphore has just been created with [concurrency] slots. *)
Definition scenario_pool (w : World) (num_requests concurrency : Z) : Pool :=
  mkPool (scenario_tasks (self w) num_requests) (set_sem concurrency w) [].

(** *** The protocol of one unit of work *)

(** In a history (newest first): every append is made while the slot is
    held, after its acquisition and before any release. *)
Fixpoint appends_hold_slot (tr : list Action) : Prop :=
  match tr with
  | [] => True
  | AcAppend _ :: tr' => In AcAcquire tr' /\ ~ In AcRelease tr' /\ appends_hold_slot tr'
  | _ :: tr' => appends_hold_slot tr'
  end.

(** In a history (newest first): every append is followed by a release;
    [released] tells whether a release is already known to follow. *)
Fixpoint release_follows_append (released : bool) (tr : list Action) : Prop :=
  match tr with
  | [] => True
  | AcRelease :: tr' => release_follows_append true tr'
  | AcAppend _ :: tr' => released = true /\ release_follows_append released tr'
  | _ :: tr' => release_follows_append released tr'
  end.

(** What holds of the history of a unit of work at every point. *)
Definition unit_invariant (tr : list Action) : Prop :=
  0 <= tally flight_weight tr /\
  tally flight_weight tr <= tally slot_weight tr /\
  tally slot_weight tr <= 1 /\
  0 <= tally append_weight tr <= 1 /\
  appends_hold_slot tr.

(** What holds of it when the unit has returned or raised. *)
Definition unit_final (tr : list Action) (r : Result unit) : Prop :=
  tally slot_weight tr = 0 /\
  tally flight_weight tr = 0 /\
  release_follows_append false tr /\
  (exists s created, In (AcGetSession s created) tr) /\
  (r = Ok tt -> tally append_weight tr = 1).

(** *** Invariants of the pool of one scenario *)

Definition sum_over (l : list nat) (g : nat -> Z) : Z :=
  fold_right (fun i s => g i + s) 0 l.

(** Every task of the pool follows the protocol of a unit of work on its own
    part of the trace. *)
Definition pool_inv (n : nat) (p : Pool) : Prop :=
  List.length (tasks p) = n /\
  (forall i ac, In (i, ac) (trace p) -> (i < n)%nat) /\
  (forall i t, nth_error (tasks p) i = Some t ->
               along unit_invariant unit_final t (local i (trace p))).

(** The semaphore counts the free slots, and the outcome collection holds
    what was appended, oldest first, after [rs0]. *)
Definition world_inv (c : Z) (rs0 : list TestResult) (p : Pool) : Prop :=
  sem_value (world p) + slots_held (trace p) = c /\
  0 <= sem_value (world p) /\
  results (self (world p)) = (rs0 ++ rev (appended (actions (trace p))))%list.

(** *** What a run of [run_scenario] is *)

(** The four ways in which [run_scenario] ends, with the final world and
    the trace of the driver (newest first): the semaphore cannot be created;
    a task raises and [gather] propagates it; the reporter raises; the
    scenario returns after printing its report. *)
Inductive scenario_outcome (name : string) (n c : Z) (w : World) (tr : list DAction)
  : Result unit -> World -> list DAction -> Prop :=
| so_bad_semaphore t0 :
    c < 0 ->
    scenario_outcome name n c w tr (Raised ValueError) (set_results [] w)
      (DaTime t0 :: DaResultsClear :: DaPrint (OutScenarioHeader name n c) :: tr)
| so_task_raised t0 sched p e :
    0 <= c ->
    gather_run sched (scenario_pool (set_results [] w) n c) = Some (Some e, p) ->
    scenario_outcome name n c w tr (Raised e) (world p)
      (DaGather (trace p) (Some e) :: DaSelf :: DaSemaphore c :: DaTime t0
       :: DaResultsClear :: DaPrint (OutScenarioHeader name n c) :: tr)
| so_report_raised t0 t1 sched p e :
    0 <= c ->
    gather_run sched (scenario_pool (set_results [] w) n c) = Some (None, p) ->
    _print_results (results (self (world p))) name n (t1 - t0) = Raised e ->
    scenario_outcome name n c w tr (Raised e) (world p)
      (DaSelf :: DaTime t1 :: DaGather (trace p) None :: DaSelf :: DaSemaphore c
       :: DaTime t0 :: DaResultsClear :: DaPrint (OutScenarioHeader name n c) :: tr)
| so_returned t0 t1 sched p report :
    0 <= c ->
    gather_run sched (scenario_pool (set_results [] w) n c) = Some (None, p) ->
    _print_results (results (self (world p))) name n (t1 - t0) = Ok report ->
    scenario_outcome name n c w tr (Ok tt) (world p)
      (DaPrint (OutResults name report) :: DaSelf :: DaTime t1
       :: DaGather (trace p) None :: DaSelf :: DaSemaphore c
       :: DaTime t0 :: DaResultsClear :: DaPrint (OutScenarioHeader name n c) :: tr).

(** *** The shared session and the sequence of scenarios *)

(** [self._session] is [s] and [s] is not closed. *)
Definition session_open (w : World) (s : ClientSession) : Prop :=
  _session (self w) = Some s /\ closed w s = false.

(** The sessions created in a history of tasks, newest first. *)
Fixpoint creations (tr : list Action) : list ClientSession :=
  match tr with
  | [] => []
  | AcGetSession s true :: tr' => s :: creations tr'
  | _ :: tr' => creations tr'
  end.

(** The sessions created and the sessions closed in a trace of the driver,
    newest first. *)
Fixpoint dcreations (tr : list DAction) : list ClientSession :=
  match tr with
  | [] => []
  | DaGather gtr _ :: tr' => (creations (actions gtr) ++ dcreations tr')%list
  | _ :: tr' => dcreations tr'
  end.

Fixpoint dcloses (tr : list DAction) : list ClientSession :=
  match tr with
  | [] => []
  | DaSessionClose s :: tr' => s :: dcloses tr'
  | _ :: tr' => dcloses tr'
  end.

(** The session that [_get_session] creates when the heap is [h]. *)
Definition new_session (h : list bool) : ClientSession := mkSession (List.length h) 30.

(** The states of the shared session in a run that started on the heap [h0]
    without a session: none created yet, or one created and open. *)
Definition session_fresh (h0 : list bool) (tr : list DAction) (w : World) : Prop :=
  dcreations tr = [] /\ _session (self w) = None /\ heap w = h0.

Definition session_in_use (h0 : list bool) (tr : list DAction) (w : World) : Prop :=
  dcreations tr = [new_session h0] /\ session_open w (new_session h0) /\
  heap w = (h0 ++ [false])%list.

(** The same states within the pool of one scenario. *)
Definition pool_session_fresh (h0 : list bool) (p : Pool) : Prop :=
  (forall s c, ~ In (AcGetSession s c) (actions (trace p))) /\
  _session (self (world p)) = None /\ heap (world p) = h0.

Definition pool_session_kept (cs : list ClientSession) (h : list bool)
    (s : ClientSession) (p : Pool) : Prop :=
  creations (actions (trace p)) = cs /\
  session_open (world p) s /\ heap (world p) = h.

Definition pool_session_created (h0 : list bool) (p : Pool) : Prop :=
  pool_session_kept [new_session h0] (h0 ++ [false]) (new_session h0) p.

(** The phases of the scenarios that a trace of the driver shows. *)
Inductive Marker : Type :=
| Started (scenario_name : string) (num_requests concurrency : Z)
| Gathered
| Reported (scenario_name : string).

Fixpoint scenario_log (tr : list DAction) : list Marker :=
  match tr with
  | [] => []
  | DaPrint (OutScenarioHeader name n c) :: tr' => Started name n c :: scenario_log tr'
  | DaGather _ _ :: tr' => Gathered :: scenario_log tr'
  | DaPrint (OutResults name _) :: tr' => Reported name :: scenario_log tr'
  | _ :: tr' => scenario_log tr'
  end.

(** The phases of a list of scenarios run one after the other, oldest
    first. *)
Definition expected_log (l : list (string * Z * Z)) : list Marker :=
  flat_map (fun '(name, n, c) => [Started name n c; Gathered; Reported name]) l.

(** The scenarios of a list, one after the other, then [k]. *)
Definition run_all (l : list (string * Z * Z)) (k : Driver unit) : Driver unit :=
  fold_right (fun '(name, n, c) rest => run_scenario name n c ;; rest) k l.

(** ** Sample inputs *)

Definition ok_outcome (ms : Z) : TestResult :=
  mkTestResult "GET /api/products" 200 (inject_Z ms) true.

Definition failed_outcome (ms : Z) : TestResult :=
  mkTestResult "GET /api/products" 0 (inject_Z ms) false.

Definition two_outcomes : list TestResult := [ok_outcome 20; ok_outcome 10].

Definition twenty_outcomes : list TestResult :=
  map (fun n => ok_outcome (Z.of_nat n)) (rev (seq 1 20)).

Definition world0 : World := mkWorld LoadTestRunner [] 1.

Definition session0 : ClientSession := mkSession 0 30.

(** An answer of the environment: the clock shows [t], [random()] gives
    [u], [randint] gives [n], the server answers [reply]. *)
Definition answer (t u : Q) (n : Z) (reply : PyExc + Z) : Answer :=
  mkAnswer t u n 0 reply None.

(** Answers for one [create_product] call that the server accepts. *)
Definition create_answers : list Answer :=
  [answer 1 0 0 (inr 201); answer 1 0 7 (inr 201); answer 1 0 25000 (inr 201);
   answer 1 0 10 (inr 201); answer 1 0 0 (inr 201); answer 1 0 3 (inr 201);
   answer 1 0 0 (inr 201); answer 1 0 0 (inr 201); answer (3 # 2) 0 0 (inr 201);
   answer (3 # 2) 0 0 (inr 201)].

(** Answers for one [get_all_products] call whose connection is refused. *)
Definition refused_answers : list Answer :=
  [answer 1 0 0 (inl ClientConnectorError); answer 1 0 0 (inl ClientConnectorError);
   answer (5 # 4) 0 0 (inl ClientConnectorError);
   answer (3 # 2) 0 0 (inl ClientConnectorError)].

(** Answers for one [bounded_request] that draws 0.65 and gets product 42. *)
Definition get_by_id_answers : list Answer :=
  [answer 1 0 0 (inr 200); answer 1 0 0 (inr 200); answer 1 (65 # 100) 0 (inr 200);
   answer 1 0 42 (inr 200); answer 1 0 0 (inr 200); answer 1 0 0 (inr 200);
   answer 1 0 0 (inr 200); answer 1 0 0 (inr 200); answer (3 # 2) 0 0 (inr 200);
   answer (3 # 2) 0 0 (inr 200); answer (3 # 2) 0 0 (inr 200);
   answer (3 # 2) 0 0 (inr 200)].

(** The answers to one unit of work that makes a List request which the
    server accepts: acquire, choice, draw, session, clock, send, reply,
    clock, release of the response, append, release of the slot. *)
Definition list_answers : list Answer :=
  [answer 1 0 0 (inr 200); answer 1 0 0 (inr 200);
   answer 1 (1 # 4) 0 (inr 200); answer 1 0 0 (inr 200);
   answer 1 0 0 (inr 200); answer 1 0 0 (inr 200);
   answer 1 0 0 (inr 200); answer (3 # 2) 0 0 (inr 200);
   answer (3 # 2) 0 0 (inr 200); answer (3 # 2) 0 0 (inr 200);
   answer (3 # 2) 0 0 (inr 200)].

(** The schedule in which task [i] alone runs such a unit of work from its
    start to its end. *)
Definition list_schedule (i : nat) : Schedule := map (pair i) list_answers.

(** The tasks [0 .. n-1], one after the other. *)
Definition sequential_schedule (n : nat) : Schedule :=
  flat_map list_schedule (seq 0 n).

(** Two tasks, two slots: both requests are sent before either reply. *)
Definition overlapping_schedule : Schedule :=
  (firstn 6 (list_schedule 0) ++ firstn 6 (list_schedule 1))%list.

Definition danswer (t : Q) (sched : Schedule) : DAnswer := mkDAnswer t "2024-01-01 00:00:00" sched.

(** The answers to one scenario of [n] requests that run one after the
    other: the clock shows 0 at the start and 2 at the end. *)
Definition sequential_oracle (n : nat) : list DAnswer :=
  [danswer 0 []; danswer 0 []; danswer 0 []; danswer 0 []; danswer 0 [];
   danswer 0 (sequential_schedule n); danswer 2 []; danswer 2 [];
   danswer 2 []].

Definition two_request_oracle : list DAnswer := sequential_oracle 2.

(** A run of [main] whose first request is interrupted: the first task
    acquires a slot, picks the tenant and the List operation, gets the
    session, reads the clock and sends; awaiting the response raises
    [KeyboardInterrupt], which [except Exception] does not catch; the slot is
    released and [gather] propagates the exception. *)
Definition interrupted_schedule : Schedule :=
  (firstn 6 (list_schedule 0)
   ++ [(0%nat, answer 1 0 0 (inl KeyboardInterrupt));
       (0%nat, answer 1 0 0 (inl KeyboardInterrupt))])%list.

Definition interrupted_oracle : list DAnswer :=
  [danswer 0 []; danswer 0 []; danswer 0 [];
   danswer 0 []; danswer 0 []; danswer 0 []; danswer 0 []; danswer 0 [];
   danswer 0 interrupted_schedule;
   danswer 1 []; danswer 1 []].

(** ** Vocabulary of the further properties *)

(** The outcomes of [rs] with the endpoint label [ep]. *)
Definition with_endpoint (ep : string) (rs : list TestResult) : list TestResult :=
  filter (fun r => String.eqb (endpoint r) ep) rs.

(** The totals of the lines of the per-endpoint breakdown. *)
Definition line_total (line : string * Z * Z * Q) : Z := snd (fst line).
Definition line_success (line : string * Z * Z * Q) : Z := snd (fst (fst line)).
Definition line_label (line : string * Z * Z * Q) : string := fst (fst (fst line)).
Definition line_rate (line : string * Z * Z * Q) : Q := snd line.

Definition Zsum (l : list Z) : Z := fold_right Z.add 0 l.

(** The HTTP method and the path of each operation. *)
Definition op_method (op : Operation) : string :=
  match op with
  | OpList | OpGetByID _ => "GET"
  | OpCreate => "POST"
  end.

Definition op_url (base : string) (op : Operation) : string :=
  match op with
  | OpList | OpCreate => base ++ "/api/products"
  | OpGetByID product_id => base ++ "/api/products/" ++ product_id
  end.

(** The sessions on which requests were sent, newest first. *)
Fixpoint send_sessions (tr : list Action) : list ClientSession :=
  match tr with
  | [] => []
  | AcSend s _ :: tr' => s :: send_sessions tr'
  | _ :: tr' => send_sessions tr'
  end.

(** Answers for one [get_product_by_id] call that the server answers with
    404. *)
Definition not_found_answers : list Answer :=
  [answer 1 0 0 (inr 404); answer 1 0 0 (inr 404); answer 1 0 0 (inr 404);
   answer (3 # 2) 0 0 (inr 404); answer (3 # 2) 0 0 (inr 404)].

(** The status code that counts as success for an endpoint label. *)
Definition band_status (b : Band) : Z :=
  match b with
  | BandList | BandGetByID => 200
  | BandCreate => 201
  end.

(** An outcome is well formed: it carries the label of one of the three
    operations and [success] says whether [status_code] is the expected
    status of that operation. *)
Definition well_formed_outcome (r : TestResult) : Prop :=
  exists b, endpoint r = band_label b /\
            (success r = true <-> status_code r = band_status b).

(** What holds of the history of a unit of work at every point, and when it
    has ended, as far as its outcomes and exceptions go. *)
Definition unit_outcomes_ok (tr : list Action) : Prop :=
  forall res, In res (appended tr) -> well_formed_outcome res.

Definition unit_raises_client_only (tr : list Action) (r : Result unit) : Prop :=
  forall e, r = Raised e ->
            is_Exception e = false /\ exists ac, In ac tr /\ client_failure ac = Some e.

(** The reports printed in a trace of the driver, newest first. *)
Fixpoint reports (tr : list DAction) : list Report :=
  match tr with
  | [] => []
  | DaPrint (OutResults _ r) :: tr' => r :: reports tr'
  | _ :: tr' => reports tr'
  end.

(** The steps of all the tasks in a trace of the driver, newest first. *)
Fixpoint task_steps (tr : list DAction) : list (nat * Action) :=
  match tr with
  | [] => []
  | DaGather gtr _ :: tr' => (gtr ++ task_steps tr')%list
  | _ :: tr' => task_steps tr'
  end.

Definition scenario_requests (s : string * Z * Z) : Z := snd (fst s).

Definition send_weight (ac : Action) : Z :=
  match ac with
  | AcSend _ _ => 1
  | _ => 0
  end.

(** Requests sent by the tasks in a trace of a pool. *)
Definition requests_sent (trace : list (nat * Action)) : Z :=
  tally send_weight (actions trace).

(** A report counts each outcome as a success or as a failure. *)
Definition report_consistent (rp : Report) : Prop :=
  rp_successful rp + rp_failed rp = rp_total_requests rp.

(** What holds after the scenarios [d] have returned, in this order: their
    reports were printed, one each with the scenario's request count; as
    many requests were sent as they asked for; and the collection holds the
    outcomes of the last one. *)
Definition after_scenarios (d : list (string * Z * Z)) (w : World) (tr : list DAction)
  : Prop :=
  map rp_total_requests (reports tr) = rev (map scenario_requests d) /\
  Forall report_consistent (reports tr) /\
  requests_sent (task_steps tr) = Zsum (map scenario_requests d) /\
  match rev d with
  | [] => True
  | s :: _ => Stats.len (results (self w)) = scenario_requests s
  end.

(** * Verification *)

(** ** Sorting and quantiles *)

Module StatsFacts.
Import Stats.

Lemma insert_length x l : List.length (insert x l) = S (List.length l).
Proof.
  induction l as [|y l IH]; simpl; [reflexivity|].
  destruct (Qle_bool x y); simpl; [reflexivity | now rewrite IH].
Qed.

Lemma sorted_length l : List.length (sorted l) = List.length l.
Proof.
  induction l as [|x l IH]; simpl; [reflexivity|].
  now rewrite insert_length, IH.
Qed.

Lemma len_sorted l : len (sorted l) = len l.
Proof. unfold len. now rewrite sorted_length. Qed.

Lemma insert_perm x l : Permutation (x :: l) (insert x l).
Proof.
  induction l as [|y l IH]; simpl; [apply Permutation_refl|].
  destruct (Qle_bool x y); [apply Permutation_refl|].
  eapply perm_trans; [apply perm_swap | now apply perm_skip].
Qed.

Lemma sorted_perm l : Permutation l (sorted l).
Proof.
  induction l as [|x l IH]; simpl; [constructor|].
  eapply perm_trans; [apply perm_skip, IH | apply insert_perm].
Qed.

Lemma insert_hdrel a x l :
  (a <= x)%Q -> HdRel Qle a l -> HdRel Qle a (insert x l).
Proof.
  intros Hax Hl. destruct l as [|y l]; simpl; [now constructor|].
  destruct (Qle_bool x y); constructor; [assumption | now inversion Hl].
Qed.

Lemma insert_sorted x l : Sorted Qle l -> Sorted Qle (insert x l).
Proof.
  induction l as [|y l IH]; simpl; intros Hs.
  - repeat constructor.
  - destruct (Qle_bool x y) eqn:Hxy.
    + constructor; [assumption|]. constructor. now apply Qle_bool_iff.
    + inversion Hs; subst. constructor; [now apply IH|].
      apply insert_hdrel; [|assumption].
      apply Qlt_le_weak, Qnot_le_lt. intro H. apply Qle_bool_iff in H. congruence.
Qed.

(** [sorted] returns its argument in ascending order. *)
Lemma sorted_Sorted l : Sorted Qle (sorted l).
Proof.
  induction l as [|x l IH]; simpl; [constructor | now apply insert_sorted].
Qed.

Lemma quantiles_ok data n :
  1 <= n -> 2 <= len data ->
  quantiles data n =
    Ok (map (fun i => cut_point (sorted data) (len data) n (Z.of_nat i))
            (seq 1 (Z.to_nat n - 1))).
Proof.
  intros Hn Hld. unfold quantiles.
  destruct (Z.ltb_spec n 1); [lia|].
  rewrite len_sorted.
  destruct (Z.ltb_spec (len data) 2); [lia|]. reflexivity.
Qed.

(** The only cut point for [n=2]. *)
Lemma quantiles_2 data :
  2 <= len data ->
  (qs <- quantiles data 2 ;;; subscript qs 0)%result
  = Ok (cut_point (sorted data) (len data) 2 1).
Proof.
  intros H. rewrite quantiles_ok by lia. reflexivity.
Qed.

(** The 19th cut point for [n=20]. *)
Lemma quantiles_20 data :
  2 <= len data ->
  (qs <- quantiles data 20 ;;; subscript qs 18)%result
  = Ok (cut_point (sorted data) (len data) 20 19).
Proof.
  intros H. rewrite quantiles_ok by lia. reflexivity.
Qed.

Lemma cut_index_even k : 1 <= k -> cut_index (2 * k) 2 1 = k.
Proof.
  intros Hk. unfold cut_index.
  replace (1 * (2 * k + 1) / 2) with k
    by (apply Z.div_unique with (r := 1); lia).
  destruct (Z.ltb_spec k 1); [lia|].
  destruct (Z.gtb_spec k (2 * k - 1)); [lia|]. reflexivity.
Qed.

Lemma cut_index_odd k : 1 <= k -> cut_index (2 * k + 1) 2 1 = k + 1.
Proof.
  intros Hk. unfold cut_index.
  replace (1 * (2 * k + 1 + 1) / 2) with (k + 1)
    by (apply Z.div_unique with (r := 0); lia).
  destruct (Z.ltb_spec (k + 1) 1); [lia|].
  destruct (Z.gtb_spec (k + 1) (2 * k + 1 - 1)); [lia|]. reflexivity.
Qed.

(** Even number of samples: the mean of the two middle values. *)
Lemma median_even s k :
  1 <= k ->
  (cut_point s (2 * k) 2 1 == (item s (k - 1) + item s k) / 2)%Q.
Proof.
  intros Hk. unfold cut_point. rewrite cut_index_even by assumption.
  replace (2 - (1 * (2 * k + 1) - k * 2)) with 1 by lia.
  replace (1 * (2 * k + 1) - k * 2) with 1 by lia.
  change (inject_Z 1) with 1%Q. change (inject_Z 2) with 2%Q.
  field.
Qed.

(** Odd number of samples: the middle value. *)
Lemma median_odd s k :
  1 <= k ->
  (cut_point s (2 * k + 1) 2 1 == item s k)%Q.
Proof.
  intros Hk. unfold cut_point. rewrite cut_index_odd by assumption.
  replace (2 - (1 * (2 * k + 1 + 1) - (k + 1) * 2)) with 2 by lia.
  replace (1 * (2 * k + 1 + 1) - (k + 1) * 2) with 0 by lia.
  replace (k + 1 - 1) with k by lia.
  change (inject_Z 0) with 0%Q. change (inject_Z 2) with 2%Q.
  field.
Qed.

(** With at least 20 samples the index of the 19th cut point is not
    clamped. *)
Lemma cut_index_p95 ld :
  20 <= ld -> cut_index ld 20 19 = 19 * (ld + 1) / 20.
Proof.
  intros H. unfold cut_index.
  assert (H1 : 1 <= 19 * (ld + 1) / 20)
    by (apply Z.div_le_lower_bound; lia).
  assert (H2 : 19 * (ld + 1) / 20 <= ld - 1).
  { apply Z.lt_succ_r. apply Z.div_lt_upper_bound; lia. }
  destruct (Z.ltb_spec (19 * (ld + 1) / 20) 1); [lia|].
  destruct (Z.gtb_spec (19 * (ld + 1) / 20) (ld - 1)); [lia|]. reflexivity.
Qed.

(** The 19th of the 20-quantile cut points interpolates linearly between two
    neighbours of the sorted data. *)
Lemma p95_interpolation s ld :
  20 <= ld ->
  let j := 19 * (ld + 1) / 20 in
  let delta := (19 * (ld + 1)) mod 20 in
  (cut_point s ld 20 19
   == item s (j - 1) + (inject_Z delta / 20) * (item s j - item s (j - 1)))%Q.
Proof.
  intros H j delta. unfold cut_point. rewrite cut_index_p95 by assumption.
  fold j.
  assert (Hd : 19 * (ld + 1) - j * 20 = delta).
  { unfold j, delta. rewrite Z.mod_eq by lia. lia. }
  rewrite Hd.
  replace (20 - delta) with (20 + - delta) by lia.
  rewrite inject_Z_plus, inject_Z_opp.
  change (inject_Z 20) with 20%Q. field.
Qed.

End StatsFacts.

(** ** The statistics reporter *)

Section Reporter.
Local Open Scope result_scope.

Lemma rbind_Ok_inv {A B} (r : Result A) (f : A -> Result B) b :
  rbind r f = Ok b -> exists a, r = Ok a /\ f a = Ok b.
Proof. destruct r; simpl; [eauto | discriminate]. Qed.

Lemma py_div_ok a b : ~ (b == 0)%Q -> py_div a b = Ok (a / b)%Q.
Proof.
  intros H. unfold py_div. destruct (Qeq_bool b 0) eqn:E; [|reflexivity].
  apply Qeq_bool_iff in E. contradiction.
Qed.

Lemma inject_Z_nonzero z : z <> 0 -> ~ (inject_Z z == 0)%Q.
Proof.
  intros Hz H. apply Hz. apply (inject_Z_injective z 0). exact H.
Qed.

(** What a produced report contains. *)
Lemma _print_results_inv rs name n t report :
  _print_results rs name n t = Ok report ->
  latency_statistics (successful_times rs)
  = Ok (rp_avg_response report, rp_p50_response report, rp_p95_response report,
        rp_min_response report, rp_max_response report)
  /\ rp_total_requests report = n
  /\ rp_successful report = Stats.len (filter success rs)
  /\ rp_failed report = Stats.len (filter (fun r => negb (success r)) rs).
Proof.
  unfold _print_results. intros H.
  apply rbind_Ok_inv in H as (q & _ & H).
  apply rbind_Ok_inv in H as (rps & _ & H).
  apply rbind_Ok_inv in H as (stats & Hs & H).
  destruct stats as [[[[a b] c] d] e].
  apply rbind_Ok_inv in H as (lines & _ & H).
  injection H as <-. simpl. auto.
Qed.

Lemma latency_statistics_inv times a b c d e :
  latency_statistics times = Ok (a, b, c, d, e) ->
  avg_response times = Ok a /\ p50_response times = Ok b /\
  p95_response times = Ok c /\ min_response times = Ok d /\ max_response times = Ok e.
Proof.
  unfold latency_statistics. intros H.
  apply rbind_Ok_inv in H as (a' & Ha & H).
  apply rbind_Ok_inv in H as (b' & Hb & H).
  apply rbind_Ok_inv in H as (c' & Hc & H).
  apply rbind_Ok_inv in H as (d' & Hd & H).
  apply rbind_Ok_inv in H as (e' & He & H).
  injection H as <- <- <- <- <-. auto.
Qed.

(** The guards make the five statistics total. *)
Lemma latency_statistics_total times :
  exists a b c d e, latency_statistics times = Ok (a, b, c, d, e).
Proof.
  unfold latency_statistics.
  assert (Ha : exists a, avg_response times = Ok a)
    by (destruct times; simpl; eauto).
  assert (Hb : exists b, p50_response times = Ok b).
  { unfold p50_response. destruct (Z.leb_spec 2 (Stats.len times)); [|eauto].
    rewrite StatsFacts.quantiles_2 by assumption. eauto. }
  assert (Hc : exists c, p95_response times = Ok c).
  { unfold p95_response. destruct (Z.leb_spec 20 (Stats.len times)); [|eauto].
    rewrite StatsFacts.quantiles_20 by lia. eauto. }
  assert (Hd : exists d, min_response times = Ok d)
    by (destruct times; simpl; eauto).
  assert (He : exists e, max_response times = Ok e)
    by (destruct times; simpl; eauto).
  destruct Ha as [a ->], Hb as [b ->], Hc as [c ->], Hd as [d ->], He as [e ->].
  simpl. eauto 6.
Qed.

Lemma insert_str_In x y l : In x (insert_str y l) -> x = y \/ In x l.
Proof.
  induction l as [|z l IH]; simpl.
  - intros [H|[]]; auto.
  - destruct (String.leb y z); simpl; intros [H|H]; auto.
    destruct (IH H); auto.
Qed.

Lemma sorted_set_In x xs : In x (sorted_set xs) -> In x xs.
Proof.
  unfold sorted_set. intros H.
  apply (nodup_In string_dec).
  induction (nodup string_dec xs) as [|y l IH]; simpl in *; [assumption|].
  apply insert_str_In in H as [H|H]; auto.
Qed.

(** Every listed endpoint has at least one outcome, so its rate is defined. *)
Lemma endpoint_lines_total all eps :
  (forall ep, In ep eps -> exists r, In r all /\ endpoint r = ep) ->
  exists lines, endpoint_lines all eps = Ok lines.
Proof.
  induction eps as [|ep eps IH]; simpl; intros H; [eauto|].
  destruct (H ep (or_introl eq_refl)) as (r & Hr & Hep).
  rewrite py_div_ok.
  - simpl. destruct IH as [lines ->]; [intros; apply H; auto|]. simpl. eauto.
  - apply inject_Z_nonzero. unfold Stats.len.
    assert (Hin : In r (filter (fun r0 => String.eqb (endpoint r0) ep) all)).
    { apply filter_In. split; [assumption|]. now apply String.eqb_eq. }
    destruct (filter _ all); [destruct Hin | simpl; lia].
Qed.

(** The reporter fails only through the two divisions by its arguments. *)
Lemma _print_results_total rs name n t :
  n <> 0 -> ~ (t == 0)%Q -> exists report, _print_results rs name n t = Ok report.
Proof.
  intros Hn Ht. unfold _print_results.
  rewrite py_div_ok by now apply inject_Z_nonzero. simpl.
  rewrite py_div_ok by assumption. simpl.
  destruct (latency_statistics_total (map response_time_ms (filter success rs)))
    as (a & b & c & d & e & ->). simpl.
  destruct (endpoint_lines_total rs (sorted_set (map endpoint rs))) as [lines ->].
  - intros ep Hep. apply sorted_set_In in Hep. apply in_map_iff in Hep.
    destruct Hep as (r & <- & Hr). eauto.
  - simpl. eauto.
Qed.

Lemma filter_success_none rs :
  (forall r, In r rs -> success r = false) -> filter success rs = [].
Proof.
  induction rs as [|r rs IH]; simpl; intros H; [reflexivity|].
  rewrite (H r) by auto. apply IH. intros; apply H; auto.
Qed.

End Reporter.

(** ** Claims on the latency statistics *)

Section LatencyClaims.

(** C6, as stated, fails: with the two successful samples 10 ms and 20 ms
    the reported median is 15 ms, the mean of the two middle values, and not
    10 ms, the lower of the two. *)
Lemma C6_median_not_lower_middle :
  exists report,
    _print_results two_outcomes "scenario" 2 1 = Ok report /\
    (rp_p50_response report == 15)%Q /\
    (spec_median_low (successful_times two_outcomes) == 10)%Q /\
    ~ (rp_p50_response report == spec_median_low (successful_times two_outcomes))%Q.
Proof.
  eexists. split; [vm_compute; reflexivity|].
  repeat split; try reflexivity. intro H. vm_compute in H. discriminate.
Qed.

(** C6, amended: the reported median is 0 below two successful samples;
    from two samples on it is the midpoint of the sorted successful response
    times: the middle value when their number is odd and the arithmetic mean
    of the two middle values when it is even. *)
Theorem C6_median_interpolated rs name n t report :
  _print_results rs name n t = Ok report ->
  let times := successful_times rs in
  let s := Stats.sorted times in
  Sorted Qle s /\ Permutation times s /\
  (Stats.len times < 2 -> rp_p50_response report = 0%Q) /\
  (forall k, 1 <= k -> Stats.len times = 2 * k ->
     (rp_p50_response report == (Stats.item s (k - 1) + Stats.item s k) / 2)%Q) /\
  (forall k, 1 <= k -> Stats.len times = 2 * k + 1 ->
     (rp_p50_response report == Stats.item s k)%Q).
Proof.
  intros H times s.
  apply _print_results_inv in H as (H & _).
  apply latency_statistics_inv in H as (_ & H50 & _).
  fold times in H50. unfold p50_response in H50.
  split; [apply StatsFacts.sorted_Sorted|].
  split; [apply StatsFacts.sorted_perm|].
  repeat split.
  - intros Hlt. destruct (Z.leb_spec 2 (Stats.len times)); [lia|]. congruence.
  - intros k Hk Hlen.
    destruct (Z.leb_spec 2 (Stats.len times)); [|lia].
    rewrite StatsFacts.quantiles_2 in H50 by assumption.
    injection H50 as <-. rewrite Hlen. now apply StatsFacts.median_even.
  - intros k Hk Hlen.
    destruct (Z.leb_spec 2 (Stats.len times)); [|lia].
    rewrite StatsFacts.quantiles_2 in H50 by assumption.
    injection H50 as <-. rewrite Hlen. now apply StatsFacts.median_odd.
Qed.

Lemma C6_median_interpolated_witness :
  exists report,
    _print_results two_outcomes "scenario" 2 1 = Ok report /\
    (rp_p50_response report
     == (Stats.item (Stats.sorted (successful_times two_outcomes)) 0
         + Stats.item (Stats.sorted (successful_times two_outcomes)) 1) / 2)%Q.
Proof.
  assert (Hrun : exists report, _print_results two_outcomes "scenario" 2 1 = Ok report)
    by (eexists; vm_compute; reflexivity).
  destruct Hrun as [report Hrun]. exists report. split; [exact Hrun|].
  apply (proj1 (proj2 (proj2 (proj2
           (C6_median_interpolated two_outcomes "scenario" 2 1 report Hrun)))) 1);
    [lia | reflexivity].
Defined.

(** C7, as stated, fails: with the twenty successful samples 1 ms .. 20 ms
    the reported p95 is 19.95 ms, which is none of the samples; a quantile
    taken by rank without interpolation reports one of them. *)
Lemma C7_p95_not_a_sample :
  exists report,
    _print_results twenty_outcomes "scenario" 20 1 = Ok report /\
    (rp_p95_response report == 1995 # 100)%Q /\
    forall r, In r twenty_outcomes ->
              ~ (rp_p95_response report == response_time_ms r)%Q.
Proof.
  eexists. split; [vm_compute; reflexivity|].
  split; [reflexivity|].
  intros r Hr H. vm_compute in Hr.
  repeat (destruct Hr as [<- | Hr]; [vm_compute in H; discriminate|]).
  exact Hr.
Qed.

(** C7, amended: the reported p95 is 0 below twenty successful samples; from
    twenty samples on it is the 19th of the 20-quantile cut points of the
    sorted successful response times, obtained by linear interpolation
    between the two neighbouring sorted values at rank
    [j = 19 * (ld + 1) div 20], with weight [(19 * (ld + 1) mod 20) / 20]. *)
Theorem C7_p95_interpolated rs name n t report :
  _print_results rs name n t = Ok report ->
  let times := successful_times rs in
  let s := Stats.sorted times in
  let ld := Stats.len times in
  Sorted Qle s /\ Permutation times s /\
  (ld < 20 -> rp_p95_response report = 0%Q) /\
  (20 <= ld ->
     let j := 19 * (ld + 1) / 20 in
     let delta := (19 * (ld + 1)) mod 20 in
     1 <= j <= ld - 1 /\
     (rp_p95_response report
      == Stats.item s (j - 1)
         + (inject_Z delta / 20) * (Stats.item s j - Stats.item s (j - 1)))%Q).
Proof.
  intros H times s ld.
  apply _print_results_inv in H as (H & _).
  apply latency_statistics_inv in H as (_ & _ & H95 & _).
  fold times in H95. unfold p95_response in H95. fold ld in H95.
  split; [apply StatsFacts.sorted_Sorted|].
  split; [apply StatsFacts.sorted_perm|].
  split.
  - intros Hlt. destruct (Z.leb_spec 20 ld); [lia|]. congruence.
  - intros Hge j delta.
    destruct (Z.leb_spec 20 ld); [|lia].
    unfold ld in H95. rewrite StatsFacts.quantiles_20 in H95 by (fold ld; lia).
    injection H95 as <-. split.
    + unfold j. split.
      * apply Z.div_le_lower_bound; lia.
      * apply Z.lt_succ_r. apply Z.div_lt_upper_bound; lia.
    + now apply StatsFacts.p95_interpolation.
Qed.

Lemma C7_p95_interpolated_witness :
  exists report,
    _print_results twenty_outcomes "scenario" 20 1 = Ok report /\
    (rp_p95_response report
     == Stats.item (Stats.sorted (successful_times twenty_outcomes)) 18
        + (inject_Z 19 / 20)
          * (Stats.item (Stats.sorted (successful_times twenty_outcomes)) 19
             - Stats.item (Stats.sorted (successful_times twenty_outcomes)) 18))%Q.
Proof.
  assert (Hrun : exists report, _print_results twenty_outcomes "scenario" 20 1 = Ok report)
    by (eexists; vm_compute; reflexivity).
  destruct Hrun as [report Hrun]. exists report. split; [exact Hrun|].
  refine (proj2 (proj2 (proj2 (proj2
            (C7_p95_interpolated twenty_outcomes "scenario" 20 1 report Hrun))) _)).
  vm_compute. discriminate.
Defined.

(** C8: when no outcome is successful, lines 205-210 yield 0 for the mean,
    the median, the p95, the minimum and the maximum without raising, and the
    report that [_print_results] produces carries these zeros.  (The reporter
    as a whole divides by [num_requests] and by [total_time] before that;
    both are non-zero for a scenario that ran.) *)
Theorem C8_zero_successes_report_zero rs name n t :
  (forall r, In r rs -> success r = false) ->
  latency_statistics (successful_times rs) = Ok (0, 0, 0, 0, 0)%Q /\
  (n <> 0 -> ~ (t == 0)%Q ->
   exists report,
     _print_results rs name n t = Ok report /\
     rp_avg_response report = 0%Q /\ rp_p50_response report = 0%Q /\
     rp_p95_response report = 0%Q /\ rp_min_response report = 0%Q /\
     rp_max_response report = 0%Q).
Proof.
  intros Hnone.
  assert (Hs : latency_statistics (successful_times rs) = Ok (0, 0, 0, 0, 0)%Q).
  { unfold successful_times. now rewrite filter_success_none. }
  split; [exact Hs|].
  intros Hn Ht.
  destruct (_print_results_total rs name n t Hn Ht) as [report Hr].
  exists report. split; [assumption|].
  apply _print_results_inv in Hr as (Hr & _).
  rewrite Hs in Hr. injection Hr as <- <- <- <- <-. auto.
Qed.

Lemma C8_zero_successes_report_zero_witness :
  exists report,
    _print_results [failed_outcome 3; failed_outcome 5] "scenario" 2 1 = Ok report /\
    rp_avg_response report = 0%Q /\ rp_p50_response report = 0%Q /\
    rp_p95_response report = 0%Q /\ rp_min_response report = 0%Q /\
    rp_max_response report = 0%Q.
Proof.
  refine (proj2 (C8_zero_successes_report_zero
                   [failed_outcome 3; failed_outcome 5] "scenario" 2 1 _) _ _).
  - intros r [<-|[<-|[]]]; reflexivity.
  - lia.
  - intro H; vm_compute in H; discriminate.
Defined.

End LatencyClaims.

(** ** Endpoint operations *)

Section Operations.

Lemma handle_observes {X} (ev : TaskE X) a w x ac w' :
  handle ev a w = Some (x, ac, w') -> observes ev x ac.
Proof.
  destruct ev; simpl; intros H.
  - now injection H as <- <- _.
  - destruct (Qle_bool 0 (ans_random a)) eqn:H0; [|discriminate].
    destruct (Qle_bool 1 (ans_random a)) eqn:H1; [discriminate|].
    simpl in H. injection H as <- <- _.
    split; [reflexivity|]. split; [now apply Qle_bool_iff|].
    apply Qnot_le_lt. intro Hle. apply Qle_bool_iff in Hle. congruence.
  - destruct (Z.leb_spec a0 (ans_int a)); [|discriminate].
    destruct (Z.leb_spec (ans_int a) b); [|discriminate].
    simpl in H. injection H as <- <- _. auto.
  - destruct (nth_error xs (ans_choice a)) eqn:E; [|discriminate].
    injection H as <- <- _. split; [reflexivity|]. eapply nth_error_In; eauto.
  - destruct (0 <? sem_value w); [|discriminate]. now injection H as _ <- _.
  - now injection H as _ <- _.
  - destruct (_get_session w) as [[s c] w1]. injection H as <- <- _. eauto.
  - now injection H as _ <- _.
  - now injection H as <- <- _.
  - now injection H as <- <- _.
  - now injection H as _ <- _.
Qed.

(** A run of a coroutine satisfies what [along] promises. *)
Lemma run_task_along {A} I F (p : Task A) :
  forall answers w tr r w' tr' rest,
    along I F p tr ->
    run_task p answers w tr = Some (r, w', tr', rest) ->
    F tr' r.
Proof.
  induction p as [a|e|X ev k IH]; simpl; intros answers w tr r w' tr' rest [_ HF] Hrun.
  - now injection Hrun as <- _ <- _.
  - now injection Hrun as <- _ <- _.
  - destruct answers as [|a answers]; [discriminate|].
    destruct (handle ev a w) as [[[x ac] w1]|] eqn:Hh; [|discriminate].
    eapply IH; [|eassumption]. apply HF. eapply handle_observes; eauto.
Qed.

End Operations.

(** Symbolic execution of a coroutine under [along]. *)
Ltac along_step :=
  match goal with
  | H : observes _ _ _ |- _ => cbn [observes] in H
  | H : _ /\ _ |- _ => destruct H
  | H : exists _, _ |- _ => destruct H
  | H : ?ac = _ |- _ => is_var ac; subst ac
  | x : (PyExc + Z)%type |- _ => destruct x
  | x : option PyExc |- _ => destruct x
  | x : unit |- _ => destruct x
  | |- along _ _ _ _ => progress cbn [along bind try_except try_finally with_exit trigger]
  | |- _ /\ _ => split
  | |- forall _, _ => intro
  end.

Ltac unfold_ops :=
  unfold invoke, get_all_products, get_product_by_id, create_product,
    async_with_request, time_time, random_randint, random_random, random_choice.

Ltac run_op :=
  repeat first
    [ along_step
    | match goal with
      | |- context [is_Exception ?e] => destruct (is_Exception e) eqn:?
      end ].

Section OperationClaims.

(** C5: the outcome that an endpoint operation returns has [success] true
    exactly when its [status_code] is the expected one, 200 for List and
    GetByID and 201 for Create. *)
Theorem C5_success_iff_expected_status base op session tenant answers w tr res w' tr' rest :
  run_task (invoke base op session tenant) answers w tr = Some (Ok res, w', tr', rest) ->
  success res = true <-> status_code res = expected_status op.
Proof.
  intros Hrun.
  refine (run_task_along (fun _ => True)
            (fun _ r => match r with
                        | Ok res => success res = true <-> status_code res = expected_status op
                        | Raised _ => True
                        end) _ _ _ _ _ _ _ _ _ Hrun).
  clear. destruct op; unfold_ops; run_op; cbn;
    try exact I; try apply Z.eqb_eq. all: try (split; discriminate).
Qed.

Lemma C5_success_iff_expected_status_witness :
  exists res w' tr' rest,
    run_task (invoke "http://localhost:5000" OpCreate session0 "company-a")
      create_answers world0 [] = Some (Ok res, w', tr', rest) /\
    (success res = true <-> status_code res = 201).
Proof.
  do 4 eexists. split; [vm_compute; reflexivity|].
  eapply (C5_success_iff_expected_status "http://localhost:5000" OpCreate session0
            "company-a" create_answers world0 []).
  vm_compute. reflexivity.
Defined.

(** C2: when the client call of an endpoint operation raises a
    transport-level failure [e], the operation returns (it does not raise) an
    outcome with [status_code = 0] and [success = false] whose
    [response_time_ms] is the time elapsed between the operation's first
    clock reading and the clock reading taken right after the failure. *)
Theorem C2_transport_failure_caught base op session tenant answers w r w' tr rest e :
  run_task (invoke base op session tenant) answers w [] = Some (r, w', tr, rest) ->
  (exists ac, In ac tr /\ client_failure ac = Some e) ->
  transport_failure e = true ->
  exists res t_start t_fail ac tr0,
    r = Ok res /\
    tr = AcTime t_fail :: ac :: tr0 /\ client_failure ac = Some e /\
    first_reading tr = Some t_start /\
    status_code res = 0 /\ success res = false /\
    response_time_ms res = ((t_fail - t_start) * 1000)%Q.
Proof.
  intros Hrun Hfail He. revert e Hfail He.
  refine (run_task_along (fun _ => True)
            (fun tr r => forall e,
               (exists ac, In ac tr /\ client_failure ac = Some e) ->
               transport_failure e = true ->
               exists res t_start t_fail ac tr0,
                 r = Ok res /\
                 tr = AcTime t_fail :: ac :: tr0 /\ client_failure ac = Some e /\
                 first_reading tr = Some t_start /\
                 status_code res = 0 /\ success res = false /\
                 response_time_ms res = ((t_fail - t_start) * 1000)%Q)
            _ _ _ _ _ _ _ _ _ Hrun).
  clear. destruct op; unfold_ops; run_op; try exact I;
    cbn [In] in *;
    repeat match goal with
           | H : _ \/ _ |- _ => destruct H
           | H : False |- _ => destruct H
           | H : ?ac = _ |- _ => is_var ac; subst ac
           | H : _ = ?ac |- _ => is_var ac; subst ac
           | H : client_failure _ = Some _ |- _ =>
               cbn in H; first [discriminate H | injection H as ->]
           end;
    try (do 5 eexists; repeat split; reflexivity);
    match goal with
    | H : is_Exception ?e = false, H' : transport_failure ?e = true |- _ =>
        destruct e; discriminate
    end.
Qed.

Lemma C2_transport_failure_caught_witness :
  exists res,
    run_task (invoke "http://localhost:5000" OpList session0 "company-a")
      refused_answers world0 [] = Some (Ok res, world0,
        [AcTime (3 # 2); AcReply (inl ClientConnectorError);
         AcSend session0
           (mkRequest "GET" "http://localhost:5000/api/products"
              [("Accept", "application/json"); ("X-Tenant-Slug", "company-a")]%string
              None);
         AcTime 1], []) /\
    status_code res = 0 /\ success res = false /\
    response_time_ms res = (((3 # 2) - 1) * 1000)%Q.
Proof.
  destruct (C2_transport_failure_caught "http://localhost:5000" OpList session0
              "company-a" refused_answers world0 _ _ _ _ ClientConnectorError eq_refl)
    as (res & t_start & t_fail & ac & tr0 & Hr & Htr & _ & Hfirst & H0 & Hs & Ht).
  - exists (AcReply (inl ClientConnectorError)). split; [right; left|]; reflexivity.
  - reflexivity.
  - exists res. injection Hr as <-. injection Htr as <- _ _.
    injection Hfirst as <-. repeat split; assumption.
Defined.

(** C4: a unit of work makes exactly one [random.random()] draw [u], in
    [[0,1)], and the one request it sends and the outcome it appends are
    those of the operation whose band contains [u]: List for [[0, 0.5)],
    GetByID for [[0.5, 0.8)], Create for [[0.8, 1)]. *)
Theorem C4_operation_by_band base tenants answers w r w' tr rest :
  run_task (bounded_request base tenants) answers w [] = Some (r, w', tr, rest) ->
  exists u b req,
    draws tr = [u] /\ (0 <= u)%Q /\ (u < 1)%Q /\ in_band u b /\
    sends tr = [req] /\ request_in_band base req b /\
    forall res, In res (appended tr) -> endpoint res = band_label b.
Proof.
  intros Hrun.
  refine (run_task_along (fun _ => True)
            (fun tr _ => exists u b req,
               draws tr = [u] /\ (0 <= u)%Q /\ (u < 1)%Q /\ in_band u b /\
               sends tr = [req] /\ request_in_band base req b /\
               forall res, In res (appended tr) -> endpoint res = band_label b)
            _ _ _ _ _ _ _ _ _ Hrun).
  clear. unfold bounded_request, async_with_semaphore, random_choice, random_random.
  repeat along_step; try exact I.
  match goal with H : (0 <= ?u)%Q |- _ => rename u into op end.
  destruct (Qlt_le_dec op (5 # 10)) as [Hlt|Hge]; [|destruct (Qlt_le_dec op (8 # 10)) as [Hlt|Hge']].
  - unfold_ops; run_op; try exact I;
      exists op, BandList; eexists; cbn;
      (repeat split; try reflexivity; try assumption; try lra);
      intros res Hin; cbn in Hin; intuition (subst; reflexivity).
  - unfold_ops; run_op; try exact I;
      exists op, BandGetByID; eexists; cbn;
      (repeat split; try reflexivity; try assumption; try lra);
      try (eexists; split; [|reflexivity]; lia);
      intros res Hin; cbn in Hin; intuition (subst; reflexivity).
  - unfold_ops; run_op; try exact I;
      exists op, BandCreate; eexists; cbn;
      (repeat split; try reflexivity; try assumption; try lra; try discriminate);
      intros res Hin; cbn in Hin; intuition (subst; reflexivity).
Qed.

Lemma C4_operation_by_band_witness :
  exists r w' tr rest,
    run_task (bounded_request "http://localhost:5000" ["company-a"]%string)
      get_by_id_answers world0 [] = Some (r, w', tr, rest) /\
    exists u b req,
      draws tr = [u] /\ (0 <= u)%Q /\ (u < 1)%Q /\ in_band u b /\
      sends tr = [req] /\ request_in_band "http://localhost:5000" req b /\
      forall res, In res (appended tr) -> endpoint res = band_label b.
Proof.
  do 4 eexists. split; [vm_compute; reflexivity|].
  eapply (C4_operation_by_band "http://localhost:5000" ["company-a"]%string
            get_by_id_answers world0).
  vm_compute. reflexivity.
Defined.

End OperationClaims.

(** ** The protocol of [bounded_request] *)

Section UnitOfWork.

Ltac solve_unit :=
  repeat first
    [ along_step
    | match goal with
      | |- context [is_Exception ?e] => destruct (is_Exception e) eqn:?
      | |- context [Qlt_le_dec ?a ?b] => destruct (Qlt_le_dec a b)
      end ];
  try exact I;
  cbn; try lia; try discriminate; try reflexivity;
  try (intuition (first [discriminate | lia | reflexivity]));
  try (do 2 eexists; intuition reflexivity).

(** A unit of work follows the protocol, whatever the environment does. *)
Lemma bounded_request_protocol base tenants :
  along unit_invariant unit_final (bounded_request base tenants) [].
Proof.
  unfold bounded_request, async_with_semaphore, unit_invariant, unit_final.
  unfold_ops. solve_unit.
Qed.

End UnitOfWork.

(** ** The pool of tasks of one scenario *)

Section PoolFacts.

Lemma tally_app f tr1 tr2 : tally f (tr1 ++ tr2) = tally f tr1 + tally f tr2.
Proof. induction tr1 as [|ac tr1 IH]; simpl; [reflexivity | rewrite IH; lia]. Qed.

Lemma local_cons i j ac tr :
  local i ((j, ac) :: tr) = if Nat.eqb j i then ac :: local i tr else local i tr.
Proof. unfold local. simpl. now destruct (Nat.eqb j i). Qed.

Lemma local_app i tr1 tr2 : local i (tr1 ++ tr2) = (local i tr1 ++ local i tr2)%list.
Proof. unfold local. now rewrite filter_app, map_app. Qed.

Lemma sum_over_ext l g h :
  (forall i, In i l -> g i = h i) -> sum_over l g = sum_over l h.
Proof.
  induction l as [|i l IH]; simpl; intros H; [reflexivity|].
  rewrite (H i) by auto. rewrite IH; [reflexivity|]. intros; apply H; auto.
Qed.

Lemma sum_over_le l g h :
  (forall i, In i l -> g i <= h i) -> sum_over l g <= sum_over l h.
Proof.
  induction l as [|i l IH]; simpl; intros H; [lia|].
  specialize (H i (or_introl eq_refl)) as Hi.
  assert (sum_over l g <= sum_over l h) by (apply IH; intros; apply H; auto).
  lia.
Qed.

Lemma sum_over_nonneg l g :
  (forall i, In i l -> 0 <= g i) -> 0 <= sum_over l g.
Proof.
  induction l as [|i l IH]; simpl; intros H; [lia|].
  specialize (H i (or_introl eq_refl)) as Hi.
  assert (0 <= sum_over l g) by (apply IH; intros; apply H; auto).
  unfold sum_over in *. lia.
Qed.

Lemma sum_over_const l g c :
  (forall i, In i l -> g i = c) -> sum_over l g = Z.of_nat (List.length l) * c.
Proof.
  induction l as [|i l IH]; intros H; [reflexivity|].
  cbn [sum_over fold_right List.length].
  change (fold_right (fun i s => g i + s) 0 l) with (sum_over l g).
  rewrite (H i) by (left; reflexivity).
  rewrite IH by (intros; apply H; right; assumption). lia.
Qed.

(** Adding [a] at the one index [j] adds [a] to the sum. *)
Lemma sum_over_bump l j a g :
  NoDup l -> In j l ->
  sum_over l (fun i => if Nat.eqb j i then a + g i else g i) = a + sum_over l g.
Proof.
  induction l as [|i l IH]; simpl; intros Hnd Hin; [contradiction|].
  inversion Hnd as [|? ? Hni Hnd']; subst.
  destruct Hin as [->|Hin].
  - rewrite Nat.eqb_refl.
    rewrite (sum_over_ext l _ g); [lia|].
    intros i Hi. destruct (Nat.eqb_spec j i); [subst; contradiction | reflexivity].
  - destruct (Nat.eqb_spec j i); [subst; contradiction|].
    fold (sum_over l (fun i0 => if Nat.eqb j i0 then a + g i0 else g i0)).
    rewrite IH by assumption. fold (sum_over l g). lia.
Qed.

(** A tally over the whole trace is the sum of the tallies of the tasks. *)
Lemma tally_by_task f n trace :
  (forall i ac, In (i, ac) trace -> (i < n)%nat) ->
  sum_over (seq 0 n) (fun i => tally f (local i trace)) = tally f (actions trace).
Proof.
  induction trace as [|[j ac] trace IH]; intros Hlt.
  - simpl. rewrite (sum_over_const _ _ 0) by reflexivity. lia.
  - rewrite (sum_over_ext _ _
               (fun i => if Nat.eqb j i then f ac + tally f (local i trace)
                         else tally f (local i trace))).
    + rewrite sum_over_bump.
      * rewrite IH; [reflexivity|]. intros; eapply Hlt; right; eassumption.
      * apply seq_NoDup.
      * apply in_seq. specialize (Hlt j ac (or_introl eq_refl)). lia.
    + intros i _. rewrite local_cons. now destruct (Nat.eqb j i).
Qed.

Lemma update_length {A} i (x : A) l : List.length (update i x l) = List.length l.
Proof.
  revert i; induction l as [|y l IH]; intros [|i]; simpl; auto.
Qed.

Lemma nth_error_update {A} i j (x : A) l :
  nth_error (update i x l) j =
  if Nat.eqb i j then (if Nat.ltb i (List.length l) then Some x else None)
  else nth_error l j.
Proof.
  revert i j; induction l as [|y l IH]; intros [|i] [|j]; simpl; try reflexivity.
  - now destruct (Nat.eqb i j).
  - rewrite IH. destruct (Nat.eqb i j); [|reflexivity].
    change (Nat.ltb (S i) (S (List.length l))) with (Nat.ltb i (List.length l)).
    reflexivity.
Qed.

(** What one step of the pool is. *)
Lemma step_inv i a p p' :
  step i a p = Some p' ->
  exists X (ev : TaskE X) k x ac w',
    nth_error (tasks p) i = Some (Vis ev k) /\
    handle ev a (world p) = Some (x, ac, w') /\
    p' = mkPool (update i (k x) (tasks p)) w' ((i, ac) :: trace p).
Proof.
  unfold step. intros H.
  destruct (nth_error (tasks p) i) as [[u|e|X ev k]|] eqn:Hn; try discriminate.
  destruct (handle ev a (world p)) as [[[x ac] w']|] eqn:Hh; [|discriminate].
  injection H as <-. exists X, ev, k, x, ac, w'. auto.
Qed.

Lemma step_pool_inv n i a p p' :
  step i a p = Some p' -> pool_inv n p -> pool_inv n p'.
Proof.
  intros Hstep (Hlen & Hids & Hal).
  apply step_inv in Hstep as (X & ev & k & x & ac & w' & Hn & Hh & ->).
  assert (Hi : (i < n)%nat).
  { rewrite <- Hlen. apply nth_error_Some. congruence. }
  repeat split; simpl.
  - now rewrite update_length.
  - intros j ac' [E|Hin]; [injection E as <- _; assumption | eauto].
  - intros j t Hj. rewrite nth_error_update in Hj. rewrite local_cons.
    destruct (Nat.eqb_spec i j) as [<-|Hne].
    + destruct (Nat.ltb i (List.length (tasks p))); [|discriminate].
      injection Hj as <-.
      specialize (Hal i _ Hn). simpl in Hal. destruct Hal as [_ Hk].
      apply Hk. eapply handle_observes; eassumption.
    + auto.
Qed.

Lemma handle_world_inv {X} (ev : TaskE X) a w x ac w' :
  handle ev a w = Some (x, ac, w') ->
  sem_value w' + slot_weight ac = sem_value w /\
  (0 <= sem_value w -> 0 <= sem_value w') /\
  results (self w') = (results (self w) ++ rev (appended [ac]))%list.
Proof.
  assert (Hfin : forall w0 : World,
             sem_value w0 + 0 = sem_value w0 /\
             (0 <= sem_value w0 -> 0 <= sem_value w0) /\
             results (self w0) = (results (self w0) ++ [])%list).
  { intros w0. rewrite app_nil_r. repeat split; lia. }
  destruct ev; simpl; intros H.
  - injection H as _ <- <-. apply Hfin.
  - destruct (_ && _); [|discriminate]. injection H as _ <- <-. apply Hfin.
  - destruct (_ && _); [|discriminate]. injection H as _ <- <-. apply Hfin.
  - destruct (nth_error _ _); [|discriminate]. injection H as _ <- <-. apply Hfin.
  - destruct (Z.ltb_spec 0 (sem_value w)); [|discriminate]. injection H as _ <- <-.
    simpl. rewrite app_nil_r. repeat split; lia.
  - injection H as _ <- <-. simpl. rewrite app_nil_r. repeat split; lia.
  - unfold _get_session in H.
    destruct (_session (self w)) as [s|]; [destruct (closed w s)|];
      injection H as _ <- <-; simpl; rewrite app_nil_r; repeat split; lia.
  - injection H as _ <- <-. apply Hfin.
  - injection H as _ <- <-. apply Hfin.
  - injection H as _ <- <-. apply Hfin.
  - injection H as _ <- <-. simpl. repeat split; lia.
Qed.

Lemma step_world_inv c rs0 i a p p' :
  step i a p = Some p' -> world_inv c rs0 p -> world_inv c rs0 p'.
Proof.
  intros Hstep (Hsem & Hpos & Hres).
  apply step_inv in Hstep as (X & ev & k & x & ac & w' & Hn & Hh & ->).
  apply handle_world_inv in Hh as (Hs & Hp & Hr).
  unfold world_inv, slots_held, actions in *. simpl.
  repeat split.
  - lia.
  - auto.
  - rewrite Hr, Hres. destruct ac; simpl; rewrite ?app_nil_r; try reflexivity.
    now rewrite <- app_assoc.
Qed.

(** The invariants hold at every point of every schedule. *)
Lemma steps_inv n c rs0 sched : forall p p',
  steps sched p = Some p' ->
  pool_inv n p -> world_inv c rs0 p ->
  pool_inv n p' /\ world_inv c rs0 p'.
Proof.
  induction sched as [|[i a] sched IH]; simpl; intros p p' H Hp Hw.
  - injection H as <-. auto.
  - destruct (step i a p) as [p1|] eqn:Hs; [|discriminate].
    eapply IH; eauto using step_pool_inv, step_world_inv.
Qed.

Lemma scenario_tasks_nth me n i t :
  nth_error (scenario_tasks me n) i = Some t ->
  t = bounded_request (base_url me) (tenants me).
Proof.
  unfold scenario_tasks. intros H.
  apply nth_error_In, in_map_iff in H. now destruct H as (_ & <- & _).
Qed.

Lemma scenario_tasks_length me n :
  List.length (scenario_tasks me n) = Z.to_nat n.
Proof. unfold scenario_tasks, range. now rewrite length_map, length_seq. Qed.

(** The pool of a scenario starts within the invariants. *)
Lemma scenario_pool_inv w n c :
  0 <= c ->
  pool_inv (Z.to_nat n) (scenario_pool w n c) /\
  world_inv c (results (self w)) (scenario_pool w n c).
Proof.
  intros Hc. split.
  - repeat split; simpl.
    + apply scenario_tasks_length.
    + intros _ _ [].
    + intros i t Ht. apply scenario_tasks_nth in Ht as ->.
      apply bounded_request_protocol.
  - unfold world_inv, slots_held. simpl. rewrite app_nil_r. repeat split; lia.
Qed.

(** In a pool within the invariants, the requests in flight are at most
    the slots held, which are at most the capacity. *)
Lemma in_flight_bound n c rs0 p :
  pool_inv n p -> world_inv c rs0 p ->
  0 <= in_flight (trace p) /\ in_flight (trace p) <= slots_held (trace p) /\
  slots_held (trace p) = c - sem_value (world p) /\ slots_held (trace p) <= c.
Proof.
  intros (Hlen & Hids & Hal) (Hsem & Hpos & _).
  assert (Hunit : forall i, In i (seq 0 n) -> unit_invariant (local i (trace p))).
  { intros i Hi. apply in_seq in Hi.
    destruct (nth_error (tasks p) i) as [t|] eqn:Ht.
    - specialize (Hal i t Ht). destruct t; simpl in Hal; tauto.
    - apply nth_error_None in Ht. lia. }
  unfold in_flight, slots_held in *.
  rewrite <- (tally_by_task flight_weight n) by assumption.
  rewrite <- (tally_by_task slot_weight n) in * by assumption.
  repeat split; try lia.
  - apply sum_over_nonneg. intros i Hi. destruct (Hunit i Hi). lia.
  - apply sum_over_le. intros i Hi. destruct (Hunit i Hi) as (_ & ? & _). lia.
Qed.

End PoolFacts.

(** ** Claims on the scenario runner's pool *)

Section PoolClaims.

(** C3: at every point of every schedule of a scenario's tasks, the number
    of requests dispatched and not yet completed is at most [concurrency];
    it is bounded by the number of slots held, which the semaphore keeps
    equal to [concurrency] minus its value. *)
Theorem C3_in_flight_bounded w n c sched p :
  0 <= c ->
  steps sched (scenario_pool w n c) = Some p ->
  0 <= in_flight (trace p) <= c /\
  in_flight (trace p) <= slots_held (trace p) /\
  slots_held (trace p) = c - sem_value (world p) /\
  0 <= sem_value (world p).
Proof.
  intros Hc Hsteps.
  destruct (scenario_pool_inv w n c Hc) as [Hp Hw].
  destruct (steps_inv _ _ _ _ _ _ Hsteps Hp Hw) as [Hp' Hw'].
  destruct (in_flight_bound _ _ _ _ Hp' Hw') as (H0 & H1 & H2 & H3).
  destruct Hw' as (_ & Hpos & _). lia.
Qed.

Lemma C3_in_flight_bounded_witness :
  exists p,
    steps overlapping_schedule (scenario_pool world0 2 2) = Some p /\
    in_flight (trace p) = 2 /\
    0 <= in_flight (trace p) <= 2.
Proof.
  eexists. split; [vm_compute; reflexivity|].
  split; [reflexivity|].
  refine (proj1 (C3_in_flight_bounded world0 2 2 overlapping_schedule _ _ _));
    [lia | vm_compute; reflexivity].
Defined.

Lemma in_local i ac trace : In ac (local i trace) <-> In (i, ac) trace.
Proof.
  unfold local. rewrite in_map_iff. split.
  - intros ([j ac'] & <- & H). apply filter_In in H as [H E].
    simpl in *. apply Nat.eqb_eq in E. now subst.
  - intros H. exists (i, ac). split; [reflexivity|].
    apply filter_In. split; [assumption|]. simpl. apply Nat.eqb_refl.
Qed.

Lemma local_split i trace later r earlier :
  trace = (later ++ (i, AcAppend r) :: earlier)%list ->
  local i trace = (local i later ++ AcAppend r :: local i earlier)%list.
Proof.
  intros ->. rewrite local_app, local_cons, Nat.eqb_refl. reflexivity.
Qed.

Lemma appends_hold_slot_split tr : forall t1 r t2,
  appends_hold_slot tr -> tr = (t1 ++ AcAppend r :: t2)%list ->
  In AcAcquire t2 /\ ~ In AcRelease t2.
Proof.
  induction tr as [|ac tr IH]; intros t1 r t2 H E.
  - destruct t1; discriminate.
  - destruct t1 as [|ac1 t1]; simpl in E; injection E as -> ->.
    + simpl in H. tauto.
    + apply (IH t1 r t2); [|reflexivity].
      destruct ac1; simpl in H; tauto.
Qed.

Lemma release_follows_append_split tr : forall b t1 r t2,
  release_follows_append b tr -> tr = (t1 ++ AcAppend r :: t2)%list ->
  b = true \/ In AcRelease t1.
Proof.
  induction tr as [|ac tr IH]; intros b t1 r t2 H E.
  - destruct t1; discriminate.
  - destruct t1 as [|ac1 t1]; simpl in E; injection E as -> ->.
    + simpl in H. tauto.
    + destruct ac1; simpl in H;
        try (destruct (IH _ t1 r t2 H eq_refl); [auto | right; right; assumption]).
      * right. left. reflexivity.
      * destruct H as [_ H].
        destruct (IH _ t1 r t2 H eq_refl); [auto | right; right; assumption].
Qed.

Lemma along_now {A} I F (t : Task A) tr : along I F t tr -> I tr.
Proof. destruct t; simpl; tauto. Qed.

(** C10, as stated, fails: in the run of one unit of work, the outcome is
    appended first and the slot is released after it; when the outcome is
    appended the slot has not been released. *)
Lemma C10_append_precedes_release :
  exists p r earlier,
    steps (list_schedule 0) (scenario_pool world0 1 1) = Some p /\
    trace p = (0%nat, AcRelease) :: (0%nat, AcAppend r) :: earlier /\
    ~ In (0%nat, AcRelease) earlier.
Proof.
  do 3 eexists. split; [vm_compute; reflexivity|].
  split; [reflexivity|].
  cbn. intuition discriminate.
Qed.

(** C10, amended: for every unit of work, the outcome is appended while the
    capacity slot is held: the unit has acquired the slot before the append
    and has not released it; once the unit has returned, its release of the
    slot has come after the append. *)
Theorem C10_append_while_slot_held w n c sched p i r later earlier :
  0 <= c ->
  steps sched (scenario_pool w n c) = Some p ->
  trace p = (later ++ (i, AcAppend r) :: earlier)%list ->
  In (i, AcAcquire) earlier /\
  ~ In (i, AcRelease) earlier /\
  (nth_error (tasks p) i = Some (Ret tt) -> In (i, AcRelease) later).
Proof.
  intros Hc Hsteps Htrace.
  destruct (scenario_pool_inv w n c Hc) as [Hp Hw].
  destruct (steps_inv _ _ _ _ _ _ Hsteps Hp Hw) as [(Hlen & Hids & Hal) _].
  pose proof (local_split i _ _ _ _ Htrace) as Hloc.
  assert (Hi : (i < Z.to_nat n)%nat).
  { apply (Hids i (AcAppend r)). rewrite Htrace. apply in_elt. }
  destruct (nth_error (tasks p) i) as [t|] eqn:Ht;
    [|apply nth_error_None in Ht; lia].
  specialize (Hal i t Ht).
  pose proof (along_now _ _ _ _ Hal) as (_ & _ & _ & _ & Hhold).
  destruct (appends_hold_slot_split _ _ _ _ Hhold Hloc) as [Hacq Hrel].
  rewrite in_local in Hacq. rewrite in_local in Hrel.
  repeat split; try assumption.
  intros E. injection E as ->. simpl in Hal.
  destruct Hal as (_ & _ & _ & Hfollow & _).
  destruct (release_follows_append_split _ _ _ _ _ Hfollow Hloc) as [H|H];
    [discriminate | now apply in_local].
Qed.

Lemma C10_append_while_slot_held_witness :
  exists p r earlier,
    steps (list_schedule 0) (scenario_pool world0 1 1) = Some p /\
    trace p = ([(0%nat, AcRelease)] ++ (0%nat, AcAppend r) :: earlier)%list /\
    In (0%nat, AcAcquire) earlier /\
    ~ In (0%nat, AcRelease) earlier /\
    (nth_error (tasks p) 0 = Some (Ret tt) -> In (0%nat, AcRelease) [(0%nat, AcRelease)]).
Proof.
  do 3 eexists. split; [vm_compute; reflexivity|].
  split; [reflexivity|].
  refine (C10_append_while_slot_held world0 1 1 (list_schedule 0) _ 0%nat _
            [(0%nat, AcRelease)] _ _ _ _);
    [lia | vm_compute; reflexivity | reflexivity].
Defined.

End PoolClaims.

(** ** The scenario runner *)

Section ScenarioRunner.

Lemma gather_run_steps sched : forall p outcome p',
  gather_run sched p = Some (outcome, p') ->
  steps sched p = Some p' /\
  match outcome with
  | None => forallb finished (tasks p') = true
  | Some e => exists i, nth_error (tasks p') i = Some (Raise e)
  end.
Proof.
  induction sched as [|[i a] sched IH]; simpl; intros p outcome p' H.
  - destruct (forallb finished (tasks p)) eqn:E; [|discriminate].
    injection H as <- <-. auto.
  - destruct (step i a p) as [p1|] eqn:Hs; [|discriminate].
    assert (Hrec : gather_run sched p1 = Some (outcome, p') ->
                   steps sched p1 = Some p' /\
                   match outcome with
                   | None => forallb finished (tasks p') = true
                   | Some e => exists i, nth_error (tasks p') i = Some (Raise e)
                   end) by apply IH.
    destruct (nth_error (tasks p1) i) as [[u|e|X ev k]|] eqn:Hn; auto.
    destruct sched; [|discriminate]. injection H as <- <-.
    split; [reflexivity|]. eauto.
Qed.

(** [run_scenario] ends in one of the four ways of [scenario_outcome]. *)
Lemma run_scenario_inv name n c oracle w tr r w' tr' rest :
  drun (run_scenario name n c) oracle w tr = Some (r, w', tr', rest) ->
  scenario_outcome name n c w tr r w' tr'.
Proof.
  unfold run_scenario, asyncio_Semaphore, asyncio_gather. intros H.
  destruct oracle as [|a1 oracle]; [discriminate|].
  destruct oracle as [|a2 oracle]; [discriminate|].
  destruct oracle as [|a3 oracle]; [discriminate|].
  cbn [drun bind trigger dhandle] in H.
  destruct (Z.ltb_spec c 0) as [Hc|Hc].
  - cbn [drun bind] in H. injection H as <- <- <- _. now constructor.
  - destruct oracle as [|a4 oracle]; [discriminate|].
    destruct oracle as [|a5 oracle]; [discriminate|].
    destruct oracle as [|a6 oracle]; [discriminate|].
    cbn [drun bind trigger dhandle] in H.
    change (mkPool (scenario_tasks (self (set_sem c (set_results [] w))) n)
                   (set_sem c (set_results [] w)) [])
      with (scenario_pool (set_results [] w) n c) in H.
    destruct (gather_run (da_sched a6) (scenario_pool (set_results [] w) n c))
      as [[[e|] p]|] eqn:Hg; [| |discriminate].
    + cbn [drun bind] in H. injection H as <- <- <- _.
      eapply so_task_raised; eassumption.
    + destruct oracle as [|a7 oracle]; [discriminate|].
      destruct oracle as [|a8 oracle]; [discriminate|].
      cbn [drun bind trigger dhandle] in H.
      destruct (_print_results (results (self (world p))) name n
                  (da_time a7 - da_time a3)) as [report|e] eqn:Hrep;
        cbn [lift_result drun bind trigger dhandle] in H.
      * destruct oracle as [|a9 oracle]; [discriminate|].
        cbn [drun bind trigger dhandle] in H. injection H as <- <- <- _.
        eapply so_returned; eassumption.
      * injection H as <- <- <- _.
        eapply so_report_raised; eassumption.
Qed.

Lemma appended_length tr :
  Z.of_nat (List.length (appended tr)) = tally append_weight tr.
Proof.
  induction tr as [|ac tr IH]; [reflexivity|].
  destruct ac; cbn [appended tally fold_right append_weight List.length];
    fold (tally append_weight tr); lia.
Qed.

(** When all tasks of a pool have returned, each has appended one outcome. *)
Lemma finished_pool_appends n c rs0 p :
  pool_inv n p -> world_inv c rs0 p ->
  forallb finished (tasks p) = true ->
  (forall i, (i < n)%nat -> appends_by i (trace p) = 1) /\
  Z.of_nat (List.length (appended (actions (trace p)))) = Z.of_nat n.
Proof.
  intros (Hlen & Hids & Hal) _ Hfin.
  assert (Hone : forall i, (i < n)%nat -> appends_by i (trace p) = 1).
  { intros i Hi.
    destruct (nth_error (tasks p) i) as [t|] eqn:Ht;
      [|apply nth_error_None in Ht; lia].
    rewrite forallb_forall in Hfin.
    specialize (Hfin t (nth_error_In _ _ Ht)).
    destruct t as [[]|e|X ev k]; try discriminate.
    specialize (Hal i _ Ht). simpl in Hal.
    destruct Hal as (_ & _ & _ & _ & _ & Happ). now apply Happ. }
  split; [assumption|].
  rewrite appended_length.
  rewrite <- (tally_by_task append_weight n) by assumption.
  rewrite (sum_over_const _ _ 1).
  - rewrite length_seq. lia.
  - intros i Hi. apply in_seq in Hi. apply Hone. lia.
Qed.

End ScenarioRunner.

Section ScenarioClaims.

(** C1: when [run_scenario] returns, the outcome collection holds exactly
    [num_requests] outcomes: those appended by the tasks of its [gather], in
    the order of the appends, one by each of the [num_requests] units of
    work. *)
Theorem C1_exactly_num_requests_outcomes name n c oracle w tr w' tr' rest :
  0 <= n ->
  drun (run_scenario name n c) oracle w tr = Some (Ok tt, w', tr', rest) ->
  Stats.len (results (self w')) = n /\
  exists gtr t0 t1 report,
    tr' = DaPrint (OutResults name report) :: DaSelf :: DaTime t1
          :: DaGather gtr None :: DaSelf :: DaSemaphore c
          :: DaTime t0 :: DaResultsClear :: DaPrint (OutScenarioHeader name n c) :: tr /\
    results (self w') = rev (appended (actions gtr)) /\
    (forall i ac, In (i, ac) gtr -> (i < Z.to_nat n)%nat) /\
    (forall i, (i < Z.to_nat n)%nat -> appends_by i gtr = 1).
Proof.
  intros Hn Hrun. apply run_scenario_inv in Hrun.
  inversion Hrun as [| | |t0 t1 sched p report Hc Hg Hrep]; subst.
  apply gather_run_steps in Hg as [Hsteps Hfin].
  destruct (scenario_pool_inv (set_results [] w) n c Hc) as [Hp Hw].
  destruct (steps_inv _ _ _ _ _ _ Hsteps Hp Hw) as [Hp' Hw'].
  destruct (finished_pool_appends _ _ _ _ Hp' Hw' Hfin) as [Hone Hlen].
  destruct Hw' as (_ & _ & Hres). simpl in Hres.
  split.
  - unfold Stats.len. rewrite Hres, length_rev, Hlen. lia.
  - exists (trace p), t0, t1, report. repeat split; try assumption.
    destruct Hp' as (_ & Hids & _). assumption.
Qed.

Lemma C1_exactly_num_requests_outcomes_witness :
  exists w' tr' rest,
    drun (run_scenario "Two requests" 2 1) two_request_oracle world0 []
    = Some (Ok tt, w', tr', rest) /\
    Stats.len (results (self w')) = 2.
Proof.
  do 3 eexists. split; [vm_compute; reflexivity|].
  refine (proj1 (C1_exactly_num_requests_outcomes "Two requests" 2 1
                   two_request_oracle world0 [] _ _ _ _ _));
    [lia | vm_compute; reflexivity].
Defined.

End ScenarioClaims.

(** ** The shared session *)

Section SharedSession.

Lemma handle_session {X} (ev : TaskE X) a w x ac w' :
  handle ev a w = Some (x, ac, w') ->
  match ac with
  | AcGetSession s c => _get_session w = (s, c, w')
  | _ => _session (self w') = _session (self w) /\ heap w' = heap w
  end.
Proof.
  destruct ev; simpl; intros H.
  - injection H as _ <- <-. auto.
  - destruct (_ && _); [|discriminate]. injection H as _ <- <-. auto.
  - destruct (_ && _); [|discriminate]. injection H as _ <- <-. auto.
  - destruct (nth_error _ _); [|discriminate]. injection H as _ <- <-. auto.
  - destruct (0 <? sem_value w); [|discriminate]. injection H as _ <- <-. auto.
  - injection H as _ <- <-. auto.
  - destruct (_get_session w) as [[s c] w1]. injection H as _ <- <-. reflexivity.
  - injection H as _ <- <-. auto.
  - injection H as _ <- <-. auto.
  - injection H as _ <- <-. auto.
  - injection H as _ <- <-. auto.
Qed.

Lemma _get_session_open w s :
  session_open w s -> _get_session w = (s, false, w).
Proof. intros [Hs Hc]. unfold _get_session. now rewrite Hs, Hc. Qed.

Lemma _get_session_none w :
  _session (self w) = None ->
  exists w', _get_session w = (new_session (heap w), true, w') /\
             session_open w' (new_session (heap w)) /\
             heap w' = (heap w ++ [false])%list.
Proof.
  intros Hs. unfold _get_session. rewrite Hs. eexists. split; [reflexivity|].
  split; [|reflexivity]. split; [reflexivity|].
  unfold closed, new_session. simpl.
  rewrite app_nth2 by lia. now rewrite Nat.sub_diag.
Qed.

Lemma closed_same_heap w w' s : heap w' = heap w -> closed w' s = closed w s.
Proof. unfold closed. now intros ->. Qed.

Lemma step_session_kept cs h s i a p p' :
  step i a p = Some p' -> pool_session_kept cs h s p -> pool_session_kept cs h s p'.
Proof.
  intros Hstep (Hcr & Hopen & Hheap).
  apply step_inv in Hstep as (X & ev & k & x & ac & w' & _ & Hh & ->).
  apply handle_session in Hh. unfold pool_session_kept, actions in *. simpl.
  destruct ac;
    match type of Hh with
    | _ /\ _ =>
        destruct Hh as [Hs' Hp]; repeat split;
        [assumption
        | destruct Hopen as [Ho _]; congruence
        | destruct Hopen as [_ Hc]; now rewrite (closed_same_heap _ _ _ Hp)
        | congruence]
    | _ => idtac
    end.
  rewrite (_get_session_open _ _ Hopen) in Hh. injection Hh as <- <- <-.
  auto.
Qed.

Lemma step_session_fresh h0 i a p p' :
  step i a p = Some p' ->
  pool_session_fresh h0 p \/ pool_session_created h0 p ->
  pool_session_fresh h0 p' \/ pool_session_created h0 p'.
Proof.
  unfold pool_session_created.
  intros Hstep [ (Hno & Hs & Hheap) | (Hcr & Hopen & Hheap) ].
  - apply step_inv in Hstep as (X & ev & k & x & ac & w' & _ & Hh & ->).
    apply handle_session in Hh.
    assert (Hcr : creations (actions (trace p)) = []).
    { clear - Hno. unfold actions in *.
      induction (map snd (trace p)) as [|ac tr IH]; [reflexivity|].
      assert (creations tr = []) by (apply IH; intros s c H; apply (Hno s c); now right).
      destruct ac; simpl; try assumption.
      exfalso. apply (Hno s created). now left. }
    unfold pool_session_fresh, pool_session_kept, actions in *. simpl.
    destruct ac;
      match type of Hh with
      | _ /\ _ =>
          left; destruct Hh as [Hs' Hp]; repeat split;
          [intros s0 c0 [E|Hin]; [discriminate | now apply (Hno s0 c0)]
          | congruence | congruence]
      | _ => idtac
      end.
    right. destruct (_get_session_none _ Hs) as (w1 & Hg & Ho & Hhp).
    rewrite Hg in Hh. injection Hh as <- <- <-.
    simpl. rewrite Hcr, <- Hheap. auto.
  - right. apply (step_session_kept _ _ _ _ _ _ _ Hstep).
    unfold pool_session_kept. auto.
Qed.

Lemma steps_session_kept cs h s sched : forall p p',
  steps sched p = Some p' -> pool_session_kept cs h s p -> pool_session_kept cs h s p'.
Proof.
  induction sched as [|[i a] sched IH]; simpl; intros p p' H Hk.
  - now injection H as <-.
  - destruct (step i a p) as [p1|] eqn:Hs; [|discriminate].
    eauto using step_session_kept.
Qed.

Lemma steps_session_fresh h0 sched : forall p p',
  steps sched p = Some p' ->
  pool_session_fresh h0 p \/ pool_session_created h0 p ->
  pool_session_fresh h0 p' \/ pool_session_created h0 p'.
Proof.
  induction sched as [|[i a] sched IH]; simpl; intros p p' H Hk.
  - now injection H as <-.
  - destruct (step i a p) as [p1|] eqn:Hs; [|discriminate].
    eauto using step_session_fresh.
Qed.

(** A unit of work that has returned or raised has asked for the session. *)
Lemma ended_task_got_session n p i t :
  pool_inv n p -> nth_error (tasks p) i = Some t ->
  finished t = true \/ (exists e, t = Raise e) ->
  exists s c, In (AcGetSession s c) (actions (trace p)).
Proof.
  intros (_ & _ & Hal) Ht Hend. specialize (Hal i t Ht).
  assert (Hfin : exists r, unit_final (local i (trace p)) r).
  { destruct t as [u|e|X ev k]; simpl in Hal.
    - eexists; apply Hal.
    - eexists; apply Hal.
    - destruct Hend as [H|[e H]]; discriminate. }
  destruct Hfin as (r & _ & _ & _ & (s & c & Hin) & _).
  exists s, c. apply in_local in Hin.
  unfold actions. apply in_map_iff. exists (i, AcGetSession s c). auto.
Qed.

(** When [gather] is over, some unit of work has ended, if there is one. *)
Lemma gather_ended n sched p0 outcome p :
  (0 < n)%nat -> pool_inv n p ->
  gather_run sched p0 = Some (outcome, p) ->
  exists i t, nth_error (tasks p) i = Some t /\
              (finished t = true \/ exists e, t = Raise e).
Proof.
  intros Hn (Hlen & _) Hg. apply gather_run_steps in Hg as [_ Hout].
  destruct outcome as [e|].
  - destruct Hout as [i Hi]. exists i, (Raise e). eauto.
  - destruct (nth_error (tasks p) 0) as [t|] eqn:Ht;
      [|apply nth_error_None in Ht; lia].
    exists 0%nat, t. split; [exact Ht|]. left.
    rewrite forallb_forall in Hout. apply Hout. eapply nth_error_In; eauto.
Qed.

(** The session after the [gather] of a scenario with at least one request:
    the runner has an open session, created by this scenario if there was
    none and kept otherwise. *)
Lemma gather_session h0 tr w n c sched outcome p :
  0 < n -> 0 <= c ->
  session_fresh h0 tr w \/ session_in_use h0 tr w ->
  gather_run sched (scenario_pool (set_results [] w) n c) = Some (outcome, p) ->
  (creations (actions (trace p)) ++ dcreations tr = [new_session h0])%list /\
  session_open (world p) (new_session h0) /\
  heap (world p) = (h0 ++ [false])%list.
Proof.
  intros Hn Hc Hsess Hg.
  destruct (scenario_pool_inv (set_results [] w) n c Hc) as [Hp Hw].
  pose proof (gather_run_steps _ _ _ _ Hg) as [Hsteps _].
  destruct (steps_inv _ _ _ _ _ _ Hsteps Hp Hw) as [Hp' _].
  destruct Hsess as [(Hcr & Hs & Hh) | (Hcr & Hopen & Hh)].
  - assert (H0 : pool_session_fresh h0 (scenario_pool (set_results [] w) n c))
      by (repeat split; [intros s c0 [] | assumption | assumption]).
    destruct (steps_session_fresh _ _ _ _ Hsteps (or_introl H0))
      as [(Hno & _) | (Hcr' & Ho & Hh')].
    + exfalso.
      destruct (gather_ended (Z.to_nat n) _ _ _ _ ltac:(lia) Hp' Hg) as (i & t & Ht & Hend).
      destruct (ended_task_got_session _ _ _ _ Hp' Ht Hend) as (s & c0 & Hin).
      exact (Hno s c0 Hin).
    + rewrite Hcr, Hcr'. auto.
  - assert (H0 : pool_session_kept [] (h0 ++ [false]) (new_session h0)
                   (scenario_pool (set_results [] w) n c)).
    { repeat split; try assumption; apply Hopen. }
    destruct (steps_session_kept _ _ _ _ _ _ Hsteps H0) as (Hcr' & Ho & Hh').
    rewrite Hcr, Hcr'. auto.
Qed.

(** One scenario of the sequence: it leaves an open session, closes none,
    and shows its phases in order. *)
Lemma scenario_session name n c w tr r w' tr' h0 :
  scenario_outcome name n c w tr r w' tr' ->
  0 < n -> 0 <= c ->
  session_fresh h0 tr w \/ session_in_use h0 tr w ->
  session_in_use h0 tr' w' /\
  dcloses tr' = dcloses tr /\
  ((r = Ok tt /\
    scenario_log tr' = Reported name :: Gathered :: Started name n c :: scenario_log tr) \/
   (exists e, r = Raised e /\
    scenario_log tr' = Gathered :: Started name n c :: scenario_log tr)).
Proof.
  intros Hout Hn Hc Hsess.
  inversion Hout as [t0 Hneg | t0 sched p e _ Hg | t0 t1 sched p e _ Hg Hrep
                    | t0 t1 sched p report _ Hg Hrep]; subst; [lia| | |];
    destruct (gather_session _ _ _ _ _ _ _ _ Hn Hc Hsess Hg) as (Hcr & Ho & Hh);
    (split; [repeat split; [exact Hcr | apply Ho | apply Ho | exact Hh]|]);
    (split; [reflexivity|]); eauto.
Qed.

End SharedSession.

(** ** The sequencer *)

Section Sequencer.

Lemma drun_bind {A B} (p : Driver A) (k : A -> Driver B) : forall o w tr,
  drun (bind p k) o w tr =
  match drun p o w tr with
  | Some (Ok a, w1, tr1, o1) => drun (k a) o1 w1 tr1
  | Some (Raised e, w1, tr1, o1) => Some (Raised e, w1, tr1, o1)
  | None => None
  end.
Proof.
  induction p as [a|e|X ev k' IH]; intros o w tr; simpl; try reflexivity.
  destruct o as [|a o]; [reflexivity|].
  destruct (dhandle ev a w) as [[[x ac] w1]|]; [apply IH | reflexivity].
Qed.

Lemma drun_try_finally {A} (p : Driver A) (q : Driver unit) : forall o w tr,
  drun (try_finally p q) o w tr =
  match drun p o w tr with
  | Some (Ok a, w1, tr1, o1) => drun (bind q (fun _ => Ret a)) o1 w1 tr1
  | Some (Raised e, w1, tr1, o1) => drun (bind q (fun _ => Raise e)) o1 w1 tr1
  | None => None
  end.
Proof.
  induction p as [a|e|X ev k' IH]; intros o w tr; simpl; try reflexivity.
  destruct o as [|a o]; [reflexivity|].
  destruct (dhandle ev a w) as [[[x ac] w1]|]; [apply IH | reflexivity].
Qed.

Lemma main_unfold :
  main =
  (started <- trigger DNow ;;
   trigger (DPrint (OutBanner started)) ;;
   trigger DNewRunner ;;
   try_finally
     (run_all scenarios
        (finished_at <- trigger DNow ;;
         trigger (DPrint (OutAllCompleted finished_at))))
     close_session).
Proof. reflexivity. Qed.

(** The scenarios of a list are run in order until one raises; each leaves
    the shared session open and none closes it. *)
Lemma run_all_spec l :
  Forall (fun '(name, n, c) => 0 < n /\ 0 <= c) l ->
  forall k o w tr r w' tr' rest h0,
    drun (run_all l k) o w tr = Some (r, w', tr', rest) ->
    session_fresh h0 tr w \/ session_in_use h0 tr w ->
    (exists o1 w1 tr1,
        drun k o1 w1 tr1 = Some (r, w', tr', rest) /\
        match l with
        | [] => w1 = w /\ tr1 = tr
        | _ :: _ => session_in_use h0 tr1 w1
        end /\
        dcloses tr1 = dcloses tr /\
        rev (scenario_log tr1) = (rev (scenario_log tr) ++ expected_log l)%list) \/
    (exists e done name n c todo,
        r = Raised e /\ l = (done ++ (name, n, c) :: todo)%list /\
        session_in_use h0 tr' w' /\
        dcloses tr' = dcloses tr /\
        rev (scenario_log tr')
        = (rev (scenario_log tr) ++ expected_log done ++ [Started name n c; Gathered])%list).
Proof.
  induction 1 as [|[[name n] c] l [Hn Hc] Hl IH];
    intros k o w tr r w' tr' rest h0 Hrun Hsess.
  - left. exists o, w, tr. simpl in Hrun. simpl. rewrite app_nil_r. auto.
  - cbn [run_all fold_right] in Hrun. fold (run_all l k) in Hrun.
    rewrite drun_bind in Hrun.
    destruct (drun (run_scenario name n c) o w tr) as [[[[r1 w1] tr1] o1]|] eqn:H1;
      [|discriminate].
    apply run_scenario_inv in H1.
    destruct (scenario_session _ _ _ _ _ _ _ _ h0 H1 Hn Hc Hsess)
      as (Huse & Hcl & [[-> Hlog] | (e & -> & Hlog)]).
    + destruct (IH k o1 w1 tr1 r w' tr' rest h0 Hrun (or_intror Huse))
        as [(o2 & w2 & tr2 & Hk & Hs2 & Hcl2 & Hlog2)
           | (e & done & name' & n' & c' & todo & -> & -> & Hs2 & Hcl2 & Hlog2)].
      * left. exists o2, w2, tr2. split; [assumption|]. split; [|split].
        -- destruct l; [destruct Hs2 as [-> ->]|]; assumption.
        -- congruence.
        -- rewrite Hlog2, Hlog. cbn [rev expected_log flat_map].
           rewrite <- !app_assoc. reflexivity.
      * right. exists e, ((name, n, c) :: done), name', n', c', todo.
        split; [reflexivity|]. split; [reflexivity|]. split; [assumption|].
        split; [congruence|].
        rewrite Hlog2, Hlog. cbn [rev expected_log flat_map].
        rewrite <- !app_assoc. reflexivity.
    + right. injection Hrun as <- <- <- _.
      exists e, [], name, n, c, l.
      split; [reflexivity|]. split; [reflexivity|]. split; [assumption|].
      split; [assumption|].
      rewrite Hlog. cbn [rev expected_log flat_map]. rewrite <- !app_assoc. reflexivity.
Qed.

Lemma update_last {A} (l : list A) (x y : A) :
  update (List.length l) y (l ++ [x]) = (l ++ [y])%list.
Proof. induction l as [|z l IH]; simpl; [reflexivity | now rewrite IH]. Qed.

(** [close_session] on a runner whose session is in use closes it. *)
Lemma close_session_spec {A} (k : Driver A) h0 o w tr res :
  session_in_use h0 tr w ->
  drun (bind close_session (fun _ => k)) o w tr = Some res ->
  exists o1,
    drun k o1 (close_in_heap (new_session h0) w)
         (DaSessionClose (new_session h0) :: DaSelf :: tr) = Some res /\
    heap (close_in_heap (new_session h0) w) = (h0 ++ [true])%list.
Proof.
  intros (_ & (Hs & _) & Hh) Hrun. unfold close_session in Hrun.
  destruct o as [|a1 o]; [discriminate|].
  cbn [drun bind trigger dhandle] in Hrun. rewrite Hs in Hrun.
  destruct o as [|a2 o]; [discriminate|].
  cbn [drun bind trigger dhandle] in Hrun.
  exists o. split; [assumption|].
  unfold close_in_heap, new_session. simpl. rewrite Hh. apply update_last.
Qed.

End Sequencer.

Section SequencerClaims.

(** C9: in every run of [main], whether the scenarios all return or one of
    them raises, exactly one session is created, it is closed exactly once,
    and closing it is the last action of the run; the scenarios run in the
    order of the list, each starting after the report of the one before, and
    none starts after one has raised. *)
Theorem C9_session_closed_once_at_end oracle w r w' tr rest :
  drun main oracle w [] = Some (r, w', tr, rest) ->
  let s := new_session (heap w) in
  (exists earlier, tr = DaSessionClose s :: DaSelf :: earlier /\ dcloses earlier = []) /\
  dcreations tr = [s] /\
  dcloses tr = [s] /\
  heap w' = (heap w ++ [true])%list /\
  ((r = Ok tt /\ rev (scenario_log tr) = expected_log scenarios) \/
   (exists e done name n c todo,
       r = Raised e /\ scenarios = (done ++ (name, n, c) :: todo)%list /\
       rev (scenario_log tr)
       = (expected_log done ++ [Started name n c; Gathered])%list)).
Proof.
  intros Hrun s. rewrite main_unfold in Hrun.
  destruct oracle as [|a1 oracle]; [discriminate|].
  destruct oracle as [|a2 oracle]; [discriminate|].
  destruct oracle as [|a3 oracle]; [discriminate|].
  cbn [drun bind trigger dhandle] in Hrun.
  rewrite drun_try_finally in Hrun.
  match type of Hrun with
  | match drun ?b ?o ?w0 ?tr0 with _ => _ end = _ =>
      destruct (drun b o w0 tr0) as [[[[rb wb] trb] ob]|] eqn:Hbody; [|discriminate];
      assert (Hfresh : session_fresh (heap w) tr0 w0) by (repeat split)
  end.
  assert (Hall : Forall (fun '(name, n, c) => 0 < n /\ 0 <= c) scenarios)
    by (unfold scenarios; repeat constructor; lia).
  destruct (run_all_spec _ Hall _ _ _ _ _ _ _ _ (heap w) Hbody (or_introl Hfresh))
    as [(o1 & w1 & tr1 & Hk & Huse & Hcl & Hlog)
       | (e & done & name & n & c & todo & -> & Hsplit & Huse & Hcl & Hlog)].
  - destruct o1 as [|b1 o1]; [discriminate|].
    destruct o1 as [|b2 o1]; [discriminate|].
    cbn [drun bind trigger dhandle] in Hk. injection Hk as <- <- <- <-.
    cbn [scenarios] in Huse.
    assert (Huse' : session_in_use (heap w)
                      (DaPrint (OutAllCompleted (da_now b1)) :: DaNow (da_now b1) :: tr1) w1)
      by exact Huse.
    destruct (close_session_spec _ _ _ _ _ _ Huse' Hrun) as (o2 & Hend & Hheap).
    cbn [drun] in Hend. injection Hend as <- <- <- _.
    destruct Huse as (Hcr & _).
    repeat split.
    + eexists. split; [reflexivity|]. exact Hcl.
    + exact Hcr.
    + cbn [dcloses]. now rewrite Hcl.
    + exact Hheap.
    + left. split; [reflexivity|]. exact Hlog.
  - destruct (close_session_spec _ _ _ _ _ _ Huse Hrun) as (o2 & Hend & Hheap).
    cbn [drun] in Hend. injection Hend as <- <- <- _.
    destruct Huse as (Hcr & _).
    repeat split.
    + eexists. split; [reflexivity|]. exact Hcl.
    + exact Hcr.
    + cbn [dcloses]. now rewrite Hcl.
    + exact Hheap.
    + right. exists e, done, name, n, c, todo. auto.
Qed.

Lemma C9_session_closed_once_at_end_witness :
  exists r w' tr rest,
    drun main interrupted_oracle world0 [] = Some (r, w', tr, rest) /\
    r = Raised KeyboardInterrupt /\
    dcreations tr = [session0] /\ dcloses tr = [session0] /\ heap w' = [true].
Proof.
  do 4 eexists. split; [vm_compute; reflexivity|].
  split; [reflexivity|].
  refine (let H := C9_session_closed_once_at_end interrupted_oracle world0 _ _ _ _ _ in
          conj (proj1 (proj2 H)) (conj (proj1 (proj2 (proj2 H)))
                                       (proj1 (proj2 (proj2 (proj2 H)))))).
  vm_compute. reflexivity.
Defined.

End SequencerClaims.

(** ** The scenarios do return

    The claims above quantify over the runs of the model; the schedule in
    which the units of work run one after the other shows that
    [run_scenario] returns and [main] completes for some behaviour of the
    environment. *)

Section Liveness.

Lemma update_same {A} i (x : A) l : nth_error l i = Some x -> update i x l = l.
Proof.
  revert i; induction l as [|y l IH]; intros [|i]; simpl; try discriminate.
  - now intros [= ->].
  - intros H. now rewrite IH.
Qed.

Lemma update_update {A} i (x y : A) l : update i y (update i x l) = update i y l.
Proof.
  revert i; induction l as [|z l IH]; intros [|i]; simpl; try reflexivity.
  now rewrite IH.
Qed.

(** A task that runs alone to its return, inside [gather]. *)
Lemma gather_run_single i (t : Task unit) : forall answers w tr0 w' tr' p sched',
  run_task t answers w tr0 = Some (Ok tt, w', tr', []) ->
  nth_error (tasks p) i = Some t -> world p = w ->
  exists p',
    gather_run (map (pair i) answers ++ sched') p = gather_run sched' p' /\
    tasks p' = update i (Ret tt) (tasks p) /\ world p' = w'.
Proof.
  induction t as [[]|e|X ev k IH]; simpl; intros answers w tr0 w' tr' p sched' Hrun Ht Hw.
  - injection Hrun as <- _ ->. exists p. simpl.
    rewrite update_same by assumption. auto.
  - discriminate.
  - destruct answers as [|a answers]; [discriminate|].
    destruct (handle ev a w) as [[[x ac] w1]|] eqn:Hh; [|discriminate].
    set (p1 := mkPool (update i (k x) (tasks p)) w1 ((i, ac) :: trace p)).
    assert (Hstep : step i a p = Some p1).
    { unfold step. rewrite Ht, Hw, Hh. reflexivity. }
    assert (Hi : nth_error (tasks p1) i = Some (k x)).
    { simpl. rewrite nth_error_update, Nat.eqb_refl.
      assert (Hlt : (i < List.length (tasks p))%nat)
        by (apply nth_error_Some; congruence).
      apply Nat.ltb_lt in Hlt. now rewrite Hlt. }
    destruct (IH x answers w1 (ac :: tr0) w' tr' p1 sched' Hrun Hi eq_refl)
      as (p' & Hg & Htasks & Hw').
    exists p'. split; [|split; [|assumption]].
    + cbn [map app gather_run]. rewrite Hstep, Hi.
      destruct (k x) as [u|e|Y ev' k'] eqn:Hk; try assumption.
      simpl in Hrun. discriminate.
    + rewrite Htasks. simpl. apply update_update.
Qed.

(** A unit of work that makes an accepted List request returns, and gives
    the semaphore and the runner's configuration back as it found them. *)
Lemma bounded_request_returns base t0 rest w :
  0 < sem_value w ->
  exists w' tr,
    run_task (bounded_request base (t0 :: rest)) list_answers w [] = Some (Ok tt, w', tr, []) /\
    sem_value w' = sem_value w /\
    base_url (self w') = base_url (self w) /\ tenants (self w') = tenants (self w).
Proof.
  intros Hsem. unfold bounded_request, async_with_semaphore, list_answers.
  unfold_ops.
  cbn [run_task bind try_except try_finally with_exit trigger handle
         answer ans_time ans_random ans_int ans_choice ans_reply ans_release nth_error].
  apply Z.ltb_lt in Hsem. rewrite Hsem.
  cbn [run_task bind try_except try_finally with_exit trigger handle
         answer ans_time ans_random ans_int ans_choice ans_reply ans_release nth_error
         Qle_bool Qnum Qden andb negb Z.leb Z.mul Z.compare Pos.mul Pos.compare
         Pos.compare_cont].
  destruct (Qlt_le_dec (1 # 4) (5 # 10)) as [_|Hle];
    [|exfalso; revert Hle; apply Qlt_not_le; reflexivity].
  cbn [run_task bind try_except try_finally with_exit trigger handle].
  unfold _get_session.
  destruct (_session (self (set_sem (sem_value w - 1) w))) as [s|];
    [destruct (closed (set_sem (sem_value w - 1) w) s)|];
    cbn [run_task bind try_except try_finally with_exit trigger handle
           answer ans_time ans_random ans_int ans_choice ans_reply ans_release];
    do 2 eexists; (split; [reflexivity|]); simpl; repeat split; lia.
Qed.

(** The units of work of [idxs], one after the other. *)
Lemma gather_run_sequential base t0 rest idxs : forall p sched',
  NoDup idxs ->
  (forall i, In i idxs ->
             nth_error (tasks p) i = Some (bounded_request base (t0 :: rest))) ->
  0 < sem_value (world p) ->
  exists p',
    gather_run (flat_map list_schedule idxs ++ sched') p = gather_run sched' p' /\
    (forall j, In j idxs -> nth_error (tasks p') j = Some (Ret tt)) /\
    (forall j, ~ In j idxs -> nth_error (tasks p') j = nth_error (tasks p) j) /\
    sem_value (world p') = sem_value (world p) /\
    base_url (self (world p')) = base_url (self (world p)) /\
    tenants (self (world p')) = tenants (self (world p)).
Proof.
  induction idxs as [|i idxs IH]; intros p sched' Hnd Hts Hsem.
  - exists p. simpl. repeat split; tauto.
  - inversion Hnd as [|? ? Hni Hnd']; subst.
    destruct (bounded_request_returns base t0 rest (world p) Hsem)
      as (w1 & tr1 & Hrun & Hsem1 & Hb1 & Ht1).
    destruct (gather_run_single i _ _ _ _ _ _ p
                (flat_map list_schedule idxs ++ sched')
                Hrun (Hts i (or_introl eq_refl)) eq_refl)
      as (p1 & Hg1 & Htasks1 & Hw1).
    assert (Hlt : (i < List.length (tasks p))%nat).
    { apply nth_error_Some. rewrite (Hts i (or_introl eq_refl)). discriminate. }
    apply Nat.ltb_lt in Hlt.
    destruct (IH p1 sched' Hnd') as (p' & Hg & Hdone & Hother & Hsem' & Hb' & Ht').
    + intros j Hj. rewrite Htasks1, nth_error_update.
      destruct (Nat.eqb_spec i j); [subst; contradiction|]. apply Hts. now right.
    + rewrite Hw1. lia.
    + exists p'. repeat split.
      * cbn [flat_map]. unfold list_schedule at 1. rewrite <- app_assoc.
        rewrite Hg1. exact Hg.
      * intros j [<-|Hj]; [|now apply Hdone].
        rewrite (Hother i Hni), Htasks1, nth_error_update, Nat.eqb_refl, Hlt.
        reflexivity.
      * intros j Hj. rewrite Hother by (intro; apply Hj; now right).
        rewrite Htasks1, nth_error_update.
        destruct (Nat.eqb_spec i j); [subst; exfalso; apply Hj; now left | reflexivity].
      * rewrite Hsem', Hw1. exact Hsem1.
      * rewrite Hb', Hw1. exact Hb1.
      * rewrite Ht', Hw1. exact Ht1.
Qed.

(** Every scenario with at least one request and one slot can return. *)
Lemma run_scenario_returns name n c w tr t0 rest :
  0 < n -> 0 < c -> tenants (self w) = t0 :: rest ->
  exists w' tr',
    tenants (self w') = tenants (self w) /\
    forall oracle',
      drun (run_scenario name n c) (sequential_oracle (Z.to_nat n) ++ oracle') w tr
      = Some (Ok tt, w', tr', oracle').
Proof.
  intros Hn Hc Hten.
  set (p0 := scenario_pool (set_results [] w) n c).
  destruct (gather_run_sequential (base_url (self w)) t0 rest (seq 0 (Z.to_nat n)) p0 [])
    as (p' & Hg & Hdone & Hother & _ & _ & Hten').
  { apply seq_NoDup. }
  { intros i Hi. apply in_seq in Hi.
    destruct (nth_error (tasks p0) i) as [t|] eqn:Ht.
    - apply scenario_tasks_nth in Ht as ->. simpl. now rewrite Hten.
    - apply nth_error_None in Ht. simpl in Ht. rewrite scenario_tasks_length in Ht. lia. }
  { simpl. lia. }
  rewrite app_nil_r in Hg. fold (sequential_schedule (Z.to_nat n)) in Hg.
  assert (Hfin : forallb finished (tasks p') = true).
  { apply forallb_forall. intros t Ht. apply In_nth_error in Ht as [j Hj].
    destruct (in_dec Nat.eq_dec j (seq 0 (Z.to_nat n))) as [Hin|Hout].
    - rewrite (Hdone j Hin) in Hj. now injection Hj as <-.
    - rewrite (Hother j Hout) in Hj.
      assert (Hlt : (j < List.length (tasks p0))%nat)
        by (apply nth_error_Some; congruence).
      simpl in Hlt. rewrite scenario_tasks_length in Hlt.
      exfalso. apply Hout. apply in_seq. lia. }
  destruct (_print_results_total (results (self (world p'))) name n (2 - 0))
    as [report Hrep]; [lia | intro H; vm_compute in H; discriminate |].
  exists (world p').
  exists (DaPrint (OutResults name report) :: DaSelf :: DaTime 2
          :: DaGather (trace p') None :: DaSelf :: DaSemaphore c
          :: DaTime 0 :: DaResultsClear :: DaPrint (OutScenarioHeader name n c) :: tr).
  split; [exact Hten'|]. intros oracle'.
  unfold run_scenario, asyncio_Semaphore, asyncio_gather, sequential_oracle.
  cbn [app drun bind trigger dhandle danswer da_time da_now da_sched].
  destruct (Z.ltb_spec c 0) as [|_]; [lia|].
  cbn [app drun bind trigger dhandle danswer da_time da_now da_sched].
  change (mkPool (scenario_tasks (self (set_sem c (set_results [] w))) n)
                 (set_sem c (set_results [] w)) [])
    with p0.
  rewrite Hg. cbn [gather_run]. rewrite Hfin.
  cbn [drun bind trigger dhandle danswer da_time da_now da_sched].
  rewrite Hrep.
  cbn [lift_result drun bind trigger dhandle]. reflexivity.
Qed.

(** So can the scenarios of a list, one after the other. *)
Lemma run_all_returns l :
  Forall (fun '(name, n, c) => 0 < n /\ 0 < c) l ->
  forall (k : Driver unit) w tr t0 rest,
    tenants (self w) = t0 :: rest ->
    exists oracle w' tr',
      tenants (self w') = tenants (self w) /\
      forall oracle', drun (run_all l k) (oracle ++ oracle') w tr = drun k oracle' w' tr'.
Proof.
  induction 1 as [|[[name n] c] l [Hn Hc] Hl IH]; intros k w tr t0 rest Hten.
  - exists [], w, tr. auto.
  - destruct (run_scenario_returns name n c w tr t0 rest Hn Hc Hten)
      as (w1 & tr1 & Hten1 & Hrun1).
    destruct (IH k w1 tr1 t0 rest) as (o2 & w2 & tr2 & Hten2 & Hrun2);
      [congruence|].
    exists (sequential_oracle (Z.to_nat n) ++ o2)%list, w2, tr2.
    split; [congruence|]. intros oracle'.
    cbn [run_all fold_right]. fold (run_all l k).
    rewrite drun_bind, <- app_assoc, Hrun1. apply Hrun2.
Qed.

(** [main] can run all its scenarios and complete. *)
Lemma main_completes w :
  exists oracle w' tr, drun main oracle w [] = Some (Ok tt, w', tr, []).
Proof.
  assert (Hall : Forall (fun '(name, n, c) => 0 < n /\ 0 < c) scenarios)
    by (unfold scenarios; repeat constructor; lia).
  set (w0 := mkWorld LoadTestRunner (heap w) (sem_value w)).
  destruct (run_all_returns _ Hall
              (finished_at <- trigger DNow ;;
               trigger (DPrint (OutAllCompleted finished_at)))
              w0 [DaNewRunner; DaPrint (OutBanner "2024-01-01 00:00:00");
                  DaNow "2024-01-01 00:00:00"]
              "company-a"%string ["company-b"; "company-c"]%string eq_refl)
    as (o & w1 & tr1 & _ & Hrun).
  destruct (_session (self w1)) as [s|] eqn:Hs.
  - exists ([danswer 0 []; danswer 0 []; danswer 0 []]
            ++ o ++ [danswer 0 []; danswer 0 []; danswer 0 []; danswer 0 []])%list.
    do 2 eexists. rewrite main_unfold.
    cbn [app drun bind trigger dhandle danswer da_time da_now da_sched].
    rewrite drun_try_finally. fold w0. rewrite Hrun.
    cbn [app drun bind trigger dhandle danswer da_time da_now da_sched close_session].
    rewrite Hs.
    cbn [app drun bind trigger dhandle]. reflexivity.
  - exists ([danswer 0 []; danswer 0 []; danswer 0 []]
            ++ o ++ [danswer 0 []; danswer 0 []; danswer 0 []])%list.
    do 2 eexists. rewrite main_unfold.
    cbn [app drun bind trigger dhandle danswer da_time da_now da_sched].
    rewrite drun_try_finally. fold w0. rewrite Hrun.
    cbn [app drun bind trigger dhandle danswer da_time da_now da_sched close_session].
    rewrite Hs.
    cbn [app drun bind trigger dhandle]. reflexivity.
Qed.

End Liveness.

(** * Further properties *)

(** ** The reporter: errors and counts *)

Section ReporterProperties.
Local Open Scope result_scope.

Lemma py_div_zero a b : (b == 0)%Q -> py_div a b = Raised ZeroDivisionError.
Proof.
  intros H. unfold py_div. apply Qeq_bool_iff in H. now rewrite H.
Qed.

Lemma _print_results_cases rs name n t :
  match _print_results rs name n t with
  | Ok report => n <> 0 /\ ~ (t == 0)%Q
  | Raised e => e = ZeroDivisionError /\ (n = 0 \/ (t == 0)%Q)
  end.
Proof.
  destruct (Z.eq_dec n 0) as [->|Hn].
  - unfold _print_results. rewrite py_div_zero by reflexivity. simpl. auto.
  - destruct (Qeq_dec t 0) as [Ht|Ht].
    + unfold _print_results.
      rewrite py_div_ok by now apply inject_Z_nonzero. simpl.
      rewrite (py_div_zero _ t Ht). simpl. auto.
    + destruct (_print_results_total rs name n t Hn Ht) as [report ->]. auto.
Qed.

(** The reporter raises exactly when [num_requests] or [total_time] is zero,
    and then it is [ZeroDivisionError]; no outcome collection makes it fail
    otherwise. *)
Theorem reporter_raises_iff_zero_divisor rs name n t :
  (n = 0 \/ (t == 0)%Q <-> _print_results rs name n t = Raised ZeroDivisionError) /\
  (n <> 0 /\ ~ (t == 0)%Q <-> exists report, _print_results rs name n t = Ok report).
Proof.
  pose proof (_print_results_cases rs name n t) as H.
  destruct (_print_results rs name n t) as [report|e].
  - destruct H as [Hn Ht]. split; split.
    + intros [H0|H0]; contradiction.
    + discriminate.
    + eauto.
    + auto.
  - destruct H as [-> Hz]. split; split.
    + reflexivity.
    + auto.
    + intros [Hn Ht]. destruct Hz; contradiction.
    + intros [report Hr]. discriminate.
Qed.

Lemma filter_partition_length {A} (f : A -> bool) l :
  (List.length (filter f l) + List.length (filter (fun x => negb (f x)) l)
   = List.length l)%nat.
Proof.
  induction l as [|x l IH]; simpl; [reflexivity|].
  destruct (f x); simpl; lia.
Qed.

Lemma filter_length_le {A} (f : A -> bool) l :
  (List.length (filter f l) <= List.length l)%nat.
Proof.
  induction l as [|x l IH]; simpl; [lia|]. destruct (f x); simpl; lia.
Qed.

(** What a produced report says about the counts and the rates. *)
Lemma _print_results_rates rs name n t report :
  _print_results rs name n t = Ok report ->
  rp_success_rate report
  = (inject_Z (Stats.len (filter success rs)) / inject_Z n * 100)%Q /\
  rp_req_per_sec report = (inject_Z n / t)%Q /\
  rp_total_time report = t /\
  endpoint_lines rs (sorted_set (map endpoint rs)) = Ok (rp_endpoints report) /\
  n <> 0 /\ ~ (t == 0)%Q.
Proof.
  intros H.
  pose proof (_print_results_cases rs name n t) as Hz.
  rewrite H in Hz. destruct Hz as [Hn Ht].
  unfold _print_results in H.
  rewrite py_div_ok in H by now apply inject_Z_nonzero.
  rewrite py_div_ok in H by assumption. simpl in H.
  apply rbind_Ok_inv in H as (stats & _ & H).
  destruct stats as [[[[a b] c] d] e].
  apply rbind_Ok_inv in H as (lines & Hl & H).
  injection H as <-. simpl. repeat split; first [assumption | reflexivity].
Qed.

(** Every outcome is counted once, as a success or as a failure. *)
Theorem report_counts_partition rs name n t report :
  _print_results rs name n t = Ok report ->
  rp_successful report + rp_failed report = Stats.len rs /\
  0 <= rp_successful report <= Stats.len rs /\
  0 <= rp_failed report <= Stats.len rs.
Proof.
  intros H. apply _print_results_inv in H as (_ & _ & -> & ->).
  unfold Stats.len.
  pose proof (filter_partition_length success rs).
  pose proof (filter_length_le success rs).
  pose proof (filter_length_le (fun r => negb (success r)) rs).
  lia.
Qed.

Lemma report_counts_partition_witness :
  exists report,
    _print_results [ok_outcome 3; failed_outcome 5; ok_outcome 4] "scenario" 3 1 = Ok report /\
    rp_successful report + rp_failed report = 3.
Proof.
  assert (Hrun : exists report,
             _print_results [ok_outcome 3; failed_outcome 5; ok_outcome 4] "scenario" 3 1
             = Ok report) by (eexists; vm_compute; reflexivity).
  destruct Hrun as [report Hrun]. exists report. split; [exact Hrun|].
  exact (proj1 (report_counts_partition _ _ _ _ _ Hrun)).
Defined.

End ReporterProperties.

(** ** The reporter: the latency figures *)

Section LatencyOrder.
Import Stats.

Lemma fold_min_spec xs : forall a,
  let m := fold_left (fun a b => if Qlt_le_dec b a then b else a) xs a in
  (m = a \/ In m xs) /\ (m <= a)%Q /\ (forall x, In x xs -> (m <= x)%Q).
Proof.
  induction xs as [|b xs IH]; intros a; simpl.
  - split; [auto|]. split; [apply Qle_refl | tauto].
  - destruct (Qlt_le_dec b a) as [Hlt|Hle];
      [destruct (IH b) as ([E|Hin] & Hb & Hall)
      |destruct (IH a) as ([E|Hin] & Hb & Hall)].
    + rewrite E. repeat split; auto.
      * now apply Qlt_le_weak.
      * intros x [<-|Hx]; [apply Qle_refl | rewrite <- E; auto].
    + repeat split; auto.
      * apply Qle_trans with b; [assumption | now apply Qlt_le_weak].
      * intros x [<-|Hx]; auto.
    + rewrite E. repeat split; auto.
      * apply Qle_refl.
      * intros x [<-|Hx]; [assumption | rewrite <- E; auto].
    + repeat split; auto.
      intros x [<-|Hx]; [apply Qle_trans with a; assumption | auto].
Qed.

Lemma fold_max_spec xs : forall a,
  let m := fold_left (fun a b => if Qlt_le_dec a b then b else a) xs a in
  (m = a \/ In m xs) /\ (a <= m)%Q /\ (forall x, In x xs -> (x <= m)%Q).
Proof.
  induction xs as [|b xs IH]; intros a; simpl.
  - split; [auto|]. split; [apply Qle_refl | tauto].
  - destruct (Qlt_le_dec a b) as [Hlt|Hle];
      [destruct (IH b) as ([E|Hin] & Hb & Hall)
      |destruct (IH a) as ([E|Hin] & Hb & Hall)].
    + rewrite E. repeat split; auto.
      * now apply Qlt_le_weak.
      * intros x [<-|Hx]; [apply Qle_refl | rewrite <- E; auto].
    + repeat split; auto.
      * apply Qle_trans with b; [now apply Qlt_le_weak | assumption].
      * intros x [<-|Hx]; auto.
    + rewrite E. repeat split; auto.
      * apply Qle_refl.
      * intros x [<-|Hx]; [assumption | rewrite <- E; auto].
    + repeat split; auto.
      intros x [<-|Hx]; [apply Qle_trans with a; assumption | auto].
Qed.

(** [min] and [max] return an element that bounds all the others. *)
Lemma Qmin_list_spec xs m :
  Qmin_list xs = Ok m -> In m xs /\ forall x, In x xs -> (m <= x)%Q.
Proof.
  destruct xs as [|a xs]; simpl; [discriminate|]. intros [= <-].
  destruct (fold_min_spec xs a) as ([E|Hin] & Ha & Hall).
  - split; [left; now rewrite E|]. intros x [<-|Hx]; auto.
  - split; [now right|]. intros x [<-|Hx]; auto.
Qed.

Lemma Qmax_list_spec xs m :
  Qmax_list xs = Ok m -> In m xs /\ forall x, In x xs -> (x <= m)%Q.
Proof.
  destruct xs as [|a xs]; simpl; [discriminate|]. intros [= <-].
  destruct (fold_max_spec xs a) as ([E|Hin] & Ha & Hall).
  - split; [left; now rewrite E|]. intros x [<-|Hx]; auto.
  - split; [now right|]. intros x [<-|Hx]; auto.
Qed.











End LatencyOrder.

Section LatencyFigures.
Import Stats.





(** With exactly one successful outcome, the mean, the minimum and the
    maximum are its response time, and the median and the p95 are 0. *)
Theorem single_success_report rs name n t report r :
  _print_results rs name n t = Ok report ->
  filter success rs = [r] ->
  (rp_avg_response report == response_time_ms r)%Q /\
  rp_min_response report = response_time_ms r /\
  rp_max_response report = response_time_ms r /\
  rp_p50_response report = 0%Q /\
  rp_p95_response report = 0%Q.
Proof.
  intros H Hone.
  apply _print_results_inv in H as (H & _).
  unfold successful_times in H. rewrite Hone in H. simpl in H.
  injection H as <- <- <- <- <-.
  repeat split; try reflexivity.
  unfold Qsum, len. simpl. field.
Qed.

Lemma single_success_report_witness :
  exists report,
    _print_results [failed_outcome 9; ok_outcome 7] "scenario" 2 1 = Ok report /\
    (rp_avg_response report == 7)%Q /\ rp_min_response report = 7%Q /\
    rp_max_response report = 7%Q /\ rp_p50_response report = 0%Q /\
    rp_p95_response report = 0%Q.
Proof.
  assert (Hrun : exists report,
             _print_results [failed_outcome 9; ok_outcome 7] "scenario" 2 1 = Ok report)
    by (eexists; vm_compute; reflexivity).
  destruct Hrun as [report Hrun]. exists report. split; [exact Hrun|].
  exact (single_success_report _ _ _ _ _ (ok_outcome 7) Hrun eq_refl).
Defined.

End LatencyFigures.

(** ** The reporter: the breakdown by endpoint *)

Section EndpointBreakdown.
Local Open Scope result_scope.

Lemma insert_str_iff x y l : In x (insert_str y l) <-> x = y \/ In x l.
Proof.
  induction l as [|z l IH]; simpl.
  - intuition.
  - destruct (String.leb y z); simpl; [intuition|]. rewrite IH. intuition.
Qed.

Lemma insert_str_NoDup y l : NoDup l -> ~ In y l -> NoDup (insert_str y l).
Proof.
  induction l as [|z l IH]; simpl; intros Hnd Hni.
  - constructor; [tauto | constructor].
  - destruct (String.leb y z); [now constructor|].
    inversion Hnd as [|? ? Hz Hl]; subst. constructor.
    + rewrite insert_str_iff. intros [->|H]; [apply Hni; now left | contradiction].
    + apply IH; [assumption | intro; apply Hni; now right].
Qed.

Lemma insert_str_Sorted y l :
  Sorted (fun a b => String.leb a b = true) l ->
  Sorted (fun a b => String.leb a b = true) (insert_str y l).
Proof.
  induction l as [|z l IH]; simpl; intros Hs.
  - repeat constructor.
  - destruct (String.leb y z) eqn:E.
    + constructor; [assumption | now constructor].
    + inversion Hs as [|? ? Hl Hhd]; subst. constructor; [now apply IH|].
      destruct l as [|u l]; simpl.
      * constructor. destruct (String.leb_total y z); congruence.
      * destruct (String.leb y u); constructor.
        -- destruct (String.leb_total y z); congruence.
        -- now inversion Hhd.
Qed.

Lemma sorted_set_spec xs :
  NoDup (sorted_set xs) /\
  Sorted (fun a b => String.leb a b = true) (sorted_set xs) /\
  forall x, In x (sorted_set xs) <-> In x xs.
Proof.
  unfold sorted_set.
  pose proof (NoDup_nodup string_dec xs) as Hnd.
  assert (Hin : forall x, In x (nodup string_dec xs) <-> In x xs)
    by (intro; apply nodup_In).
  revert Hnd Hin. generalize (nodup string_dec xs) as l. intros l Hnd.
  revert xs. induction Hnd as [|y l Hni Hnd IH]; intros xs Hin; simpl.
  - repeat split; try constructor; try apply Hin; intros H; now apply Hin in H.
  - destruct (IH l (fun x => iff_refl _)) as (Hn & Hs & Hi).
    repeat split.
    + apply insert_str_NoDup; [assumption | now rewrite Hi].
    + now apply insert_str_Sorted.
    + intros H. apply Hin. apply insert_str_iff in H as [->|H];
        [now left | right; now apply Hi].
    + intros H. apply Hin in H. apply insert_str_iff.
      destruct H as [->|H]; [now left | right; now apply Hi].
Qed.

(** The lines of the breakdown, in closed form. *)
Lemma endpoint_lines_inv all eps lines :
  endpoint_lines all eps = Ok lines ->
  map line_label lines = eps /\
  map line_total lines = map (fun ep => Stats.len (with_endpoint ep all)) eps /\
  map line_success lines
  = map (fun ep => Stats.len (filter success (with_endpoint ep all))) eps /\
  Forall (fun line =>
            line_total line <> 0 /\
            line_rate line
            = (inject_Z (line_success line) / inject_Z (line_total line) * 100)%Q) lines.
Proof.
  revert lines. induction eps as [|ep eps IH]; simpl; intros lines H.
  - injection H as <-. simpl. auto.
  - fold (with_endpoint ep all) in H.
    unfold py_div at 1 in H.
    destruct (Qeq_bool (inject_Z (Stats.len (with_endpoint ep all))) 0) eqn:E;
      [discriminate|]. simpl in H.
    apply rbind_Ok_inv in H as (lines' & Hl & H). injection H as <-.
    destruct (IH _ Hl) as (H1 & H2 & H3 & H4).
    simpl. unfold line_label, line_total, line_success, line_rate in *. simpl.
    rewrite H1, H2, H3. repeat split. constructor; [|assumption].
    simpl. split; [|reflexivity].
    intros Hz. rewrite Hz in E. discriminate.
Qed.

Lemma Zsum_indicator e l :
  NoDup l ->
  Zsum (map (fun ep => if String.eqb e ep then 1 else 0) l)
  = if in_dec string_dec e l then 1 else 0.
Proof.
  induction 1 as [|x l Hni Hnd IH]; simpl; [reflexivity|].
  rewrite IH. destruct (String.eqb_spec e x) as [->|Hne].
  - destruct (string_dec x x); [|congruence].
    destruct (in_dec string_dec x l); [contradiction | reflexivity].
  - destruct (string_dec x e); [congruence|].
    destruct (in_dec string_dec e l); reflexivity.
Qed.

Lemma filter_true {A} (l : list A) : filter (fun _ => true) l = l.
Proof. induction l as [|x l IH]; simpl; [reflexivity | now rewrite IH]. Qed.

Lemma Zsum_map_add {A} (f g : A -> Z) l :
  Zsum (map (fun x => f x + g x) l) = Zsum (map f l) + Zsum (map g l).
Proof. induction l as [|x l IH]; simpl; [reflexivity | rewrite IH; lia]. Qed.

(** Over distinct labels that cover the outcomes, the outcomes of each label
    add up to all the outcomes. *)
Lemma with_endpoint_sum (f : TestResult -> bool) labels rs :
  NoDup labels -> (forall r, In r rs -> In (endpoint r) labels) ->
  Zsum (map (fun ep => Stats.len (filter f (with_endpoint ep rs))) labels)
  = Stats.len (filter f rs).
Proof.
  intros Hnd. induction rs as [|r rs IH]; intros Hcov.
  - clear. induction labels as [|l ls IHl]; [reflexivity|].
    simpl in *. rewrite IHl. reflexivity.
  - rewrite (map_ext_in _
      (fun ep => (if String.eqb (endpoint r) ep then (if f r then 1 else 0) else 0)
                 + Stats.len (filter f (with_endpoint ep rs)))).
    + rewrite Zsum_map_add, IH by (intros; apply Hcov; now right).
      assert (Hind : Zsum (map (fun ep => if String.eqb (endpoint r) ep
                                          then (if f r then 1 else 0) else 0) labels)
                     = if f r then 1 else 0).
      { destruct (f r).
        - rewrite Zsum_indicator by assumption.
          destruct (in_dec string_dec (endpoint r) labels) as [|Hn];
            [reflexivity | exfalso; apply Hn, Hcov; now left].
        - clear. induction labels as [|l ls IHl]; simpl; [reflexivity|].
          rewrite IHl. now destruct (String.eqb (endpoint r) l). }
      rewrite Hind. unfold Stats.len. cbn [filter].
      destruct (f r); cbn [List.length]; lia.
    + intros ep _. unfold with_endpoint, Stats.len. cbn [filter].
      destruct (String.eqb (endpoint r) ep); cbn [filter]; [|lia].
      destruct (f r); cbn [List.length]; lia.
Qed.

(** The breakdown lists each endpoint label that occurs once, in ascending
    order; its lines count every outcome and every success exactly once,
    and no line is empty. *)
Theorem endpoint_breakdown_partitions rs name n t report :
  _print_results rs name n t = Ok report ->
  let lines := rp_endpoints report in
  NoDup (map line_label lines) /\
  Sorted (fun a b => String.leb a b = true) (map line_label lines) /\
  (forall ep, In ep (map line_label lines) <-> exists r, In r rs /\ endpoint r = ep) /\
  Zsum (map line_total lines) = Stats.len rs /\
  Zsum (map line_success lines) = rp_successful report /\
  Forall (fun line => 0 <= line_success line <= line_total line /\
                      1 <= line_total line) lines.
Proof.
  intros H lines.
  pose proof (_print_results_inv _ _ _ _ _ H) as (_ & _ & Hsucc & _).
  apply _print_results_rates in H as (_ & _ & _ & Hlines & _).
  fold lines in Hlines.
  apply endpoint_lines_inv in Hlines as (Hlab & Htot & Hsuc & Hall).
  destruct (sorted_set_spec (map endpoint rs)) as (Hnd & Hsorted & Hin).
  assert (Hcov : forall r, In r rs -> In (endpoint r) (sorted_set (map endpoint rs)))
    by (intros r Hr; apply Hin; now apply in_map).
  rewrite Hlab, Htot, Hsuc, Hsucc.
  split; [assumption|]. split; [assumption|]. split; [|split; [|split]].
  - intros ep. rewrite Hin, in_map_iff. split; intros (r & A & B); eauto.
  - pose proof (with_endpoint_sum (fun _ => true) _ rs Hnd Hcov) as Hsum.
    rewrite filter_true in Hsum. rewrite <- Hsum.
    f_equal. apply map_ext. intros ep. now rewrite filter_true.
  - apply (with_endpoint_sum success _ rs Hnd Hcov).
  - assert (Hform : Forall (fun line =>
               exists ep, line_total line = Stats.len (with_endpoint ep rs) /\
                          line_success line
                          = Stats.len (filter success (with_endpoint ep rs))) lines).
    { clear - Htot Hsuc. revert Htot Hsuc.
      generalize (sorted_set (map endpoint rs)) as eps.
      induction lines as [|l ls IH]; intros [|ep eps] Ht Hs; try discriminate;
        constructor.
      - injection Ht as Ht1 _. injection Hs as Hs1 _. eauto.
      - injection Ht as _ Ht2. injection Hs as _ Hs2. eauto. }
    rewrite Forall_forall in *. intros line Hl.
    destruct (Hform line Hl) as (ep & Ht & Hs). destruct (Hall line Hl) as [Hnz _].
    rewrite Ht, Hs in *. unfold Stats.len in *.
    pose proof (filter_length_le success (with_endpoint ep rs)). lia.
Qed.

Lemma endpoint_breakdown_partitions_witness :
  exists report,
    _print_results [ok_outcome 3; failed_outcome 5; ok_outcome 4] "scenario" 3 1 = Ok report /\
    Zsum (map line_total (rp_endpoints report)) = 3.
Proof.
  assert (Hrun : exists report,
             _print_results [ok_outcome 3; failed_outcome 5; ok_outcome 4] "scenario" 3 1
             = Ok report) by (eexists; vm_compute; reflexivity).
  destruct Hrun as [report Hrun]. exists report. split; [exact Hrun|].
  exact (proj1 (proj2 (proj2 (proj2 (endpoint_breakdown_partitions _ _ _ _ _ Hrun))))).
Defined.

End EndpointBreakdown.

(** ** The session: lazy creation, reuse, closing *)

Section SessionLifecycle.

Lemma nth_update_same {A} i (x d : A) l :
  (i < List.length l)%nat -> nth i (update i x l) d = x.
Proof.
  revert i; induction l as [|y l IH]; intros [|i] H; simpl in *; try lia.
  - reflexivity.
  - apply IH. lia.
Qed.

Lemma nth_update_other {A} i j (x d : A) l :
  i <> j -> nth j (update i x l) d = nth j l d.
Proof.
  revert i j; induction l as [|y l IH]; intros [|i] [|j] H; simpl; try reflexivity.
  - congruence.
  - apply IH. congruence.
Qed.

(** [_get_session] always hands out an open session, which is then
    [self._session]: the current one when there is one and it is open,
    otherwise a new one with a 30 s timeout.  It closes no session, and
    asking again gives the same session without creating one. *)
Theorem get_session_open_and_reused w s created w' :
  _get_session w = (s, created, w') ->
  session_open w' s /\
  _get_session w' = (s, false, w') /\
  (created = false <-> session_open w s) /\
  (created = false -> w' = w) /\
  (created = true ->
   s = mkSession (List.length (heap w)) 30 /\ heap w' = (heap w ++ [false])%list) /\
  (forall s0, (session_id s0 < List.length (heap w))%nat -> closed w' s0 = closed w s0) /\
  results (self w') = results (self w) /\ sem_value w' = sem_value w.
Proof.
  intros H.
  assert (Hcases : (created = false /\ w' = w /\ session_open w s) \/
                   (created = true /\ ~ (exists s1, session_open w s1) /\
                    s = mkSession (List.length (heap w)) 30 /\
                    w' = mkWorld (mkRunner (base_url (self w)) (tenants (self w))
                                           (results (self w)) (Some s))
                                 (heap w ++ [false]) (sem_value w))).
  { unfold _get_session in H.
    destruct (_session (self w)) as [s1|] eqn:Hs.
    - destruct (closed w s1) eqn:Hc.
      + right. injection H as <- <- <-. repeat split.
        intros (s2 & Hs2 & Hc2). congruence.
      + left. injection H as <- <- <-. repeat split; assumption.
    - right. injection H as <- <- <-. repeat split.
      intros (s2 & Hs2 & _). congruence. }
  destruct Hcases as [(-> & -> & Hopen) | (-> & Hnone & -> & ->)].
  - split; [assumption|]. split; [now apply _get_session_open|].
    repeat split; auto; try discriminate; apply Hopen.
  - assert (Hopen : session_open
                      (mkWorld (mkRunner (base_url (self w)) (tenants (self w))
                                         (results (self w))
                                         (Some (mkSession (List.length (heap w)) 30)))
                               (heap w ++ [false]) (sem_value w))
                      (mkSession (List.length (heap w)) 30)).
    { split; [reflexivity|]. unfold closed. simpl.
      rewrite app_nth2 by lia. now rewrite Nat.sub_diag. }
    split; [assumption|]. split; [now apply _get_session_open|].
    repeat split; auto; try discriminate.
    + intros Ho. exfalso. apply Hnone. eauto.
    + intros s0 Hs0. unfold closed. simpl. now rewrite app_nth1.
Qed.

Lemma get_session_open_and_reused_witness :
  let w := mkWorld LoadTestRunner [true] 3 in
  exists s w',
    _get_session w = (s, true, w') /\
    session_open w' s /\ _get_session w' = (s, false, w').
Proof.
  intros w. do 2 eexists. split; [reflexivity|].
  refine (let H := get_session_open_and_reused w _ true _ eq_refl in
          conj (proj1 H) (proj1 (proj2 H))).
Defined.

(** [close_session] returns normally; it closes [self._session] when there
    is one, with one [close()] call, and does nothing otherwise.  The
    outcomes and the other sessions are left as they are, closing again
    changes nothing, and the next [_get_session] creates a new session. *)
Theorem close_session_closes oracle w tr r w' tr' rest :
  drun close_session oracle w tr = Some (r, w', tr', rest) ->
  r = Ok tt /\
  results (self w') = results (self w) /\
  (_session (self w) = None -> w' = w /\ tr' = DaSelf :: tr) /\
  (forall s, _session (self w) = Some s ->
     tr' = DaSessionClose s :: DaSelf :: tr /\
     closed w' s = true /\
     (forall s0, session_id s0 <> session_id s -> closed w' s0 = closed w s0) /\
     close_in_heap s w' = w' /\
     exists s2 w2, _get_session w' = (s2, true, w2) /\
                   session_id s2 = List.length (heap w)).
Proof.
  unfold close_session. intros H.
  destruct oracle as [|a1 oracle]; [discriminate|].
  cbn [drun bind trigger dhandle] in H.
  destruct (_session (self w)) as [s|] eqn:Hs.
  - destruct oracle as [|a2 oracle]; [discriminate|].
    cbn [drun bind trigger dhandle] in H. injection H as <- <- <- _.
    split; [reflexivity|]. split; [reflexivity|].
    split; [discriminate|]. intros s' [= <-].
    assert (Hclosed : closed (close_in_heap s w) s = true).
    { unfold closed, close_in_heap. simpl.
      destruct (Nat.lt_ge_cases (session_id s) (List.length (heap w))) as [Hlt|Hge].
      - now apply nth_update_same.
      - apply nth_overflow. now rewrite update_length. }
    repeat split.
    + assumption.
    + intros s0 Hne. unfold closed, close_in_heap. simpl.
      apply nth_update_other. congruence.
    + unfold close_in_heap. simpl. now rewrite update_update.
    + unfold _get_session. cbn [close_in_heap self _session]. rewrite Hs, Hclosed.
      do 2 eexists. split; [reflexivity|]. simpl. apply update_length.
  - injection H as <- <- <- _. repeat split; try reflexivity; discriminate.
Qed.

Lemma close_session_closes_witness :
  let w := mkWorld (mkRunner "http://localhost:5000" ["company-a"]%string []
                             (Some session0)) [false] 1 in
  exists w' tr' rest,
    drun close_session [danswer 0 []; danswer 0 []] w [] = Some (Ok tt, w', tr', rest) /\
    closed w' session0 = true.
Proof.
  intros w. do 3 eexists. split; [reflexivity|].
  refine (proj1 (proj2 (proj2 (proj2 (proj2
            (close_session_closes [danswer 0 []; danswer 0 []] w [] _ _ _ _ eq_refl)))
            session0 eq_refl))).
Defined.

End SessionLifecycle.

(** ** The endpoint operations: what they send and what they return *)

Section OperationProperties.

Lemma appended_app tr1 tr2 : appended (tr1 ++ tr2) = (appended tr1 ++ appended tr2)%list.
Proof.
  induction tr1 as [|ac tr1 IH]; [reflexivity|].
  destruct ac; simpl; rewrite ?IH; reflexivity.
Qed.

(** What a run of a coroutine does to the semaphore and to the outcome
    collection is what its actions say. *)
Lemma run_task_effects {A} (p : Task A) : forall answers w tr r w' tr' rest,
  run_task p answers w tr = Some (r, w', tr', rest) ->
  exists new,
    tr' = (new ++ tr)%list /\
    sem_value w' + tally slot_weight new = sem_value w /\
    results (self w') = (results (self w) ++ rev (appended new))%list.
Proof.
  induction p as [a|e|X ev k IH]; simpl; intros answers w tr r w' tr' rest H.
  - injection H as _ <- <- _. exists []. simpl. rewrite app_nil_r. repeat split; lia.
  - injection H as _ <- <- _. exists []. simpl. rewrite app_nil_r. repeat split; lia.
  - destruct answers as [|a answers]; [discriminate|].
    destruct (handle ev a w) as [[[x ac] w1]|] eqn:Hh; [|discriminate].
    apply IH in H as (new & -> & Hsem & Hres).
    apply handle_world_inv in Hh as (Hs1 & _ & Hr1).
    exists (new ++ [ac])%list. repeat split.
    + now rewrite <- app_assoc.
    + rewrite tally_app. simpl. lia.
    + rewrite Hres, Hr1, appended_app, rev_app_distr, app_assoc. reflexivity.
Qed.

(** An operation sends exactly one request, on the session it was given,
    with the method, the URL and the tenant header of the operation; it
    does not touch the semaphore or the outcome collection; and it raises
    only what does not derive from [Exception] and was raised by the client
    call. *)
Theorem operation_sends_one_request base op session tenant answers w r w' tr rest :
  run_task (invoke base op session tenant) answers w [] = Some (r, w', tr, rest) ->
  (exists req,
      sends tr = [req] /\ send_sessions tr = [session] /\
      rq_method req = op_method op /\ rq_url req = op_url base op /\
      In ("X-Tenant-Slug"%string, tenant) (rq_headers req) /\
      In ("Accept"%string, "application/json"%string) (rq_headers req)) /\
  (forall e, r = Raised e ->
             is_Exception e = false /\ exists ac, In ac tr /\ client_failure ac = Some e) /\
  sem_value w' = sem_value w /\ results (self w') = results (self w).
Proof.
  intros Hrun.
  assert (Hpure : tally slot_weight tr = 0 /\ appended tr = []).
  { refine (run_task_along (fun _ => True)
              (fun tr _ => tally slot_weight tr = 0 /\ appended tr = [])
              _ _ _ _ _ _ _ _ _ Hrun).
    clear. destruct op; unfold_ops; run_op; try exact I; reflexivity. }
  destruct Hpure as [Hslot Happ].
  destruct (run_task_effects _ _ _ _ _ _ _ _ Hrun) as (new & Hnew & Hsem & Hres).
  rewrite app_nil_r in Hnew. subst new. rewrite Hslot in Hsem. rewrite Happ in Hres.
  simpl in Hres. rewrite app_nil_r in Hres.
  split; [|split; [|split; [lia | assumption]]].
  - refine (run_task_along (fun _ => True)
              (fun tr _ => exists req,
                 sends tr = [req] /\ send_sessions tr = [session] /\
                 rq_method req = op_method op /\ rq_url req = op_url base op /\
                 In ("X-Tenant-Slug"%string, tenant) (rq_headers req) /\
                 In ("Accept"%string, "application/json"%string) (rq_headers req))
              _ _ _ _ _ _ _ _ _ Hrun).
    clear. destruct op; unfold_ops; run_op; try exact I;
      eexists; (repeat split; try reflexivity); simpl; auto 6.
  - refine (run_task_along (fun _ => True)
              (fun tr r => forall e, r = Raised e ->
                 is_Exception e = false /\
                 exists ac, In ac tr /\ client_failure ac = Some e)
              _ _ _ _ _ _ _ _ _ Hrun).
    clear. destruct op; unfold_ops; run_op; try exact I;
      match goal with
      | H : Ok _ = Raised _ |- _ => discriminate H
      | H : Raised _ = Raised _ |- _ => injection H as <-
      end;
      try congruence;
      eexists; (split; [simpl; left; reflexivity | reflexivity]).
Qed.

Lemma operation_sends_one_request_witness :
  exists r w' tr rest req,
    run_task (invoke "http://localhost:5000" OpList session0 "company-a")
      refused_answers world0 [] = Some (r, w', tr, rest) /\
    sends tr = [req] /\ rq_method req = "GET"%string.
Proof.
  destruct (proj1 (operation_sends_one_request "http://localhost:5000" OpList session0
                     "company-a" refused_answers world0 _ _ _ _ eq_refl))
    as (req & Hs & _ & Hm & _).
  do 4 eexists. exists req. split; [reflexivity|]. split; assumption.
Defined.

(** When the server answers, whatever the status, and the response is
    released without error, the operation returns an outcome with that
    status, the label of the operation, [success] telling whether the status
    is the expected one, and the time elapsed between the first clock
    reading and the one taken when the response arrived. *)
Theorem operation_records_response base op session tenant answers w r w' tr rest st :
  run_task (invoke base op session tenant) answers w [] = Some (r, w', tr, rest) ->
  In (AcReply (inr st)) tr -> In (AcResponseRelease None) tr ->
  exists res t_start t_end tr0,
    r = Ok res /\
    tr = AcResponseRelease None :: AcTime t_end :: AcReply (inr st) :: tr0 /\
    first_reading tr = Some t_start /\
    endpoint res = endpoint_label op /\
    status_code res = st /\
    success res = (st =? expected_status op) /\
    response_time_ms res = ((t_end - t_start) * 1000)%Q.
Proof.
  intros Hrun Hreply Hrel. revert Hreply Hrel.
  refine (run_task_along (fun _ => True)
            (fun tr r =>
               In (AcReply (inr st)) tr -> In (AcResponseRelease None) tr ->
               exists res t_start t_end tr0,
                 r = Ok res /\
                 tr = AcResponseRelease None :: AcTime t_end :: AcReply (inr st) :: tr0 /\
                 first_reading tr = Some t_start /\
                 endpoint res = endpoint_label op /\
                 status_code res = st /\
                 success res = (st =? expected_status op) /\
                 response_time_ms res = ((t_end - t_start) * 1000)%Q)
            _ _ _ _ _ _ _ _ _ Hrun).
  clear. destruct op; unfold_ops; run_op; try exact I;
    cbn [In] in *;
    repeat match goal with
           | H : _ \/ _ |- _ => destruct H
           | H : False |- _ => destruct H
           | H : _ = _ |- _ => discriminate H
           | H : AcReply _ = AcReply _ |- _ => injection H as ->
           end;
    do 4 eexists; repeat split; reflexivity.
Qed.

Lemma operation_records_response_witness :
  exists res w' tr rest,
    run_task (invoke "http://localhost:5000" (OpGetByID "42") session0 "company-a")
      not_found_answers world0 [] = Some (Ok res, w', tr, rest) /\
    status_code res = 404 /\ success res = false.
Proof.
  destruct (operation_records_response "http://localhost:5000" (OpGetByID "42") session0
              "company-a" not_found_answers world0 _ _ _ _ 404 eq_refl)
    as (res & t0 & t1 & tr0 & Hr & _ & _ & _ & Hst & Hsucc & _).
  - right. right. left. reflexivity.
  - left. reflexivity.
  - exists res. do 3 eexists. rewrite <- Hr. split; [reflexivity|]. split; assumption.
Defined.

End OperationProperties.

Section UnitOfWorkProperties.

(** The body that [create_product] posts: the generated name, price, stock
    and SKU are within their ranges, the other fields are fixed, and the
    request carries the JSON content type and the tenant. *)
Theorem create_product_payload base session tenant answers w r w' tr rest :
  run_task (create_product base session tenant) answers w [] = Some (r, w', tr, rest) ->
  exists req pd n k t,
    sends tr = [req] /\ rq_json req = Some pd /\
    rq_headers req = [("Content-Type", "application/json");
                      ("Accept", "application/json");
                      ("X-Tenant-Slug", tenant)]%string /\
    pd_name pd = ("Load Test Product " ++ str n)%string /\ 1 <= n <= 100000 /\
    pd_description pd = "Product generated during load testing"%string /\
    10000 <= pd_price pd <= 100000 /\
    10 <= pd_stockQuantity pd <= 100 /\
    pd_category pd = "Electronics"%string /\
    pd_sku pd = ("SKU-" ++ str (int (t * 1000)) ++ "-" ++ str k)%string /\
    1 <= k <= 1000 /\ In (AcTime t) tr.
Proof.
  intros Hrun.
  refine (run_task_along (fun _ => True)
            (fun tr _ => exists req pd n k t,
               sends tr = [req] /\ rq_json req = Some pd /\
               rq_headers req = [("Content-Type", "application/json");
                                 ("Accept", "application/json");
                                 ("X-Tenant-Slug", tenant)]%string /\
               pd_name pd = ("Load Test Product " ++ str n)%string /\ 1 <= n <= 100000 /\
               pd_description pd = "Product generated during load testing"%string /\
               10000 <= pd_price pd <= 100000 /\
               10 <= pd_stockQuantity pd <= 100 /\
               pd_category pd = "Electronics"%string /\
               pd_sku pd = ("SKU-" ++ str (int (t * 1000)) ++ "-" ++ str k)%string /\
               1 <= k <= 1000 /\ In (AcTime t) tr)
            _ _ _ _ _ _ _ _ _ Hrun).
  clear. unfold_ops; run_op; try exact I;
    do 5 eexists; (repeat split; try reflexivity; try eassumption);
    simpl; auto 12.
Qed.

Lemma create_product_payload_witness :
  exists r w' tr rest req pd,
    run_task (create_product "http://localhost:5000" session0 "company-a")
      create_answers world0 [] = Some (r, w', tr, rest) /\
    sends tr = [req] /\ rq_json req = Some pd /\ 10000 <= pd_price pd <= 100000.
Proof.
  destruct (create_product_payload "http://localhost:5000" session0 "company-a"
              create_answers world0 _ _ _ _ eq_refl)
    as (req & pd & n & k & t & Hs & Hj & _ & _ & _ & _ & Hp & _).
  do 4 eexists. exists req, pd. split; [reflexivity|]. auto.
Defined.

(** A unit of work gives its slot back whether it returns or raises.  When
    it returns it has appended exactly one outcome; when it raises it has
    appended none, and what it raises does not derive from [Exception] and
    was raised by the client call. *)
Theorem unit_of_work_releases_slot base tenant_set answers w r w' tr rest :
  run_task (bounded_request base tenant_set) answers w [] = Some (r, w', tr, rest) ->
  sem_value w' = sem_value w /\
  match r with
  | Ok _ => exists res, results (self w') = (results (self w) ++ [res])%list
  | Raised e =>
      results (self w') = results (self w) /\ is_Exception e = false /\
      exists ac, In ac tr /\ client_failure ac = Some e
  end.
Proof.
  intros Hrun.
  assert (H : tally slot_weight tr = 0 /\
              match r with
              | Ok _ => exists res, appended tr = [res]
              | Raised e =>
                  appended tr = [] /\ is_Exception e = false /\
                  exists ac, In ac tr /\ client_failure ac = Some e
              end).
  { refine (run_task_along (fun _ => True)
              (fun tr r =>
                 tally slot_weight tr = 0 /\
                 match r with
                 | Ok _ => exists res, appended tr = [res]
                 | Raised e =>
                     appended tr = [] /\ is_Exception e = false /\
                     exists ac, In ac tr /\ client_failure ac = Some e
                 end)
              _ _ _ _ _ _ _ _ _ Hrun).
    clear. unfold bounded_request, async_with_semaphore. unfold_ops.
    repeat first
      [ along_step
      | match goal with
        | |- context [Qlt_le_dec ?a ?b] => destruct (Qlt_le_dec a b)
        | |- context [is_Exception ?e] => destruct (is_Exception e) eqn:?
        end ];
      try exact I; try reflexivity; try congruence;
      try (eexists; reflexivity).
    all: eexists; split; [simpl; right; left; reflexivity | reflexivity]. }
  destruct H as [Hslot Hr].
  destruct (run_task_effects _ _ _ _ _ _ _ _ Hrun) as (new & Hnew & Hsem & Hres).
  rewrite app_nil_r in Hnew. subst new. rewrite Hslot in Hsem.
  split; [lia|].
  destruct r as [u|e].
  - destruct Hr as [res Happ]. exists res. now rewrite Hres, Happ.
  - destruct Hr as (Happ & He & Hac). rewrite Hres, Happ. simpl.
    rewrite app_nil_r. auto.
Qed.

Lemma unit_of_work_releases_slot_witness :
  exists w' tr rest,
    run_task (bounded_request "http://localhost:5000" ["company-a"]%string)
      (map snd interrupted_schedule) world0 []
    = Some (Raised KeyboardInterrupt, w', tr, rest) /\
    sem_value w' = sem_value world0 /\ results (self w') = results (self world0).
Proof.
  do 3 eexists. split; [reflexivity|].
  refine (let H := unit_of_work_releases_slot "http://localhost:5000" ["company-a"]%string
                     (map snd interrupted_schedule) world0 _ _ _ _ eq_refl in
          conj (proj1 H) (proj1 (proj2 H))).
Defined.

(** A unit of work picks one of the runner's tenants and sends its one
    request for that tenant, on the session that [_get_session] returned. *)
Theorem unit_of_work_request base tenant_set answers w r w' tr rest :
  run_task (bounded_request base tenant_set) answers w [] = Some (r, w', tr, rest) ->
  exists tenant req s created,
    In tenant tenant_set /\ In (AcChoice tenant) tr /\
    sends tr = [req] /\
    In ("X-Tenant-Slug"%string, tenant) (rq_headers req) /\
    In ("Accept"%string, "application/json"%string) (rq_headers req) /\
    In (AcGetSession s created) tr /\ send_sessions tr = [s].
Proof.
  intros Hrun.
  refine (run_task_along (fun _ => True)
            (fun tr _ => exists tenant req s created,
               In tenant tenant_set /\ In (AcChoice tenant) tr /\
               sends tr = [req] /\
               In ("X-Tenant-Slug"%string, tenant) (rq_headers req) /\
               In ("Accept"%string, "application/json"%string) (rq_headers req) /\
               In (AcGetSession s created) tr /\ send_sessions tr = [s])
            _ _ _ _ _ _ _ _ _ Hrun).
  clear. unfold bounded_request, async_with_semaphore. unfold_ops.
  repeat first
    [ along_step
    | match goal with
      | |- context [Qlt_le_dec ?a ?b] => destruct (Qlt_le_dec a b)
      | |- context [is_Exception ?e] => destruct (is_Exception e) eqn:?
      end ];
    try exact I;
    do 4 eexists; (split; [eassumption|]);
    (repeat split; try reflexivity); simpl;
    repeat (first [left; reflexivity | right]).
Qed.

Lemma unit_of_work_request_witness :
  exists r w' tr rest tenant,
    run_task (bounded_request "http://localhost:5000" ["company-a"]%string)
      get_by_id_answers world0 [] = Some (r, w', tr, rest) /\
    In tenant ["company-a"]%string /\ In (AcChoice tenant) tr.
Proof.
  destruct (unit_of_work_request "http://localhost:5000" ["company-a"]%string
              get_by_id_answers world0 _ _ _ _ eq_refl)
    as (tenant & req & s & c & Hin & Hch & _).
  do 4 eexists. exists tenant. split; [reflexivity|]. auto.
Defined.

End UnitOfWorkProperties.

(** ** The scenario runner: edge cases, errors and what it leaves behind *)

Section ScenarioProperties.

(** On every path a unit of work appends only well-formed outcomes, and it
    raises only what the client call raised outside [Exception]. *)
Lemma bounded_request_outcomes base tenant_set :
  along unit_outcomes_ok unit_raises_client_only (bounded_request base tenant_set) [].
Proof.
  unfold bounded_request, async_with_semaphore, unit_outcomes_ok,
    unit_raises_client_only. unfold_ops.
  repeat first
    [ along_step
    | match goal with
      | |- context [Qlt_le_dec ?a ?b] => destruct (Qlt_le_dec a b)
      | |- context [is_Exception ?e] => destruct (is_Exception e) eqn:?
      | H : In _ (appended _) |- _ => cbn [appended In] in H
      | H : _ \/ _ |- _ => destruct H
      | H : False |- _ => destruct H
      | H : Ok _ = Raised _ |- _ => discriminate H
      | H : Raised _ = Raised _ |- _ => injection H as <-
      | H : ?x = ?res |- well_formed_outcome ?res => subst res
      end ];
    try exact I; try congruence.
  all: try (eexists; split; [simpl; right; left; reflexivity | reflexivity]).
  all: unfold well_formed_outcome; cbn.
  all: first
    [ exists BandList; split; [reflexivity|]; cbn;
      first [apply Z.eqb_eq | split; discriminate]
    | exists BandGetByID; split; [reflexivity|]; cbn;
      first [apply Z.eqb_eq | split; discriminate]
    | exists BandCreate; split; [reflexivity|]; cbn;
      first [apply Z.eqb_eq | split; discriminate] ].
Qed.

(** Whatever holds along each task at the start holds along the tasks at
    every point of every schedule. *)
Lemma steps_along I F sched : forall p p',
  steps sched p = Some p' ->
  (forall i t, nth_error (tasks p) i = Some t -> along I F t (local i (trace p))) ->
  forall i t, nth_error (tasks p') i = Some t -> along I F t (local i (trace p')).
Proof.
  induction sched as [|[j a] sched IH]; simpl; intros p p' H Hal.
  - now injection H as <-.
  - destruct (step j a p) as [p1|] eqn:Hs; [|discriminate].
    apply (IH p1 p' H). clear IH H.
    apply step_inv in Hs as (X & ev & k & x & ac & w' & Hn & Hh & ->).
    intros i t Hi. simpl in *. rewrite nth_error_update in Hi. rewrite local_cons.
    destruct (Nat.eqb_spec j i) as [<-|Hne]; [|auto].
    destruct (Nat.ltb j (List.length (tasks p))); [|discriminate].
    injection Hi as <-.
    specialize (Hal j _ Hn). simpl in Hal. destruct Hal as [_ Hk].
    apply Hk. eapply handle_observes; eassumption.
Qed.

Lemma scenario_pool_along w n c sched p :
  steps sched (scenario_pool w n c) = Some p ->
  forall i t, nth_error (tasks p) i = Some t ->
              along unit_outcomes_ok unit_raises_client_only t (local i (trace p)).
Proof.
  intros Hsteps. apply (steps_along _ _ _ _ _ Hsteps).
  intros i t Ht. simpl in Ht. apply scenario_tasks_nth in Ht as ->.
  apply bounded_request_outcomes.
Qed.

Lemma appended_In res tr : In res (appended tr) <-> In (AcAppend res) tr.
Proof.
  induction tr as [|ac tr IH]; simpl; [tauto|].
  destruct ac; simpl; rewrite IH;
    try (split; [intros H; now right | intros [H|H]; [discriminate | assumption]]).
  split; intros [H|H]; auto; left; congruence.
Qed.

End ScenarioProperties.

Section ScenarioEdgeCases.

(** With a negative [concurrency] the semaphore cannot be created:
    [run_scenario] raises [ValueError] after clearing the outcome
    collection, and no task is started. *)
Theorem run_scenario_negative_concurrency name n c oracle w tr r w' tr' rest :
  drun (run_scenario name n c) oracle w tr = Some (r, w', tr', rest) ->
  c < 0 ->
  r = Raised ValueError /\
  w' = set_results [] w /\
  exists t0, tr' = DaTime t0 :: DaResultsClear
                   :: DaPrint (OutScenarioHeader name n c) :: tr.
Proof.
  intros Hrun Hc. apply run_scenario_inv in Hrun.
  inversion Hrun; subst; try lia. eauto.
Qed.

Lemma run_scenario_negative_concurrency_witness :
  exists w' tr' rest,
    drun (run_scenario "bad" 5 (-1)) (sequential_oracle 0) world0 []
    = Some (Raised ValueError, w', tr', rest) /\
    w' = set_results [] world0.
Proof.
  do 3 eexists. split; [reflexivity|].
  refine (proj1 (proj2 (run_scenario_negative_concurrency "bad" 5 (-1)
                          (sequential_oracle 0) world0 [] _ _ _ _ eq_refl _))).
  lia.
Defined.

(** While the semaphore has no slot, no task of a scenario can move. *)
Lemma gather_run_blocked sched p base tenant_set :
  sem_value (world p) = 0 ->
  tasks p <> [] ->
  (forall i t, nth_error (tasks p) i = Some t -> t = bounded_request base tenant_set) ->
  gather_run sched p = None.
Proof.
  intros Hsem Hne Hts. destruct sched as [|[i a] sched]; simpl.
  - destruct (tasks p) as [|t ts] eqn:E; [congruence|].
    assert (Ht : t = bounded_request base tenant_set)
      by (apply (Hts 0%nat); rewrite ?E; reflexivity).
    subst t. reflexivity.
  - unfold step. destruct (nth_error (tasks p) i) as [t|] eqn:Ht; [|reflexivity].
    rewrite (Hts i t Ht). cbn. rewrite Hsem. reflexivity.
Qed.

(** With [concurrency = 0] and at least one request, [run_scenario] never
    ends, whatever the environment does: every task waits for a slot. *)
Theorem run_scenario_zero_slots_never_ends name n oracle w tr :
  0 < n ->
  drun (run_scenario name n 0) oracle w tr = None.
Proof.
  intros Hn.
  destruct (drun (run_scenario name n 0) oracle w tr) as [[[[r w'] tr'] rest]|] eqn:Hrun;
    [exfalso | reflexivity].
  apply run_scenario_inv in Hrun.
  assert (Hblocked : forall sched,
             gather_run sched (scenario_pool (set_results [] w) n 0) = None).
  { intros sched.
    apply (gather_run_blocked _ _ (base_url (self w)) (tenants (self w))).
    - reflexivity.
    - simpl. intros E. apply (f_equal (@List.length _)) in E.
      rewrite scenario_tasks_length in E. simpl in E. lia.
    - intros i t Ht. simpl in Ht. now apply scenario_tasks_nth in Ht. }
  inversion Hrun; subst; try lia;
    match goal with
    | H : gather_run ?s _ = Some _ |- _ => rewrite (Hblocked s) in H; discriminate
    end.
Qed.

Lemma run_scenario_zero_slots_never_ends_witness :
  drun (run_scenario "stuck" 3 0) (sequential_oracle 3) world0 [] = None.
Proof.
  apply run_scenario_zero_slots_never_ends. lia.
Defined.

(** With [num_requests = 0] nothing is sent and the reporter's division by
    [num_requests] makes [run_scenario] raise [ZeroDivisionError]. *)
Theorem run_scenario_zero_requests name c oracle w tr r w' tr' rest :
  drun (run_scenario name 0 c) oracle w tr = Some (r, w', tr', rest) ->
  0 <= c ->
  r = Raised ZeroDivisionError /\
  results (self w') = [] /\
  exists t0 t1,
    tr' = DaSelf :: DaTime t1 :: DaGather [] None :: DaSelf :: DaSemaphore c
          :: DaTime t0 :: DaResultsClear :: DaPrint (OutScenarioHeader name 0 c) :: tr.
Proof.
  intros Hrun Hc. apply run_scenario_inv in Hrun.
  assert (Hempty : forall sched outcome p,
             gather_run sched (scenario_pool (set_results [] w) 0 c) = Some (outcome, p) ->
             outcome = None /\ p = scenario_pool (set_results [] w) 0 c).
  { intros [|[i a] sched] outcome p; simpl.
    - intros [= <- <-]. auto.
    - unfold step. simpl. destruct i; discriminate. }
  inversion Hrun as [t0 Hneg | t0 sched p e _ Hg | t0 t1 sched p e _ Hg Hrep
                    | t0 t1 sched p report _ Hg Hrep]; subst; try lia;
    destruct (Hempty _ _ _ Hg) as [Hout ->]; try discriminate.
  pose proof (_print_results_cases
                (results (self (world (scenario_pool (set_results [] w) 0 c))))
                name 0 (t1 - t0)) as Hz.
  rewrite Hrep in Hz. destruct Hz as [-> _]. simpl. eauto.
Qed.

Lemma run_scenario_zero_requests_witness :
  exists w' tr' rest,
    drun (run_scenario "empty" 0 4) (sequential_oracle 0) world0 []
    = Some (Raised ZeroDivisionError, w', tr', rest) /\
    results (self w') = [].
Proof.
  do 3 eexists. split; [reflexivity|].
  refine (proj1 (proj2 (run_scenario_zero_requests "empty" 4
                          (sequential_oracle 0) world0 [] _ _ _ _ eq_refl _))).
  lia.
Defined.

End ScenarioEdgeCases.

Section ScenarioOutcomes.

(** When all tasks of a pool have returned, no slot is held and no request
    is in flight. *)
Lemma finished_pool_idle n c rs0 p :
  pool_inv n p -> world_inv c rs0 p ->
  forallb finished (tasks p) = true ->
  slots_held (trace p) = 0 /\ in_flight (trace p) = 0 /\ sem_value (world p) = c.
Proof.
  intros (Hlen & Hids & Hal) (Hsem & _ & _) Hfin.
  assert (Hfinal : forall i, In i (seq 0 n) ->
             tally slot_weight (local i (trace p)) = 0 /\
             tally flight_weight (local i (trace p)) = 0).
  { intros i Hi. apply in_seq in Hi.
    destruct (nth_error (tasks p) i) as [t|] eqn:Ht;
      [|apply nth_error_None in Ht; lia].
    rewrite forallb_forall in Hfin.
    specialize (Hfin t (nth_error_In _ _ Ht)).
    destruct t as [[]|e|X ev k]; try discriminate.
    specialize (Hal i _ Ht). simpl in Hal.
    destruct Hal as (_ & H1 & H2 & _). auto. }
  assert (Hs : slots_held (trace p) = 0).
  { unfold slots_held. rewrite <- (tally_by_task slot_weight n) by assumption.
    rewrite (sum_over_const _ _ 0); [lia|]. intros i Hi. apply (Hfinal i Hi). }
  assert (Hf : in_flight (trace p) = 0).
  { unfold in_flight. rewrite <- (tally_by_task flight_weight n) by assumption.
    rewrite (sum_over_const _ _ 0); [lia|]. intros i Hi. apply (Hfinal i Hi). }
  repeat split; try assumption. lia.
Qed.

(** What is known of the pool of a scenario that has returned. *)
Lemma returned_scenario name n c oracle w tr w' tr' rest :
  drun (run_scenario name n c) oracle w tr = Some (Ok tt, w', tr', rest) ->
  exists t0 t1 sched p report,
    0 <= c /\ w' = world p /\
    steps sched (scenario_pool (set_results [] w) n c) = Some p /\
    forallb finished (tasks p) = true /\
    pool_inv (Z.to_nat n) p /\ world_inv c [] p /\
    _print_results (results (self (world p))) name n (t1 - t0) = Ok report /\
    tr' = DaPrint (OutResults name report) :: DaSelf :: DaTime t1
          :: DaGather (trace p) None :: DaSelf :: DaSemaphore c
          :: DaTime t0 :: DaResultsClear :: DaPrint (OutScenarioHeader name n c) :: tr.
Proof.
  intros Hrun. apply run_scenario_inv in Hrun.
  inversion Hrun as [| | |t0 t1 sched p report Hc Hg Hrep]; subst.
  apply gather_run_steps in Hg as [Hsteps Hfin].
  destruct (scenario_pool_inv (set_results [] w) n c Hc) as [Hp Hw].
  destruct (steps_inv _ _ _ _ _ _ Hsteps Hp Hw) as [Hp' Hw'].
  exists t0, t1, sched, p, report.
  repeat match goal with
         | |- _ /\ _ => split; [first [assumption | reflexivity | exact Hw']|]
         end.
  reflexivity.
Qed.

(** When [run_scenario] returns, every slot of the semaphore is free again
    and no request is in flight. *)
Theorem run_scenario_frees_all_slots name n c oracle w tr w' tr' rest :
  drun (run_scenario name n c) oracle w tr = Some (Ok tt, w', tr', rest) ->
  sem_value w' = c /\
  exists gtr, In (DaGather gtr None) tr' /\ slots_held gtr = 0 /\ in_flight gtr = 0.
Proof.
  intros Hrun.
  destruct (returned_scenario _ _ _ _ _ _ _ _ _ Hrun)
    as (t0 & t1 & sched & p & report & Hc & -> & _ & Hfin & Hp & Hw & _ & ->).
  destruct (finished_pool_idle _ _ _ _ Hp Hw Hfin) as (Hs & Hf & Hsem).
  split; [assumption|].
  exists (trace p). split; [|auto]. simpl. auto 6.
Qed.

Lemma run_scenario_frees_all_slots_witness :
  exists w' tr' rest,
    drun (run_scenario "Two requests" 2 1) two_request_oracle world0 []
    = Some (Ok tt, w', tr', rest) /\
    sem_value w' = 1.
Proof.
  do 3 eexists. split; [vm_compute; reflexivity|].
  refine (proj1 (run_scenario_frees_all_slots "Two requests" 2 1
                   two_request_oracle world0 [] _ _ _ _)).
  vm_compute. reflexivity.
Defined.

(** The report that a returning scenario prints counts [num_requests]
    outcomes, each as a success or as a failure, and its success rate is
    between 0 and 100. *)
Theorem run_scenario_report_consistent name n c oracle w tr w' tr' rest :
  drun (run_scenario name n c) oracle w tr = Some (Ok tt, w', tr', rest) ->
  0 <= n ->
  exists report earlier,
    tr' = DaPrint (OutResults name report) :: earlier /\
    0 < n /\
    rp_total_requests report = n /\
    rp_successful report + rp_failed report = n /\
    0 <= rp_successful report /\ 0 <= rp_failed report /\
    (0 <= rp_success_rate report)%Q /\ (rp_success_rate report <= 100)%Q.
Proof.
  intros Hrun Hn.
  destruct (returned_scenario _ _ _ _ _ _ _ _ _ Hrun)
    as (t0 & t1 & sched & p & report & Hc & -> & _ & Hfin & Hp & Hw & Hrep & ->).
  destruct (finished_pool_appends _ _ _ _ Hp Hw Hfin) as [_ Hlen].
  destruct Hw as (_ & _ & Hres). simpl in Hres.
  assert (Hcount : Stats.len (results (self (world p))) = n).
  { unfold Stats.len. rewrite Hres, length_rev, Hlen. lia. }
  pose proof (_print_results_inv _ _ _ _ _ Hrep) as (_ & Htot & Hsucc & Hfail).
  pose proof (_print_results_rates _ _ _ _ _ Hrep) as (Hrate & _ & _ & _ & Hn0 & _).
  set (rs := results (self (world p))) in *.
  pose proof (filter_partition_length success rs) as Hpart.
  pose proof (filter_length_le success rs) as Hle.
  unfold Stats.len in *.
  assert (Hpos : 0 < n) by lia.
  assert (HnQ : (0 < inject_Z n)%Q)
    by (change 0%Q with (inject_Z 0); rewrite <- Zlt_Qlt; lia).
  assert (Hs0 : (0 <= inject_Z (Z.of_nat (List.length (filter success rs))))%Q)
    by (change 0%Q with (inject_Z 0); rewrite <- Zle_Qle; lia).
  assert (Hsn : (inject_Z (Z.of_nat (List.length (filter success rs))) <= inject_Z n)%Q)
    by (rewrite <- Zle_Qle; lia).
  exists report. eexists. split; [reflexivity|].
  repeat split; try lia.
  - rewrite Hrate. apply Qmult_le_0_compat; [|lra].
    apply Qle_shift_div_l; [assumption | lra].
  - rewrite Hrate.
    assert (Hq : (inject_Z (Z.of_nat (List.length (filter success rs))) / inject_Z n <= 1)%Q)
      by (apply Qle_shift_div_r; [assumption | lra]).
    lra.
Qed.

Lemma run_scenario_report_consistent_witness :
  exists w' tr' rest report earlier,
    drun (run_scenario "Two requests" 2 1) two_request_oracle world0 []
    = Some (Ok tt, w', tr', rest) /\
    tr' = DaPrint (OutResults "Two requests" report) :: earlier /\
    rp_successful report + rp_failed report = 2.
Proof.
  assert (Hrun : exists w' tr' rest,
             drun (run_scenario "Two requests" 2 1) two_request_oracle world0 []
             = Some (Ok tt, w', tr', rest))
    by (do 3 eexists; vm_compute; reflexivity).
  destruct Hrun as (w' & tr' & rest & Hrun).
  destruct (run_scenario_report_consistent _ _ _ _ _ _ _ _ _ Hrun ltac:(lia))
    as (report & earlier & Htr & _ & _ & Hsum & _).
  exists w', tr', rest, report, earlier. auto.
Defined.

(** Whenever [run_scenario] ends, by returning or by raising, every outcome
    in the collection is well formed: it carries the label of one of the
    three operations and [success] says whether the status is that
    operation's expected status. *)
Theorem run_scenario_outcomes_well_formed name n c oracle w tr r w' tr' rest :
  drun (run_scenario name n c) oracle w tr = Some (r, w', tr', rest) ->
  forall res, In res (results (self w')) -> well_formed_outcome res.
Proof.
  intros Hrun. apply run_scenario_inv in Hrun.
  assert (Hpool : forall sched outcome p,
             0 <= c ->
             gather_run sched (scenario_pool (set_results [] w) n c) = Some (outcome, p) ->
             forall res, In res (results (self (world p))) -> well_formed_outcome res).
  { intros sched outcome p Hc Hg res Hin.
    apply gather_run_steps in Hg as [Hsteps _].
    destruct (scenario_pool_inv (set_results [] w) n c Hc) as [Hp Hw].
    destruct (steps_inv _ _ _ _ _ _ Hsteps Hp Hw) as [(Hlen & Hids & _) (_ & _ & Hres)].
    simpl in Hres. rewrite Hres in Hin. apply in_rev in Hin.
    apply appended_In in Hin. unfold actions in Hin.
    apply in_map_iff in Hin as ([i ac] & Hac & Hin). simpl in Hac. subst ac.
    pose proof (Hids i _ Hin) as Hi.
    destruct (nth_error (tasks p) i) as [t|] eqn:Ht;
      [|apply nth_error_None in Ht; lia].
    pose proof (scenario_pool_along _ _ _ _ _ Hsteps i t Ht) as Hal.
    apply along_now in Hal. apply Hal.
    apply appended_In. now apply in_local. }
  inversion Hrun; subst; eauto.
  simpl. intros res [].
Qed.

Lemma run_scenario_outcomes_well_formed_witness :
  exists w' tr' rest,
    drun (run_scenario "Two requests" 2 1) two_request_oracle world0 []
    = Some (Ok tt, w', tr', rest) /\
    forall res, In res (results (self w')) -> well_formed_outcome res.
Proof.
  do 3 eexists. split; [vm_compute; reflexivity|].
  refine (run_scenario_outcomes_well_formed "Two requests" 2 1
            two_request_oracle world0 [] _ _ _ _ _).
  vm_compute. reflexivity.
Defined.

(** [run_scenario] raises only in three ways: [ValueError] for a negative
    [concurrency]; [ZeroDivisionError] from the reporter when
    [num_requests] is 0 or the clock shows no elapsed time; or an exception
    outside [Exception] that a client call raised in a task.  A transport
    failure never makes it raise. *)
Theorem run_scenario_raises_only name n c oracle w tr e w' tr' rest :
  drun (run_scenario name n c) oracle w tr = Some (Raised e, w', tr', rest) ->
  transport_failure e = false /\
  ((c < 0 /\ e = ValueError) \/
   (0 <= c /\ e = ZeroDivisionError /\
    exists t0 t1 gtr earlier,
      tr' = DaSelf :: DaTime t1 :: DaGather gtr None :: DaSelf :: DaSemaphore c
            :: DaTime t0 :: earlier /\
      (n = 0 \/ (t1 - t0 == 0)%Q)) \/
   (0 <= c /\ is_Exception e = false /\
    exists gtr earlier i ac,
      tr' = DaGather gtr (Some e) :: earlier /\
      In (i, ac) gtr /\ client_failure ac = Some e)).
Proof.
  intros Hrun. apply run_scenario_inv in Hrun.
  assert (Hcases :
    (c < 0 /\ e = ValueError) \/
    (0 <= c /\ e = ZeroDivisionError /\
     exists t0 t1 gtr earlier,
       tr' = DaSelf :: DaTime t1 :: DaGather gtr None :: DaSelf :: DaSemaphore c
             :: DaTime t0 :: earlier /\
       (n = 0 \/ (t1 - t0 == 0)%Q)) \/
    (0 <= c /\ is_Exception e = false /\
     exists gtr earlier i ac,
       tr' = DaGather gtr (Some e) :: earlier /\
       In (i, ac) gtr /\ client_failure ac = Some e)).
  { inversion Hrun as [t0 Hneg | t0 sched p e' Hc Hg | t0 t1 sched p e' Hc Hg Hrep | ];
      subst.
    - left. auto.
    - right. right. split; [assumption|].
      apply gather_run_steps in Hg as [Hsteps [i Hi]].
      pose proof (scenario_pool_along _ _ _ _ _ Hsteps i _ Hi) as Hal.
      simpl in Hal. destruct Hal as [_ Hraise].
      destruct (Hraise e eq_refl) as (He & ac & Hin & Hac).
      split; [assumption|].
      exists (trace p). eexists. exists i, ac.
      split; [reflexivity|]. split; [now apply in_local | assumption].
    - right. left. split; [assumption|].
      pose proof (_print_results_cases (results (self (world p))) name n (t1 - t0)) as Hz.
      rewrite Hrep in Hz. destruct Hz as [-> Hz].
      split; [reflexivity|]. exists t0, t1, (trace p). eexists. split; [reflexivity|].
      assumption. }
  split; [|assumption].
  destruct Hcases as [(_ & ->) | [(_ & -> & _) | (_ & He & _)]];
    try reflexivity. destruct e; try reflexivity; discriminate.
Qed.

Lemma run_scenario_raises_only_witness :
  exists w' tr' rest,
    drun (run_scenario "Low Concurrency Test" 100 10)
         (skipn 3 (firstn 9 interrupted_oracle)) world0 []
    = Some (Raised KeyboardInterrupt, w', tr', rest) /\
    transport_failure KeyboardInterrupt = false.
Proof.
  do 3 eexists. split; [vm_compute; reflexivity|].
  refine (proj1 (run_scenario_raises_only "Low Concurrency Test" 100 10
                   (skipn 3 (firstn 9 interrupted_oracle)) world0 []
                   KeyboardInterrupt _ _ _ _)).
  vm_compute. reflexivity.
Defined.

End ScenarioOutcomes.

(** ** The sequencer: what a run of [main] adds up to *)

Section MainProperties.

(** The ways in which [run_scenario] raises. *)
Lemma scenario_raise_cases name n c oracle w tr e w' tr' rest :
  drun (run_scenario name n c) oracle w tr = Some (Raised e, w', tr', rest) ->
  (c < 0 /\ e = ValueError) \/
  (0 <= c /\ e = ZeroDivisionError) \/
  (0 <= c /\ is_Exception e = false /\
   exists gtr earlier i ac,
     tr' = DaGather gtr (Some e) :: earlier /\
     In (i, ac) gtr /\ client_failure ac = Some e).
Proof.
  intros Hrun. apply run_scenario_inv in Hrun.
  inversion Hrun as [t0 Hneg | t0 sched p e' Hc Hg | t0 t1 sched p e' Hc Hg Hrep | ];
    subst.
  - left. auto.
  - right. right. split; [assumption|].
    apply gather_run_steps in Hg as [Hsteps [i Hi]].
    pose proof (scenario_pool_along _ _ _ _ _ Hsteps i _ Hi) as Hal.
    simpl in Hal. destruct Hal as [_ Hraise].
    destruct (Hraise e eq_refl) as (He & ac & Hin & Hac).
    split; [assumption|].
    exists (trace p). eexists. exists i, ac.
    split; [reflexivity|]. split; [now apply in_local | assumption].
  - right. left. split; [assumption|].
    pose proof (_print_results_cases (results (self (world p))) name n (t1 - t0)) as Hz.
    rewrite Hrep in Hz. now destruct Hz as [-> _].
Qed.

(** A property that each returning scenario carries over holds after the
    scenarios of a list; if one raises, it held before that scenario. *)
Lemma run_all_invariant (P : list (string * Z * Z) -> World -> list DAction -> Prop) l :
  forall done k o w tr r w' tr' rest,
    (forall d name n c o w tr w' tr' rest,
        In (name, n, c) l ->
        P d w tr ->
        drun (run_scenario name n c) o w tr = Some (Ok tt, w', tr', rest) ->
        P (d ++ [(name, n, c)])%list w' tr') ->
    P done w tr ->
    drun (run_all l k) o w tr = Some (r, w', tr', rest) ->
    (exists o1 w1 tr1,
        P (done ++ l)%list w1 tr1 /\ drun k o1 w1 tr1 = Some (r, w', tr', rest)) \/
    (exists e d name n c o0 w0 tr0,
        r = Raised e /\ P d w0 tr0 /\ In (name, n, c) l /\
        drun (run_scenario name n c) o0 w0 tr0 = Some (Raised e, w', tr', rest)).
Proof.
  induction l as [|[[name n] c] l IH]; intros done k o w tr r w' tr' rest Hstep HP Hrun.
  - left. exists o, w, tr. rewrite app_nil_r. auto.
  - cbn [run_all fold_right] in Hrun. fold (run_all l k) in Hrun.
    rewrite drun_bind in Hrun.
    destruct (drun (run_scenario name n c) o w tr) as [[[[r1 w1] tr1] o1]|] eqn:H1;
      [|discriminate].
    destruct r1 as [[]|e].
    + pose proof (Hstep _ _ _ _ _ _ _ _ _ _ (or_introl eq_refl) HP H1) as HP1.
      destruct (IH _ k o1 w1 tr1 r w' tr' rest
                  (fun d name n c o w tr w' tr' rest Hin =>
                     Hstep d name n c o w tr w' tr' rest (or_intror Hin))
                  HP1 Hrun)
        as [(o2 & w2 & tr2 & HP2 & Hk)
           | (e & d & name' & n' & c' & o0 & w0 & tr0 & -> & HPd & Hin & Hr)].
      * left. exists o2, w2, tr2. rewrite <- app_assoc in HP2. auto.
      * right. exists e, d, name', n', c', o0, w0, tr0.
        repeat split; try assumption. now right.
    + right. injection Hrun as <- <- <- <-.
      exists e, done, name, n, c, o, w, tr. repeat split; try assumption. now left.
Qed.

(** What [close_session] leaves untouched. *)
Lemma close_session_keeps {A} (k : Driver A) o w tr res :
  drun (bind close_session (fun _ => k)) o w tr = Some res ->
  exists o1 w1 tr1,
    drun k o1 w1 tr1 = Some res /\
    results (self w1) = results (self w) /\ sem_value w1 = sem_value w /\
    reports tr1 = reports tr /\ task_steps tr1 = task_steps tr.
Proof.
  unfold close_session. intros H.
  destruct o as [|a1 o]; [discriminate|].
  cbn [drun bind trigger dhandle] in H.
  destruct (_session (self w)) as [s|].
  - destruct o as [|a2 o]; [discriminate|].
    cbn [drun bind trigger dhandle] in H.
    exists o, (close_in_heap s w), (DaSessionClose s :: DaSelf :: tr). auto.
  - exists o, w, (DaSelf :: tr). auto.
Qed.

(** If [main] raises, it is [ZeroDivisionError] from a report whose clock
    showed no elapsed time, or an exception outside [Exception] that a
    client call raised; a transport failure never ends the run. *)
Theorem main_raises_only oracle w e w' tr rest :
  drun main oracle w [] = Some (Raised e, w', tr, rest) ->
  transport_failure e = false /\
  (e = ZeroDivisionError \/
   (is_Exception e = false /\
    exists i ac, In (i, ac) (task_steps tr) /\ client_failure ac = Some e)).
Proof.
  intros Hrun. rewrite main_unfold in Hrun.
  destruct oracle as [|a1 oracle]; [discriminate|].
  destruct oracle as [|a2 oracle]; [discriminate|].
  destruct oracle as [|a3 oracle]; [discriminate|].
  cbn [drun bind trigger dhandle] in Hrun.
  rewrite drun_try_finally in Hrun.
  match type of Hrun with
  | match drun ?b ?o ?w0 ?tr0 with _ => _ end = _ =>
      destruct (drun b o w0 tr0) as [[[[rb wb] trb] ob]|] eqn:Hbody; [|discriminate]
  end.
  assert (Hcases : e = ZeroDivisionError \/
                   (is_Exception e = false /\
                    exists i ac, In (i, ac) (task_steps tr) /\
                                 client_failure ac = Some e)).
  { destruct (run_all_invariant (fun _ _ _ => True) _ [] _ _ _ _ _ _ _ _
                (fun _ _ _ _ _ _ _ _ _ _ _ _ _ => I) I Hbody)
      as [(o1 & w1 & tr1 & _ & Hk)
         | (e0 & d & name & n & c & o0 & w0 & tr0 & -> & _ & Hin & Hr)].
    - destruct o1 as [|b1 o1]; [discriminate|].
      destruct o1 as [|b2 o1]; [discriminate|].
      cbn [drun bind trigger dhandle] in Hk. injection Hk as <- <- <- <-.
      apply close_session_keeps in Hrun as (o2 & w2 & tr2 & Hend & _).
      discriminate.
    - apply close_session_keeps in Hrun as (o2 & w2 & tr2 & Hend & _ & _ & _ & Hsteps).
      cbn [drun] in Hend. injection Hend as <- <- <- _.
      destruct (scenario_raise_cases _ _ _ _ _ _ _ _ _ _ Hr)
        as [(Hneg & _) | [(_ & ->) | (_ & He & gtr & earlier & i & ac & -> & Hi & Hac)]].
      + exfalso. unfold scenarios in Hin. simpl in Hin.
        repeat (destruct Hin as [Hin|Hin]; [injection Hin as _ _ <-; lia|]).
        destruct Hin.
      + now left.
      + right. split; [assumption|]. exists i, ac. split; [|assumption].
        rewrite Hsteps. simpl. apply in_or_app. now left. }
  split; [|assumption].
  destruct Hcases as [->|(He & _)]; [reflexivity|].
  destruct e; try reflexivity; discriminate.
Qed.

Lemma main_raises_only_witness :
  exists w' tr rest,
    drun main interrupted_oracle world0 [] = Some (Raised KeyboardInterrupt, w', tr, rest) /\
    transport_failure KeyboardInterrupt = false.
Proof.
  do 3 eexists. split; [vm_compute; reflexivity|].
  refine (proj1 (main_raises_only interrupted_oracle world0 KeyboardInterrupt _ _ _ _)).
  vm_compute. reflexivity.
Defined.

End MainProperties.

Section RequestsSent.

(** A unit of work sends at most one request, and exactly one by the time it
    ends. *)
Lemma bounded_request_sends base tenant_set :
  along (fun tr => 0 <= tally send_weight tr <= 1)
        (fun tr _ => tally send_weight tr = 1)
        (bounded_request base tenant_set) [].
Proof.
  unfold bounded_request, async_with_semaphore. unfold_ops.
  repeat first
    [ along_step
    | match goal with
      | |- context [Qlt_le_dec ?a ?b] => destruct (Qlt_le_dec a b)
      | |- context [is_Exception ?e] => destruct (is_Exception e) eqn:?
      end ];
    try exact I; cbn; lia.
Qed.

Lemma finished_pool_sends w n c sched p :
  0 <= c ->
  steps sched (scenario_pool w n c) = Some p ->
  forallb finished (tasks p) = true ->
  requests_sent (trace p) = Z.of_nat (Z.to_nat n) /\
  forall i, (i < Z.to_nat n)%nat -> tally send_weight (local i (trace p)) = 1.
Proof.
  intros Hc Hsteps Hfin.
  destruct (scenario_pool_inv w n c Hc) as [Hp Hw].
  destruct (steps_inv _ _ _ _ _ _ Hsteps Hp Hw) as [(Hlen & Hids & _) _].
  assert (Hal : forall i t, nth_error (tasks p) i = Some t ->
                  along (fun tr => 0 <= tally send_weight tr <= 1)
                        (fun tr _ => tally send_weight tr = 1) t (local i (trace p))).
  { apply (steps_along _ _ _ _ _ Hsteps).
    intros i t Ht. simpl in Ht. apply scenario_tasks_nth in Ht as ->.
    apply bounded_request_sends. }
  assert (Hone : forall i, (i < Z.to_nat n)%nat ->
                           tally send_weight (local i (trace p)) = 1).
  { intros i Hi.
    destruct (nth_error (tasks p) i) as [t|] eqn:Ht;
      [|apply nth_error_None in Ht; lia].
    rewrite forallb_forall in Hfin.
    specialize (Hfin t (nth_error_In _ _ Ht)).
    destruct t as [[]|e|X ev k]; try discriminate.
    specialize (Hal i _ Ht). simpl in Hal. apply Hal. }
  split; [|assumption].
  unfold requests_sent.
  rewrite <- (tally_by_task send_weight (Z.to_nat n)) by assumption.
  rewrite (sum_over_const _ _ 1).
  - rewrite length_seq. lia.
  - intros i Hi. apply in_seq in Hi. apply Hone. lia.
Qed.

(** When [run_scenario] returns, its tasks have sent exactly [num_requests]
    requests, one each. *)
Theorem run_scenario_sends_num_requests name n c oracle w tr w' tr' rest :
  drun (run_scenario name n c) oracle w tr = Some (Ok tt, w', tr', rest) ->
  0 <= n ->
  exists gtr,
    In (DaGather gtr None) tr' /\
    requests_sent gtr = n /\
    forall i, (i < Z.to_nat n)%nat -> tally send_weight (local i gtr) = 1.
Proof.
  intros Hrun Hn.
  destruct (returned_scenario _ _ _ _ _ _ _ _ _ Hrun)
    as (t0 & t1 & sched & p & report & Hc & -> & Hsteps & Hfin & _ & _ & _ & ->).
  destruct (finished_pool_sends _ _ _ _ _ Hc Hsteps Hfin) as [Hsent Hone].
  exists (trace p). split; [simpl; auto 6|]. split; [lia | assumption].
Qed.

Lemma run_scenario_sends_num_requests_witness :
  exists w' tr' rest gtr,
    drun (run_scenario "Two requests" 2 1) two_request_oracle world0 []
    = Some (Ok tt, w', tr', rest) /\
    In (DaGather gtr None) tr' /\ requests_sent gtr = 2.
Proof.
  assert (Hrun : exists w' tr' rest,
             drun (run_scenario "Two requests" 2 1) two_request_oracle world0 []
             = Some (Ok tt, w', tr', rest))
    by (do 3 eexists; vm_compute; reflexivity).
  destruct Hrun as (w' & tr' & rest & Hrun).
  destruct (run_scenario_sends_num_requests _ _ _ _ _ _ _ _ _ Hrun ltac:(lia))
    as (gtr & Hin & Hsent & _).
  exists w', tr', rest, gtr. auto.
Defined.

(** A returning scenario adds its report, its requests and its outcomes to
    what the scenarios before it left. *)
Lemma after_scenarios_step d name n c o w tr w' tr' rest :
  0 <= n ->
  after_scenarios d w tr ->
  drun (run_scenario name n c) o w tr = Some (Ok tt, w', tr', rest) ->
  after_scenarios (d ++ [(name, n, c)]) w' tr'.
Proof.
  intros Hn (Htot & Hcons & Hsent & _) Hrun.
  destruct (returned_scenario _ _ _ _ _ _ _ _ _ Hrun)
    as (t0 & t1 & sched & p & report & Hc & -> & Hsteps & Hfin & Hp & Hw & Hrep & ->).
  destruct (finished_pool_appends _ _ _ _ Hp Hw Hfin) as [_ Hlen].
  destruct (finished_pool_sends _ _ _ _ _ Hc Hsteps Hfin) as [Hs _].
  destruct Hw as (_ & _ & Hres). simpl in Hres.
  assert (Hcount : Stats.len (results (self (world p))) = n).
  { unfold Stats.len. rewrite Hres, length_rev, Hlen. lia. }
  pose proof (_print_results_inv _ _ _ _ _ Hrep) as (_ & Ht & Hsucc & Hfail).
  unfold after_scenarios.
  cbn [reports task_steps map].
  rewrite map_app, rev_app_distr. cbn [map rev app scenario_requests fst snd].
  repeat split.
  - now rewrite Ht, Htot.
  - constructor; [|assumption].
    unfold report_consistent. rewrite Ht, Hsucc, Hfail.
    pose proof (filter_partition_length success (results (self (world p)))).
    unfold Stats.len in *. lia.
  - unfold requests_sent, actions in *.
    rewrite map_app, tally_app, Hsent, Hs, Z2Nat.id by assumption.
    clear. induction (map scenario_requests d) as [|x l IH]; simpl in *; lia.
  - rewrite rev_app_distr. simpl. assumption.
Qed.

(** A run of [main] that completes has printed four reports, with 100, 500,
    1000 and 2000 requests in this order, each counting every outcome as a
    success or a failure; 3600 requests were sent in all, and the collection
    holds the 2000 outcomes of the last scenario. *)
Theorem main_complete_run oracle w w' tr rest :
  drun main oracle w [] = Some (Ok tt, w', tr, rest) ->
  map rp_total_requests (rev (reports tr)) = [100; 500; 1000; 2000] /\
  Forall report_consistent (reports tr) /\
  requests_sent (task_steps tr) = 3600 /\
  Stats.len (results (self w')) = 2000.
Proof.
  intros Hrun. rewrite main_unfold in Hrun.
  destruct oracle as [|a1 oracle]; [discriminate|].
  destruct oracle as [|a2 oracle]; [discriminate|].
  destruct oracle as [|a3 oracle]; [discriminate|].
  cbn [drun bind trigger dhandle] in Hrun.
  rewrite drun_try_finally in Hrun.
  match type of Hrun with
  | match drun ?b ?o ?w0 ?tr0 with _ => _ end = _ =>
      destruct (drun b o w0 tr0) as [[[[rb wb] trb] ob]|] eqn:Hbody; [|discriminate];
      assert (H0 : after_scenarios [] w0 tr0)
  end.
  { unfold after_scenarios. cbn. repeat split. constructor. }
  assert (Hstep : forall d name n c o w tr w' tr' rest,
             In (name, n, c) scenarios ->
             after_scenarios d w tr ->
             drun (run_scenario name n c) o w tr = Some (Ok tt, w', tr', rest) ->
             after_scenarios (d ++ [(name, n, c)]) w' tr').
  { intros d name n c o w0 tr0 w1 tr1 rest0 Hin. apply after_scenarios_step.
    unfold scenarios in Hin. simpl in Hin.
    repeat (destruct Hin as [Hin|Hin]; [injection Hin as _ <- _; lia|]).
    destruct Hin. }
  destruct (run_all_invariant after_scenarios scenarios [] _ _ _ _ _ _ _ _
              Hstep H0 Hbody)
    as [(o1 & w1 & tr1 & HP & Hk)
       | (e0 & d & name & n & c & o0 & w0 & tr0 & -> & _ & Hin & Hr)].
  - destruct o1 as [|b1 o1]; [discriminate|].
    destruct o1 as [|b2 o1]; [discriminate|].
    cbn [drun bind trigger dhandle] in Hk. injection Hk as <- <- <- <-.
    apply close_session_keeps in Hrun
      as (o2 & w2 & tr2 & Hend & Hres & _ & Hrep & Hsteps).
    cbn [drun] in Hend. injection Hend as <- <- _.
    destruct HP as (Htot & Hcons & Hsent & Hlast).
    cbn [reports task_steps] in Hrep, Hsteps.
    rewrite Hrep, Hsteps, Hres. repeat split.
    + rewrite map_rev, Htot, rev_involutive. reflexivity.
    + assumption.
    + rewrite Hsent. reflexivity.
    + exact Hlast.
  - apply close_session_keeps in Hrun as (o2 & w2 & tr2 & Hend & _).
    discriminate.
Qed.

Lemma main_complete_run_witness :
  exists oracle w' tr rest,
    drun main oracle world0 [] = Some (Ok tt, w', tr, rest) /\
    requests_sent (task_steps tr) = 3600 /\
    Stats.len (results (self w')) = 2000.
Proof.
  destruct (main_completes world0) as (oracle & w' & tr & Hrun).
  exists oracle, w', tr, []. split; [exact Hrun|].
  exact (proj2 (proj2 (main_complete_run oracle world0 w' tr [] Hrun))).
Defined.

End RequestsSent.

(** ** The reporter does not depend on the order of the outcomes *)

Section OrderIrrelevance.
Import Stats.

Lemma Forall2_Qeq_refl l : Forall2 Qeq l l.
Proof. induction l; constructor; [reflexivity | assumption]. Qed.

Lemma Forall2_Qeq_trans l1 l2 l3 :
  Forall2 Qeq l1 l2 -> Forall2 Qeq l2 l3 -> Forall2 Qeq l1 l3.
Proof.
  intros H; revert l3. induction H as [|a b l1 l2 Hab H IH]; intros l3 H23.
  - inversion H23. constructor.
  - inversion H23 as [|? c ? l3' Hbc H']; subst. constructor.
    + now rewrite Hab.
    + now apply IH.
Qed.

Lemma insert_Qeq x y l1 l2 :
  (x == y)%Q -> Forall2 Qeq l1 l2 -> Forall2 Qeq (insert x l1) (insert y l2).
Proof.
  intros Hxy H. induction H as [|a b l1 l2 Hab H IH]; simpl.
  - repeat constructor. assumption.
  - rewrite (Qleb_comp x y Hxy a b Hab).
    destruct (Qle_bool y b); repeat constructor; assumption.
Qed.

Ltac order_cases :=
  repeat match goal with
         | |- context [Qle_bool ?a ?b] =>
             let E := fresh "E" in destruct (Qle_bool a b) eqn:E
         end;
  repeat match goal with
         | E : Qle_bool _ _ = true |- _ => apply Qle_bool_iff in E
         | E : Qle_bool ?a ?b = false |- _ =>
             let Hle := fresh "Hle" in
             assert (b < a)%Q
               by (apply Qnot_le_lt; intro Hle; apply Qle_bool_iff in Hle; congruence);
             clear E
         end.

(** Two insertions commute, up to the order of equal values. *)
Lemma insert_swap x y l :
  Forall2 Qeq (insert x (insert y l)) (insert y (insert x l)).
Proof.
  induction l as [|a l IH]; simpl.
  - order_cases; repeat constructor; lra.
  - destruct (Qle_bool y a) eqn:Ey, (Qle_bool x a) eqn:Ex; simpl;
      rewrite ?Ey, ?Ex; order_cases;
      try (exfalso; lra);
      repeat first [ apply Forall2_Qeq_refl
                   | exact IH
                   | constructor; [lra|]
                   | constructor; [reflexivity|] ].
Qed.

(** Sorting two arrangements of the same values gives the same values, item
    by item. *)
Lemma sorted_permutation l1 l2 :
  Permutation l1 l2 -> Forall2 Qeq (sorted l1) (sorted l2).
Proof.
  induction 1 as [|x l1 l2 H IH|x y l|l1 l2 l3 H1 IH1 H2 IH2]; simpl.
  - constructor.
  - apply insert_Qeq; [reflexivity | assumption].
  - apply insert_swap.
  - eapply Forall2_Qeq_trans; eassumption.
Qed.

Lemma Forall2_Qeq_nth l1 l2 : Forall2 Qeq l1 l2 ->
  forall i, (nth i l1 0 == nth i l2 0)%Q.
Proof.
  induction 1 as [|a b l1 l2 Hab H IH]; intros [|i]; simpl;
    try reflexivity; auto.
Qed.

Lemma cut_point_Qeq s1 s2 ld n i :
  Forall2 Qeq s1 s2 -> (cut_point s1 ld n i == cut_point s2 ld n i)%Q.
Proof.
  intros H. unfold cut_point, item.
  rewrite (Forall2_Qeq_nth _ _ H (Z.to_nat (cut_index ld n i - 1))).
  rewrite (Forall2_Qeq_nth _ _ H (Z.to_nat (cut_index ld n i))).
  reflexivity.
Qed.

Lemma Qsum_permutation l1 l2 : Permutation l1 l2 -> (Qsum l1 == Qsum l2)%Q.
Proof.
  unfold Qsum. induction 1; simpl; lra.
Qed.

Lemma len_permutation {A} (l1 l2 : list A) : Permutation l1 l2 -> len l1 = len l2.
Proof. intros H. unfold len. now rewrite (Permutation_length H). Qed.

Lemma successful_times_permutation rs rs' :
  Permutation rs rs' -> Permutation (successful_times rs) (successful_times rs').
Proof.
  intros H. unfold successful_times. apply Permutation_map.
  induction H; simpl.
  - constructor.
  - destruct (success x); [now constructor | assumption].
  - destruct (success x), (success y); try apply Permutation_refl.
    + apply perm_swap.
  - eapply perm_trans; eassumption.
Qed.

Lemma filter_permutation_length {A} (f : A -> bool) l1 l2 :
  Permutation l1 l2 -> List.length (filter f l1) = List.length (filter f l2).
Proof.
  induction 1; simpl; try congruence.
  - destruct (f x); simpl; congruence.
  - destruct (f x), (f y); reflexivity.
Qed.

(** The five latency figures of two arrangements of the same response times
    are equal. *)
Lemma latency_statistics_permutation xs ys a b c d e a' b' c' d' e' :
  Permutation xs ys ->
  latency_statistics xs = Ok (a, b, c, d, e) ->
  latency_statistics ys = Ok (a', b', c', d', e') ->
  (a == a' /\ b == b' /\ c == c' /\ d == d' /\ e == e')%Q.
Proof.
  intros Hperm Hx Hy.
  apply latency_statistics_inv in Hx as (Ha & Hb & Hc & Hd & He).
  apply latency_statistics_inv in Hy as (Ha' & Hb' & Hc' & Hd' & He').
  pose proof (len_permutation _ _ Hperm) as Hlen.
  pose proof (sorted_permutation _ _ Hperm) as Hsorted.
  assert (Hnil : xs = [] <-> ys = []).
  { split; intros ->.
    - now apply Permutation_nil.
    - apply Permutation_nil. now apply Permutation_sym. }
  assert (Hin : forall x, In x xs <-> In x ys).
  { intros x. split; apply Permutation_in; [|apply Permutation_sym]; assumption. }
  repeat split.
  - unfold avg_response in *.
    destruct xs as [|x xs'] eqn:Ex, ys as [|y ys'] eqn:Ey;
      try (destruct Hnil as [H1 H2];
           first [specialize (H1 eq_refl) | specialize (H2 eq_refl)]; discriminate).
    + injection Ha as <-. injection Ha' as <-. reflexivity.
    + rewrite <- Ex, <- Ey in *. unfold mean in *.
      rewrite Ex in Ha. rewrite Ey in Ha'. rewrite <- Ex in Ha. rewrite <- Ey in Ha'.
      injection Ha as <-. injection Ha' as <-.
      rewrite (Qsum_permutation _ _ Hperm), Hlen. reflexivity.
  - unfold p50_response in *. rewrite <- Hlen in Hb'.
    destruct (Z.leb_spec 2 (len xs)).
    + rewrite StatsFacts.quantiles_2 in Hb by assumption.
      rewrite StatsFacts.quantiles_2 in Hb' by lia.
      injection Hb as <-. injection Hb' as <-. rewrite <- Hlen.
      now apply cut_point_Qeq.
    + injection Hb as <-. injection Hb' as <-. reflexivity.
  - unfold p95_response in *. rewrite <- Hlen in Hc'.
    destruct (Z.leb_spec 20 (len xs)).
    + rewrite StatsFacts.quantiles_20 in Hc by lia.
      rewrite StatsFacts.quantiles_20 in Hc' by lia.
      injection Hc as <-. injection Hc' as <-. rewrite <- Hlen.
      now apply cut_point_Qeq.
    + injection Hc as <-. injection Hc' as <-. reflexivity.
  - unfold min_response in *.
    destruct xs as [|x xs'] eqn:Ex, ys as [|y ys'] eqn:Ey;
      try (destruct Hnil as [H1 H2];
           first [specialize (H1 eq_refl) | specialize (H2 eq_refl)]; discriminate).
    + injection Hd as <-. injection Hd' as <-. reflexivity.
    + destruct (Qmin_list_spec _ _ Hd) as [Hm Hall].
      destruct (Qmin_list_spec _ _ Hd') as [Hm' Hall'].
      apply Qle_antisym; [apply Hall, Hin, Hm' | apply Hall', Hin, Hm].
  - unfold max_response in *.
    destruct xs as [|x xs'] eqn:Ex, ys as [|y ys'] eqn:Ey;
      try (destruct Hnil as [H1 H2];
           first [specialize (H1 eq_refl) | specialize (H2 eq_refl)]; discriminate).
    + injection He as <-. injection He' as <-. reflexivity.
    + destruct (Qmax_list_spec _ _ He) as [Hm Hall].
      destruct (Qmax_list_spec _ _ He') as [Hm' Hall'].
      apply Qle_antisym; [apply Hall', Hin, Hm | apply Hall, Hin, Hm'].
Qed.

(** The figures of a report do not depend on the order in which the
    outcomes were appended: any rearrangement of the collection gives a
    report with the same counts, rates and latency figures. *)
Theorem report_order_irrelevant rs rs' name n t report :
  Permutation rs rs' ->
  _print_results rs name n t = Ok report ->
  exists report',
    _print_results rs' name n t = Ok report' /\
    rp_successful report' = rp_successful report /\
    rp_failed report' = rp_failed report /\
    rp_success_rate report' = rp_success_rate report /\
    rp_req_per_sec report' = rp_req_per_sec report /\
    (rp_avg_response report' == rp_avg_response report)%Q /\
    (rp_p50_response report' == rp_p50_response report)%Q /\
    (rp_p95_response report' == rp_p95_response report)%Q /\
    (rp_min_response report' == rp_min_response report)%Q /\
    (rp_max_response report' == rp_max_response report)%Q.
Proof.
  intros Hperm Hrep.
  pose proof (_print_results_rates _ _ _ _ _ Hrep) as (Hrate & Hrps & _ & _ & Hn & Ht).
  destruct (_print_results_total rs' name n t Hn Ht) as [report' Hrep'].
  exists report'. split; [assumption|].
  pose proof (_print_results_rates _ _ _ _ _ Hrep') as (Hrate' & Hrps' & _).
  pose proof (_print_results_inv _ _ _ _ _ Hrep) as (Hstat & _ & Hs & Hf).
  pose proof (_print_results_inv _ _ _ _ _ Hrep') as (Hstat' & _ & Hs' & Hf').
  assert (Hsl : len (filter success rs') = len (filter success rs))
    by (unfold len; now rewrite (filter_permutation_length success _ _ Hperm)).
  assert (Hfl : len (filter (fun r => negb (success r)) rs')
                = len (filter (fun r => negb (success r)) rs))
    by (unfold len;
        now rewrite (filter_permutation_length (fun r => negb (success r)) _ _ Hperm)).
  destruct (latency_statistics_permutation _ _ _ _ _ _ _ _ _ _ _ _
              (successful_times_permutation _ _ Hperm) Hstat Hstat')
    as (Ha & Hb & Hc & Hd & He).
  repeat split; try congruence; symmetry; assumption.
Qed.

Lemma report_order_irrelevant_witness :
  exists report report',
    _print_results [ok_outcome 3; failed_outcome 5; ok_outcome 4] "scenario" 3 1 = Ok report /\
    _print_results [ok_outcome 4; ok_outcome 3; failed_outcome 5] "scenario" 3 1 = Ok report' /\
    (rp_avg_response report' == rp_avg_response report)%Q.
Proof.
  assert (Hrun : exists report,
             _print_results [ok_outcome 3; failed_outcome 5; ok_outcome 4] "scenario" 3 1
             = Ok report) by (eexists; vm_compute; reflexivity).
  destruct Hrun as [report Hrun].
  destruct (report_order_irrelevant
              [ok_outcome 3; failed_outcome 5; ok_outcome 4]
              [ok_outcome 4; ok_outcome 3; failed_outcome 5] "scenario" 3 1 report)
    as (report' & Hrun' & _ & _ & _ & _ & Havg & _).
  - apply Permutation_sym.
    apply (Permutation_cons_app [ok_outcome 3; failed_outcome 5] [] (ok_outcome 4)).
    apply Permutation_refl.
  - exact Hrun.
  - exists report, report'. auto.
Defined.

End OrderIrrelevance.
